(** * SAKHI: the streaming translation pipeline

    A shallow embedding of the Python package [sakhi] (translator.py,
    langchain_llm.py, stt.py, tts.py, realtime.py) and the properties its
    specification states about the translation cache, the synthesis
    fallback chain and the per-chunk control loop. *)

From Stdlib Require Import NArith List String Ascii Bool Lia.
From stdpp Require Import base option list gmap.

Local Open Scope N_scope.

(** ** Python values *)

(** A Python [str] is a sequence of Unicode code points. *)
Abbreviation str := (list N).

(** Source literals are ASCII; [s "en"] is the str of the literal. *)
Definition s (lit : string) : str :=
  List.map N_of_ascii (list_ascii_of_string lit).

(** [str.isspace] on one code point, the set that [str.strip()] removes:
    the characters CPython lists in [_PyUnicode_IsWhitespace]. *)
Definition isspace (c : N) : bool :=
  ((0x09 <=? c) && (c <=? 0x0D)) || ((0x1C <=? c) && (c <=? 0x20))
  || (c =? 0x85) || (c =? 0xA0) || (c =? 0x1680)
  || ((0x2000 <=? c) && (c <=? 0x200A))
  || (c =? 0x2028) || (c =? 0x2029) || (c =? 0x202F) || (c =? 0x205F)
  || (c =? 0x3000).

Fixpoint lstrip (t : str) : str :=
  match t with
  | c :: t' => if isspace c then lstrip t' else t
  | [] => []
  end.

Definition rstrip (t : str) : str := rev (lstrip (rev t)).

(** [text.strip()] *)
Definition strip (t : str) : str := rstrip (lstrip t).

(** Truth value of a str: non-empty. *)
Definition truthy (t : str) : bool :=
  match t with [] => false | _ :: _ => true end.

(** Truth value of an [Optional[str]]: neither [None] nor empty. *)
Definition given (o : option str) : bool :=
  match o with Some t => truthy t | None => false end.

(** [a in b] for two strs: [a] occurs in [b] as a contiguous run. *)
Definition contains (a b : str) : Prop := exists pre post, b = pre ++ a ++ post.

(** Whether [a] starts [b], and whether [a] occurs somewhere in [b]. *)
Fixpoint starts (a b : str) : bool :=
  match a, b with
  | [], _ => true
  | x :: a', y :: b' => (x =? y) && starts a' b'
  | _ :: _, [] => false
  end.

Fixpoint occurs (a b : str) : bool :=
  starts a b || match b with [] => false | _ :: b' => occurs a b' end.

(** Exceptions.  [ValueError] is what this package raises itself;
    [Error cls msg] stands for an instance of any other subclass of
    [Exception] (KeyError, RuntimeError, OSError, ...) coming from a
    collaborator; [KeyboardInterrupt] and [SystemExit] derive from
    [BaseException] only, so [except Exception] does not name them. *)
Inductive exn : Type :=
| ValueError (msg : str)
| Error (cls msg : str)
| KeyboardInterrupt
| SystemExit.

(** [isinstance(e, Exception)] *)
Definition is_Exception (e : exn) : bool :=
  match e with
  | ValueError _ | Error _ _ => true
  | KeyboardInterrupt | SystemExit => false
  end.

(** ** Statements that read and write an object and may raise *)

Definition M (St A : Type) : Type := St -> (A + exn) * St.

Definition ret {St A} (a : A) : M St A := fun st => (inl a, st).
Definition raise {St A} (e : exn) : M St A := fun st => (inr e, st).
Definition bind {St A B} (m : M St A) (k : A -> M St B) : M St B :=
  fun st => match m st with
            | (inl a, st') => k a st'
            | (inr e, st') => (inr e, st')
            end.
Definition get {St} : M St St := fun st => (inl st, st).
Definition put {St} (st : St) : M St unit := fun _ => (inl tt, st).

(** [try: body  except Exception as e: handler e] *)
Definition try_except {St A} (body : M St A) (handler : exn -> M St A) : M St A :=
  fun st => match body st with
            | (inl a, st') => (inl a, st')
            | (inr e, st') => if is_Exception e then handler e st' else (inr e, st')
            end.

(** A call into a library that returns nothing: it returns or raises. *)
Definition outcome {St} (o : option exn) : M St unit :=
  match o with
  | None => ret tt
  | Some e => raise e
  end.

(** A call into a library that returns a value or raises. *)
Definition answer {St A} (r : A + exn) : M St A :=
  match r with
  | inl a => ret a
  | inr e => raise e
  end.

Declare Scope py_scope.
Delimit Scope py_scope with py.
Notation "x <- m ;; k" := (bind m (fun x => k))
  (at level 100, m at next level, right associativity) : py_scope.
Notation "m ;;; k" := (bind m (fun _ => k))
  (at level 100, right associativity) : py_scope.
Local Open Scope py_scope.

(** A dict literal with distinct keys, in source order. *)
Fixpoint dict_get {V} (d : list (str * V)) (k : str) : option V :=
  match d with
  | (k', v) :: d' => if decide (k' = k) then Some v else dict_get d' k
  | [] => None
  end.

(** [k in d] *)
Definition dict_in {V} (k : str) (d : list (str * V)) : bool :=
  match dict_get d k with Some _ => true | None => false end.

(** [d[k]] *)
Definition dict_getitem {St V} (d : list (str * V)) (k : str) : M St V :=
  match dict_get d k with
  | Some v => ret v
  | None => raise (Error (s "KeyError") k)
  end.

(** ** Vocabulary of the properties *)

(** A library call that failed: it raised an instance of [Exception]. *)
Definition failed (o : option exn) : Prop :=
  exists e, o = Some e /\ is_Exception e = true.

(** A library call that stays within [except Exception]: it returned, or
    what it raised is an instance of [Exception]. *)
Definition contained (o : option exn) : Prop :=
  forall e, o = Some e -> is_Exception e = true.

Definition caught {A} (r : A + exn) : Prop :=
  forall e, r = inr e -> is_Exception e = true.

(** A statement all of whose exceptions [except Exception] catches. *)
Definition catchable {St A} (m : M St A) : Prop :=
  forall st e st', m st = (inr e, st') -> is_Exception e = true.

(** ** translator.py *)

Module Translator.

(** [MBARTTranslator.LANG_CODE_MAP] *)
Definition LANG_CODE_MAP : list (str * str) :=
  [ (s "en", s "en_XX"); (s "hi", s "hi_IN"); (s "te", s "te_IN");
    (s "ta", s "ta_IN"); (s "kn", s "kn_IN") ].

(** One run of the translation engine, lines 84-102 of [translate]: the
    tokenizer set to the source locale, [model.generate] forced to start
    with the target locale, the first decoded sequence. *)
Record EngineCall : Type := mkCall {
  call_src_code : str;
  call_tgt_code : str;
  call_text : str
}.

(** The translator object: its [cache] dict and, as ghost state, the engine
    runs it has made so far (the call count of a stubbed engine). *)
Record MBARTTranslator : Type := mkTranslator {
  cache : gmap (str * str * str) str;
  engine_calls : list EngineCall
}.

Definition set_cache (c : gmap (str * str * str) str) (self : MBARTTranslator) :=
  mkTranslator c (engine_calls self).

(** The tuple [(src_lang, tgt_lang, text.strip())]. *)
Definition cache_key (text src_lang tgt_lang : str) : str * str * str :=
  (src_lang, tgt_lang, strip text).

Section Translate.

(** The engine is a collaborator: what a run returns, or raises, may depend
    on every run made before it. *)
Variable engine : list EngineCall -> EngineCall -> str + exn.

Definition generate (c : EngineCall) : M MBARTTranslator str :=
  self <- get ;;
  put (mkTranslator (cache self) (engine_calls self ++ [c])) ;;;
  answer (engine (engine_calls self) c).

(** [MBARTTranslator.translate] *)
Definition translate (text src_lang tgt_lang : str) : M MBARTTranslator str :=
  let cache_key := cache_key text src_lang tgt_lang in
  self <- get ;;
  match cache self !! cache_key with
  | Some hit => ret hit
  | None =>
      if negb (dict_in src_lang LANG_CODE_MAP)
      then raise (ValueError (s "Unsupported source language: " ++ src_lang))
      else if negb (dict_in tgt_lang LANG_CODE_MAP)
      then raise (ValueError (s "Unsupported target language: " ++ tgt_lang))
      else
        src_code <- dict_getitem LANG_CODE_MAP src_lang ;;
        tgt_code <- dict_getitem LANG_CODE_MAP tgt_lang ;;
        translation <- generate (mkCall src_code tgt_code text) ;;
        self' <- get ;;
        put (set_cache (<[cache_key := translation]> (cache self')) self') ;;;
        ret translation
  end.

(** [clear_cache] and [get_cache_size] *)
Definition clear_cache : M MBARTTranslator unit :=
  self <- get ;; put (set_cache ∅ self).

Definition get_cache_size : M MBARTTranslator nat :=
  self <- get ;; ret (size (cache self)).

End Translate.

(** [get_supported_languages] and [validate_language] *)
Definition get_supported_languages : list str := List.map fst LANG_CODE_MAP.

Definition validate_language (lang_code : str) : bool :=
  dict_in lang_code LANG_CODE_MAP.

End Translator.

(** ** langchain_llm.py *)

Module LLM.
Import Translator.

(** The list [supported] that [_call] checks the two codes against. *)
Definition supported : list str := [s "en"; s "hi"; s "te"; s "ta"; s "kn"].

(** [str(supported)], as the f-strings of the two messages render it. *)
Definition supported_repr : str := s "['en', 'hi', 'te', 'ta', 'kn']".

(** [x in l] for a list of strs. *)
Definition list_in (x : str) (l : list str) : bool := bool_decide (x ∈ l).

Section Call.

Variable engine : list EngineCall -> EngineCall -> str + exn.

(** [re.match(r"TRANSLATE from (\w+) to (\w+):\s*(.+)", p, re.IGNORECASE |
    re.DOTALL)]: the three groups of the match, or [None]. *)
Variable re_match : str -> option (str * str * str).

(** [str.lower], the case mapping of the interpreter. *)
Variable lower : str -> str.

(** [TranslatorLLM._call]; the object's state is its [translator]. *)
Definition _call (prompt : str) : M MBARTTranslator str :=
  match re_match (strip prompt) with
  | None =>
      raise (ValueError
        (s "Invalid prompt format. Expected: 'TRANSLATE from <src> to <tgt>: <text>'"
           ++ [10] ++ s "Got: " ++ prompt))
  | Some (g1, g2, g3) =>
      let src_lang := lower g1 in
      let tgt_lang := lower g2 in
      let text := strip g3 in
      if negb (list_in src_lang supported)
      then raise (ValueError (s "Unsupported source language: " ++ src_lang
                                ++ s ". Supported: " ++ supported_repr))
      else if negb (list_in tgt_lang supported)
      then raise (ValueError (s "Unsupported target language: " ++ tgt_lang
                                ++ s ". Supported: " ++ supported_repr))
      else
        translation <- translate engine text src_lang tgt_lang ;;
        ret translation
  end.

(** [LLM.invoke] of langchain_core, for a plain string prompt with no
    callbacks and no LLM cache configured: it hands the prompt to [_call]
    and returns its text, or lets its exception through. *)
Definition invoke (prompt : str) : M MBARTTranslator str := _call prompt.

End Call.

End LLM.
(** ** The pattern of [TranslatorLLM._call]

    [re.match] on the pattern of [_call] is a backtracking search: each
    repetition first takes as many characters as it can and gives them
    back one by one while the rest of the pattern fails.  The pattern
    only repeats single characters of a class, so the search is written
    over the lengths of the runs. *)

Module Regex.

(** [\w], [\s] and, under DOTALL, [.] *)
Inductive cls : Type := Word | Space | Any.

(** A literal text, or [min] or more characters of a class (greedy),
    captured as a group or not. *)
Inductive item : Type :=
| Lit (l : str)
| Rep (min : nat) (k : cls) (grouped : bool).

(** [r"TRANSLATE from (\w+) to (\w+):\s*(.+)"] *)
Definition pattern : list item :=
  [ Lit (s "TRANSLATE from "); Rep 1 Word true; Lit (s " to "); Rep 1 Word true;
    Lit (s ":"); Rep 0 Space false; Rep 1 Any true ].

Section Match.

(** [\w] on a code point: alphanumeric or underscore. *)
Variable is_word : N -> bool.

(** Whether a character of the pattern matches a character of the text
    under IGNORECASE. *)
Variable ieq : N -> N -> bool.

Definition in_cls (k : cls) (c : N) : bool :=
  match k with
  | Word => is_word c
  | Space => isspace c
  | Any => true
  end.

(** The rest of [t] after the literal [l], if [t] starts with it. *)
Fixpoint lit_match (l t : str) : option str :=
  match l, t with
  | [], _ => Some t
  | a :: l', b :: t' => if ieq a b then lit_match l' t' else None
  | _ :: _, [] => None
  end.

(** How many characters of class [k] stand at the front of [t]. *)
Fixpoint run (k : cls) (t : str) : nat :=
  match t with
  | c :: t' => if in_cls k c then S (run k t') else O
  | [] => O
  end.

(** Try the lengths [n], [n - 1], ... down to [min]; the first that lets
    the rest of the pattern match wins. *)
Fixpoint descend {A} (try : nat -> option A) (min n : nat) : option A :=
  if (n <? min)%nat then None
  else match try n with
       | Some r => Some r
       | None => match n with
                 | O => None
                 | S n' => descend try min n'
                 end
       end.

(** The groups of the first match of the items at the front of [t]. *)
Fixpoint match_items (p : list item) (t : str) : option (list str) :=
  match p with
  | [] => Some []
  | Lit l :: p' =>
      match lit_match l t with
      | Some t' => match_items p' t'
      | None => None
      end
  | Rep min k grouped :: p' =>
      descend
        (fun n => match match_items p' (drop n t) with
                  | Some groups => Some (if grouped then take n t :: groups else groups)
                  | None => None
                  end)
        min (run k t)
  end.

(** [re.match(pattern, t, re.IGNORECASE | re.DOTALL)] and its three
    groups. *)
Definition prompt_match (t : str) : option (str * str * str) :=
  match match_items pattern t with
  | Some [g1; g2; g3] => Some (g1, g2, g3)
  | _ => None
  end.

End Match.

End Regex.


(** ** stt.py *)

Module STT.

(** The dict [transcribe] returns, keys ["text"] and ["language"]. *)
Record Transcript : Type := mkTranscript {
  tr_text : str;
  tr_language : str
}.

(** The dict [model.transcribe] returns: its ["text"], and its
    ["language"] when that key is there. *)
Record WhisperResult : Type := mkWhisperResult {
  r_text : str;
  r_language : option str
}.

Section Transcribe.

(** numpy's floating-point numbers. *)
Variable float : Type.

Record WhisperCall : Type := mkWhisperCall {
  w_audio : list float;
  w_language : option str;
  w_sample_rate : N
}.

(** The transcriber object; ghost state: the calls it has served. *)
Record WhisperSTT : Type := mkSTT {
  whisper_calls : list WhisperCall
}.

(** Lines 60-84 of [transcribe] as one collaborator: conversion to float32,
    peak normalisation, resampling to 16 kHz and [self.model.transcribe]. *)
Variable whisper : list WhisperCall -> WhisperCall -> WhisperResult + exn.

(** [WhisperSTT.transcribe] *)
Definition transcribe (audio : list float) (language : option str) (sample_rate : N)
  : M WhisperSTT Transcript :=
  self <- get ;;
  let c := mkWhisperCall audio language sample_rate in
  put (mkSTT (whisper_calls self ++ [c])) ;;;
  result <- answer (whisper (whisper_calls self) c) ;;
  let text := strip (r_text result) in
  let detected_lang :=
    match r_language result with
    | Some l => l
    | None => match language with
              | Some l => if truthy l then l else s "unknown"
              | None => s "unknown"
              end
    end in
  ret (mkTranscript text detected_lang).

End Transcribe.

Arguments mkWhisperCall {float}.
Arguments w_audio {float}.
Arguments w_language {float}.
Arguments w_sample_rate {float}.
Arguments mkSTT {float}.
Arguments whisper_calls {float}.
Arguments transcribe {float}.

End STT.

(** ** tts.py *)

Module TTS.

(** [TextToSpeech.GTTS_LANG_MAP] *)
Definition GTTS_LANG_MAP : list (str * str) :=
  [ (s "en", s "en"); (s "hi", s "hi"); (s "te", s "te");
    (s "ta", s "ta"); (s "kn", s "kn") ].

(** What [_speak_pyttsx3] asks of the offline engine: [save_to_file] or
    [say], each followed by [runAndWait]. *)
Inductive Pyttsx3Call : Type :=
| SaveToFile (text path : str)
| Say (text : str).

(** What [_speak_gtts] asks of gTTS: the text in language [g_lang] saved
    to the given path, or to a fresh temporary file when [g_path] is
    [None]. *)
Record GttsCall : Type := mkGttsCall {
  g_text : str;
  g_lang : str;
  g_path : option str
}.

(** The synthesizer object.  [pyttsx3_engine] is [true] when [__init__] got
    an engine and [false] when the attribute is [None].  Ghost state: the
    calls made to the two engines, the files handed to the player ([None]
    for the temporary file), how many temporary files were removed, and
    what the calls of [print] that returned wrote to the console. *)
Record TextToSpeech : Type := mkTTS {
  use_gtts_fallback : bool;
  pyttsx3_engine : bool;
  pyttsx3_calls : list Pyttsx3Call;
  gtts_calls : list GttsCall;
  played : list (option str);
  removed : nat;
  stdout : str
}.

Definition set_pyttsx3_calls (l : list Pyttsx3Call) (self : TextToSpeech) :=
  mkTTS (use_gtts_fallback self) (pyttsx3_engine self) l (gtts_calls self)
        (played self) (removed self) (stdout self).

Definition set_gtts_calls (l : list GttsCall) (self : TextToSpeech) :=
  mkTTS (use_gtts_fallback self) (pyttsx3_engine self) (pyttsx3_calls self) l
        (played self) (removed self) (stdout self).

Definition set_played (l : list (option str)) (self : TextToSpeech) :=
  mkTTS (use_gtts_fallback self) (pyttsx3_engine self) (pyttsx3_calls self)
        (gtts_calls self) l (removed self) (stdout self).

Definition set_removed (n : nat) (self : TextToSpeech) :=
  mkTTS (use_gtts_fallback self) (pyttsx3_engine self) (pyttsx3_calls self)
        (gtts_calls self) (played self) n (stdout self).

Definition set_stdout (out : str) (self : TextToSpeech) :=
  mkTTS (use_gtts_fallback self) (pyttsx3_engine self) (pyttsx3_calls self)
        (gtts_calls self) (played self) (removed self) out.

Section Speak.

(** The libraries behind the synthesizer: the pyttsx3 engine; gTTS (the
    constructor, the temporary file and [tts.save]); the player of the
    platform that [_play_audio] starts; [os.remove]. *)
Variable pyttsx3_run : list Pyttsx3Call -> Pyttsx3Call -> option exn.
Variable gtts_save : list GttsCall -> GttsCall -> option exn.
Variable player : list (option str) -> option str -> option exn.
Variable os_remove : nat -> option exn.

(** The console behind [print]: whether writing the line raises (a text
    that stdout cannot encode, a closed pipe), given what was printed so
    far. *)
Variable console : str -> str -> option exn.

(** [str.upper] *)
Variable upper : str -> str.

(** [TextToSpeech.__init__], given how [pyttsx3.init()] went: without an
    offline engine the object is built only if gTTS may stand in. *)
Definition __init__ (use_gtts_fallback : bool) (pyttsx3_init : option exn)
  : TextToSpeech + exn :=
  match pyttsx3_init with
  | None => inl (mkTTS use_gtts_fallback true [] [] [] 0 [])
  | Some e =>
      if is_Exception e
      then if negb use_gtts_fallback then inr e
           else inl (mkTTS use_gtts_fallback false [] [] [] 0 [])
      else inr e
  end.

(** What [_speak_pyttsx3] asks of its engine: [if save_path:] chooses
    between [save_to_file] and [say]. *)
Definition pyttsx3_request (text : str) (save_path : option str) : Pyttsx3Call :=
  match save_path with
  | Some path => if truthy path then SaveToFile text path else Say text
  | None => Say text
  end.

(** What [_speak_gtts] asks of gTTS: the language is
    [GTTS_LANG_MAP.get(language, "en")]. *)
Definition gtts_request (text language : str) (save_path : option str) : GttsCall :=
  mkGttsCall text (default (s "en") (dict_get GTTS_LANG_MAP language))
             (if given save_path then save_path else None).

(** [TextToSpeech._speak_pyttsx3] *)
Definition _speak_pyttsx3 (text : str) (save_path : option str) : M TextToSpeech unit :=
  self <- get ;;
  let c := pyttsx3_request text save_path in
  put (set_pyttsx3_calls (pyttsx3_calls self ++ [c]) self) ;;;
  outcome (pyttsx3_run (pyttsx3_calls self) c).

(** [TextToSpeech._play_audio]: whatever the player raises is logged and
    dropped by the [except Exception] clause. *)
Definition _play_audio (audio_path : option str) : M TextToSpeech unit :=
  try_except
    (self <- get ;;
     put (set_played (played self ++ [audio_path]) self) ;;;
     outcome (player (played self) audio_path))
    (fun _ => ret tt).

(** [TextToSpeech._speak_gtts] *)
Definition _speak_gtts (text language : str) (save_path : option str) : M TextToSpeech unit :=
  self <- get ;;
  let c := gtts_request text language save_path in
  put (set_gtts_calls (gtts_calls self ++ [c]) self) ;;;
  outcome (gtts_save (gtts_calls self) c) ;;;
  if given save_path
  then _play_audio save_path
  else
    _play_audio None ;;;
    try_except
      (self' <- get ;;
       put (set_removed (S (removed self')) self') ;;;
       outcome (os_remove (removed self')))
      (fun _ => ret tt).

(** [print(x)]: [x] and a newline go to the console, or the write
    raises. *)
Definition print (x : str) : M TextToSpeech unit :=
  self <- get ;;
  outcome (console (stdout self) x) ;;;
  put (set_stdout (stdout self ++ x ++ [10]) self).

(** The f-string of the console fallback, [f"\n[{language.upper()}] {text}\n"]. *)
Definition announcement (text language : str) : str :=
  [10] ++ s "[" ++ upper language ++ s "] " ++ text ++ [10].

(** [TextToSpeech.speak].  A [return] inside a [try] leaves the method; the
    flag [spoken] carries that out of the [try]. *)
Definition speak (text language : str) (save_path : option str) : M TextToSpeech unit :=
  if negb (truthy (strip text)) then ret tt
  else
    self <- get ;;
    spoken <- (if pyttsx3_engine self && bool_decide (language = s "en")
               then try_except (_speak_pyttsx3 text save_path ;;; ret true)
                               (fun _ => ret false)
               else ret false) ;;
    if spoken : bool then ret tt
    else
      spoken <- (if use_gtts_fallback self && dict_in language GTTS_LANG_MAP
                 then try_except (_speak_gtts text language save_path ;;; ret true)
                                 (fun _ => ret false)
                 else ret false) ;;
      if spoken : bool then ret tt
      else print (announcement text language).

(** No library behind the synthesizer raises anything outside the class
    Exception. *)
Definition synthesis_contained : Prop :=
  (forall calls c, contained (pyttsx3_run calls c)) /\
  (forall calls c, contained (gtts_save calls c)) /\
  (forall files f, contained (player files f)) /\
  (forall k, contained (os_remove k)).

End Speak.

End TTS.

(** ** realtime.py *)

Module Realtime.
Import Translator LLM STT TTS.

(** Result of comparing two floating-point numbers. *)
Inductive float_cmp : Type := FLess | FEqual | FGreater | FUnordered.

(** How one pass of the loop body ended: the three [continue] statements,
    the end of the [try] block, or the [except] clause. *)
Inductive CycleEnd : Type :=
| NoSpeech
| EmptyTranscription
| SameLanguage
| Spoke
| Recovered (e : exn).

(** How far [_run_loop] got: it returned, an exception left it, or it is
    still running after the passes that were observed. *)
Inductive LoopResult : Type :=
| Returned
| Raised (e : exn)
| StillRunning.

Section Loop.

(** numpy's floating-point numbers and the four operations [_has_speech]
    uses; their arithmetic is the library's. *)
Variable float : Type.
Variable np_square : list float -> list float.      (* audio ** 2 *)
Variable np_mean : list float -> float.             (* np.mean *)
Variable np_sqrt : float -> float.                  (* np.sqrt *)
Variable np_compare : float -> float -> float_cmp.
Variable float_0_01 : float.                        (* the literal 0.01 *)

(** [int(self.sample_rate * self.chunk_seconds)]; [int] raises ValueError
    on a product that is not a number and OverflowError on an infinite
    one. *)
Variable int_of_product : N -> float -> N + exn.

(** The orchestrator object.  Ghost state: how many chunks were recorded,
    how many times [time.sleep(0.5)] ran, and how many passes of the loop
    body have ended. *)
Record RealtimeTranslator : Type := mkRT {
  src_lang : str;
  tgt_lang : str;
  chunk_seconds : float;
  sample_rate : N;
  running : bool;
  stt : WhisperSTT float;
  translator_llm : MBARTTranslator;
  tts : TextToSpeech;
  recordings : nat;
  sleeps : nat;
  cycles : nat
}.

Definition set_running (b : bool) (self : RealtimeTranslator) : RealtimeTranslator :=
  mkRT (src_lang self) (tgt_lang self) (chunk_seconds self) (sample_rate self)
       b (stt self) (translator_llm self) (tts self)
       (recordings self) (sleeps self) (cycles self).

Definition set_stt (t : WhisperSTT float) (self : RealtimeTranslator) :=
  mkRT (src_lang self) (tgt_lang self) (chunk_seconds self) (sample_rate self)
       (running self) t (translator_llm self) (tts self)
       (recordings self) (sleeps self) (cycles self).

Definition set_translator_llm (t : MBARTTranslator) (self : RealtimeTranslator) :=
  mkRT (src_lang self) (tgt_lang self) (chunk_seconds self) (sample_rate self)
       (running self) (stt self) t (tts self)
       (recordings self) (sleeps self) (cycles self).

Definition set_tts (t : TextToSpeech) (self : RealtimeTranslator) :=
  mkRT (src_lang self) (tgt_lang self) (chunk_seconds self) (sample_rate self)
       (running self) (stt self) (translator_llm self) t
       (recordings self) (sleeps self) (cycles self).

Definition set_ghost (r z k : nat) (self : RealtimeTranslator) :=
  mkRT (src_lang self) (tgt_lang self) (chunk_seconds self) (sample_rate self)
       (running self) (stt self) (translator_llm self) (tts self) r z k.

(** A method call on [self.stt], [self.translator_llm] and [self.tts]. *)
Definition on_stt {A} (m : M (WhisperSTT float) A) : M RealtimeTranslator A :=
  fun self => let '(r, t) := m (stt self) in (r, set_stt t self).

Definition on_llm {A} (m : M MBARTTranslator A) : M RealtimeTranslator A :=
  fun self => let '(r, t) := m (translator_llm self) in (r, set_translator_llm t self).

Definition on_tts {A} (m : M TextToSpeech A) : M RealtimeTranslator A :=
  fun self => let '(r, t) := m (tts self) in (r, set_tts t self).

(** The collaborators of the loop. *)
Variable whisper : list (WhisperCall float) -> WhisperCall float -> WhisperResult + exn.
Variable engine : list EngineCall -> EngineCall -> str + exn.
Variable re_match : str -> option (str * str * str).
Variable lower upper : str -> str.
Variable pyttsx3_run : list Pyttsx3Call -> Pyttsx3Call -> option exn.
Variable gtts_save : list GttsCall -> GttsCall -> option exn.
Variable player : list (option str) -> option str -> option exn.
Variable os_remove : nat -> option exn.
Variable console : str -> str -> option exn.

(** [sd.rec(num_samples, ...)] followed by [flatten()]: the chunk number
    [k] of the session, or the exception the device raises. *)
Variable sd_rec : nat -> N -> list float + exn.

(** Whether SIGINT arrives while pass number [k] of the loop body runs;
    [_signal_handler] then clears [running]. *)
Variable sigint_during : nat -> bool.

(** [signal.signal(signal.SIGINT, self._signal_handler)] in [start]: it
    raises ValueError when [start] is not called on the main thread. *)
Variable signal_signal : option exn.

(** [RealtimeTranslator.__init__], with the three components as the
    constructors of their classes made them. *)
Definition __init__ (src_lang tgt_lang : str) (chunk_seconds : float) (sample_rate : N)
    (stt : WhisperSTT float) (translator_llm : MBARTTranslator) (tts : TextToSpeech)
  : RealtimeTranslator + exn :=
  let supported := [s "en"; s "hi"; s "te"; s "ta"; s "kn"] in
  if negb (bool_decide (src_lang = s "auto")) && negb (list_in src_lang supported)
  then inr (ValueError (s "Unsupported source language: " ++ src_lang))
  else if negb (list_in tgt_lang supported)
  then inr (ValueError (s "Unsupported target language: " ++ tgt_lang))
  else inl (mkRT src_lang tgt_lang chunk_seconds sample_rate false
                 stt translator_llm tts 0 0 0).

(** [RealtimeTranslator._has_speech] *)
Definition _has_speech (audio : list float) (threshold : float) : bool :=
  let energy := np_sqrt (np_mean (np_square audio)) in
  match np_compare energy threshold with
  | FGreater => true
  | _ => false
  end.

(** [RealtimeTranslator._record_audio]: the [except] clause logs and
    raises the same exception again. *)
Definition _record_audio (num_samples : N) : M RealtimeTranslator (list float) :=
  try_except
    (self <- get ;;
     put (set_ghost (S (recordings self)) (sleeps self) (cycles self) self) ;;;
     answer (sd_rec (recordings self) num_samples))
    (fun e => raise e).

(** [time.sleep(0.5)] *)
Definition sleep_half_second : M RealtimeTranslator unit :=
  self <- get ;;
  put (set_ghost (recordings self) (S (sleeps self)) (cycles self) self).

(** The [try] block of the loop body; the value says where it ended. *)
Definition cycle_body (chunk_samples : N) : M RealtimeTranslator CycleEnd :=
  audio <- _record_audio chunk_samples ;;
  if negb (_has_speech audio float_0_01) then ret NoSpeech
  else
    self <- get ;;
    transcription <-
      on_stt (transcribe whisper audio
                (if bool_decide (src_lang self = s "auto") then None
                 else Some (src_lang self))
                (sample_rate self)) ;;
    let text := tr_text transcription in
    let detected_lang := tr_language transcription in
    if negb (truthy (strip text)) then ret EmptyTranscription
    else
      let actual_src :=
        if bool_decide (src_lang self = s "auto") then detected_lang else src_lang self in
      let actual_src := lower (take 2 actual_src) in
      if bool_decide (actual_src = tgt_lang self) then ret SameLanguage
      else
        let prompt :=
          s "TRANSLATE from " ++ actual_src ++ s " to " ++ tgt_lang self ++ s ": " ++ text in
        translation <- on_llm (invoke engine re_match lower prompt) ;;
        on_tts (speak pyttsx3_run gtts_save player os_remove console upper
                      translation (tgt_lang self) None) ;;;
        cache_size <- on_llm get_cache_size ;;
        ret Spoke
  .

(** One pass of the loop body: the [try] block and its [except Exception]
    clause, which logs the error and sleeps half a second. *)
Definition cycle (chunk_samples : N) : M RealtimeTranslator CycleEnd :=
  try_except (cycle_body chunk_samples)
             (fun e => sleep_half_second ;;; ret (Recovered e)).

(** The pass is over; a SIGINT that arrived during it has cleared
    [running] by now. *)
Definition end_of_cycle (self : RealtimeTranslator) : RealtimeTranslator :=
  let k := cycles self in
  set_ghost (recordings self) (sleeps self) (S k)
            (if sigint_during k then set_running false self else self).

(** [while self.running: ...], for at most [fuel] passes. *)
Fixpoint while_running (chunk_samples : N) (fuel : nat) (self : RealtimeTranslator)
  : LoopResult * RealtimeTranslator :=
  if running self then
    match fuel with
    | O => (StillRunning, self)
    | S fuel' =>
        match cycle chunk_samples self with
        | (inl _, self') => while_running chunk_samples fuel' (end_of_cycle self')
        | (inr e, self') => (Raised e, self')
        end
    end
  else (Returned, self).

(** [RealtimeTranslator._run_loop]: the chunk length is computed before
    the loop, outside its [try]. *)
Definition _run_loop (fuel : nat) (self : RealtimeTranslator)
  : LoopResult * RealtimeTranslator :=
  match int_of_product (sample_rate self) (chunk_seconds self) with
  | inl chunk_samples => while_running chunk_samples fuel self
  | inr e => (Raised e, self)
  end.

(** [RealtimeTranslator.stop] *)
Definition stop (self : RealtimeTranslator) : RealtimeTranslator :=
  set_running false self.

(** [RealtimeTranslator.start].  The flag is set and the handler installed
    before the [try]: what [signal.signal] raises leaves [start] at once.
    [KeyboardInterrupt] and every [Exception] that leaves [_run_loop] end
    in the two [except] clauses; [stop] runs in the [finally]. *)
Definition start (fuel : nat) (self : RealtimeTranslator)
  : LoopResult * RealtimeTranslator :=
  let self := set_running true self in
  match signal_signal with
  | Some e => (Raised e, self)
  | None =>
      match _run_loop fuel self with
      | (Returned, self') => (Returned, stop self')
      | (StillRunning, self') => (StillRunning, self')
      | (Raised KeyboardInterrupt, self') => (Returned, stop self')
      | (Raised e, self') =>
          if is_Exception e then (Returned, stop self') else (Raised e, stop self')
      end
  end.

(** *** Vocabulary for the properties of the loop *)

(** The session once the chunk of a pass is recorded, once the chunk is
    also handed to the transcriber, and once the [except] clause has slept. *)
Definition recorded (self : RealtimeTranslator) : RealtimeTranslator :=
  set_ghost (S (recordings self)) (sleeps self) (cycles self) self.

Definition transcribed (c : WhisperCall float) (self : RealtimeTranslator)
  : RealtimeTranslator :=
  set_stt (mkSTT (whisper_calls (stt self) ++ [c])) (recorded self).

Definition slept (self : RealtimeTranslator) : RealtimeTranslator :=
  set_ghost (recordings self) (S (sleeps self)) (cycles self) self.

(** The language hint of the session and the transcriber call it makes
    on [audio]. *)
Definition hint (self : RealtimeTranslator) : option str :=
  if bool_decide (src_lang self = s "auto") then None else Some (src_lang self).

Definition stt_call (audio : list float) (self : RealtimeTranslator) : WhisperCall float :=
  mkWhisperCall audio (hint self) (sample_rate self).

(** What [self.stt.transcribe] answers for [audio] in this session. *)
Definition heard (audio : list float) (self : RealtimeTranslator) : Transcript + exn :=
  fst (transcribe whisper audio (hint self) (sample_rate self) (stt self)).

(** The effective source language of a pass, from what was detected. *)
Definition resolved (detected : str) (self : RealtimeTranslator) : str :=
  lower (take 2 (if bool_decide (src_lang self = s "auto") then detected
                 else src_lang self)).

(** The prompt a pass sends to the translator wrapper. *)
Definition prompt_of (actual_src text : str) (self : RealtimeTranslator) : str :=
  s "TRANSLATE from " ++ actual_src ++ s " to " ++ tgt_lang self ++ s ": " ++ text.

(** No collaborator of the loop raises anything outside the class
    Exception. *)
Definition collaborators_contained : Prop :=
  (forall k m, caught (sd_rec k m)) /\
  (forall calls c, caught (whisper calls c)) /\
  (forall calls c, caught (engine calls c)) /\
  synthesis_contained pyttsx3_run gtts_save player os_remove /\
  (forall out x, contained (console out x)).

(** Healthy collaborators for the pass that starts in [self]: the device
    delivers a chunk that passes the gate, the transcriber returns a text
    that is not blank in a language other than the target, the prompt
    matches the pattern with two supported codes, the translator returns
    [translation], the synthesis libraries raise nothing outside the
    class Exception, and the console takes every line. *)
Definition healthy (chunk_samples : N) (self : RealtimeTranslator) (translation : str)
  : Prop :=
  exists audio tr g1 g2 g3,
    sd_rec (recordings self) chunk_samples = inl audio /\
    _has_speech audio float_0_01 = true /\
    heard audio self = inl tr /\
    truthy (strip (tr_text tr)) = true /\
    resolved (tr_language tr) self <> tgt_lang self /\
    re_match (strip (prompt_of (resolved (tr_language tr) self) (tr_text tr) self))
      = Some (g1, g2, g3) /\
    list_in (lower g1) supported = true /\
    list_in (lower g2) supported = true /\
    fst (translate engine (strip g3) (lower g1) (lower g2) (translator_llm self))
      = inl translation /\
    synthesis_contained pyttsx3_run gtts_save player os_remove /\
    (forall out x, console out x = None).

End Loop.

Arguments mkRT {float}.
Arguments src_lang {float}.
Arguments tgt_lang {float}.
Arguments chunk_seconds {float}.
Arguments sample_rate {float}.
Arguments running {float}.
Arguments stt {float}.
Arguments translator_llm {float}.
Arguments tts {float}.
Arguments recordings {float}.
Arguments sleeps {float}.
Arguments cycles {float}.
Arguments set_running {float}.
Arguments set_stt {float}.
Arguments set_translator_llm {float}.
Arguments set_tts {float}.
Arguments set_ghost {float}.
Arguments on_stt {float A}.
Arguments on_llm {float A}.
Arguments on_tts {float A}.
Arguments __init__ {float}.
Arguments _has_speech {float}.
Arguments _record_audio {float}.
Arguments sleep_half_second {float}.
Arguments cycle_body {float}.
Arguments cycle {float}.
Arguments end_of_cycle {float}.
Arguments while_running {float}.
Arguments _run_loop {float}.
Arguments stop {float}.
Arguments start {float}.
Arguments recorded {float}.
Arguments transcribed {float}.
Arguments slept {float}.
Arguments hint {float}.
Arguments stt_call {float}.
Arguments heard {float}.
Arguments resolved {float}.
Arguments prompt_of {float}.
Arguments collaborators_contained {float}.
Arguments healthy {float}.

End Realtime.

(** ** Closed stand-ins for the collaborators

    Used where a property is run on concrete inputs: an ASCII case
    mapping, a matcher for the prompt pattern on ASCII prompts, an engine
    that answers from a table, scripted devices, and fixed-point numbers
    for the energy check. *)

Module Stub.
Import Translator LLM STT TTS Realtime.

Definition lower_char (c : N) : N :=
  if (65 <=? c) && (c <=? 90) then c + 32 else c.
Definition upper_char (c : N) : N :=
  if (97 <=? c) && (c <=? 122) then c - 32 else c.

(** [str.lower] and [str.upper] on ASCII text. *)
Definition lower (t : str) : str := List.map lower_char t.
Definition upper (t : str) : str := List.map upper_char t.

(** [\w] on ASCII. *)
Definition is_word (c : N) : bool :=
  ((48 <=? c) && (c <=? 57)) || ((65 <=? c) && (c <=? 90))
  || ((97 <=? c) && (c <=? 122)) || (c =? 95).

(** Read the literal [lit] off the front of [t], letters in either case. *)
Fixpoint expect (lit t : str) : option str :=
  match lit, t with
  | [], _ => Some t
  | a :: lit', b :: t' =>
      if lower_char a =? lower_char b then expect lit' t' else None
  | _ :: _, [] => None
  end.

(** The longest run of word characters at the front of [t], and the rest. *)
Fixpoint word_run (t : str) : str * str :=
  match t with
  | c :: t' => if is_word c then let '(w, r) := word_run t' in (c :: w, r)
               else ([], t)
  | [] => ([], [])
  end.

(** The pattern of [_call] with IGNORECASE and DOTALL, on ASCII input.  The
    greedy [\s*] gives one character back when only whitespace follows
    the colon, since [(.+)] needs one. *)
Definition re_match (p : str) : option (str * str * str) :=
  match expect (s "TRANSLATE from ") p with
  | None => None
  | Some r1 =>
      let '(g1, r2) := word_run r1 in
      match g1, expect (s " to ") r2 with
      | _ :: _, Some r3 =>
          let '(g2, r4) := word_run r3 in
          match g2, expect (s ":") r4 with
          | _ :: _, Some r5 =>
              match lstrip r5, rev r5 with
              | (_ :: _) as g3, _ => Some (g1, g2, g3)
              | [], c :: _ => Some (g1, g2, [c])
              | [], [] => None
              end
          | _, _ => None
          end
      | _, _ => None
      end
  end.

(** An engine that knows two sentences and fails on anything else. *)
Definition engine (_ : list EngineCall) (c : EngineCall) : str + exn :=
  if bool_decide (strip (call_text c) = s "Hello") then inl (s "namaste")
  else if bool_decide (strip (call_text c) = s "hello") then inl (s "namaskar")
  else inr (Error (s "RuntimeError") (s "out of memory")).

(** A fresh translator: empty cache, no engine run yet. *)
Definition fresh : MBARTTranslator := mkTranslator ∅ [].

(** A translator whose cache was filled by hand with a German entry. *)
Definition prefilled : MBARTTranslator :=
  mkTranslator {[ (s "xx", s "de", s "Hallo") := s "hello" ]} [].

(** Engines that always fail, as when neither audio device nor network
    is there; a gTTS that works; a gTTS interrupted from the keyboard. *)
Definition pyttsx3_down (_ : list Pyttsx3Call) (_ : Pyttsx3Call) : option exn :=
  Some (Error (s "RuntimeError") (s "run loop already started")).
Definition gtts_down (_ : list GttsCall) (_ : GttsCall) : option exn :=
  Some (Error (s "gTTSError") (s "Connection error")).
Definition gtts_up (_ : list GttsCall) (_ : GttsCall) : option exn := None.
Definition gtts_interrupted (_ : list GttsCall) (_ : GttsCall) : option exn :=
  Some KeyboardInterrupt.

(** A player that works, a player that is not installed, and an
    [os.remove] that works. *)
Definition player_up (_ : list (option str)) (_ : option str) : option exn := None.
Definition player_down (_ : list (option str)) (_ : option str) : option exn :=
  Some (Error (s "OSError") (s "no audio device")).
Definition remove_up (_ : nat) : option exn := None.

(** A console that takes every line, and one with an ASCII encoding,
    which raises on any other character. *)
Definition console_up (_ : str) (_ : str) : option exn := None.
Definition console_ascii (_ : str) (x : str) : option exn :=
  if forallb (fun c => c <? 128) x then None
  else Some (Error (s "UnicodeEncodeError") (s "'ascii' codec can't encode characters")).

(** "namaste" in Devanagari. *)
Definition devanagari : str := [2344; 2350; 2360; 2381; 2340; 2375].

(** [signal.signal] on the main thread, and off it. *)
Definition signal_up : option exn := None.
Definition signal_off_main_thread : option exn :=
  Some (ValueError (s "signal only works in main thread of the main interpreter")).

(** A synthesizer as [TextToSpeech(use_gtts_fallback=True)] builds it, with
    the offline engine present. *)
Definition synthesizer : TextToSpeech := mkTTS true true [] [] [] 0 [].

(** The same without the offline engine. *)
Definition synthesizer_without_engine : TextToSpeech := mkTTS true false [] [] [] 0 [].

(** [speak] over these stand-ins, for a given gTTS and player. *)
Definition speak gtts player : str -> str -> option str -> M TextToSpeech unit :=
  TTS.speak pyttsx3_down gtts player remove_up console_up upper.

(** Fixed-point numbers with four decimal places stand in for numpy's
    floating-point numbers when the loop is run on concrete chunks. *)
Definition np_square (a : list Z) : list Z := List.map (fun x => x * x / 10000)%Z a.
Definition np_mean (a : list Z) : Z := (fold_right Z.add 0 a / Z.of_nat (length a))%Z.
Definition np_sqrt (x : Z) : Z := Z.sqrt (x * 10000).
Definition np_compare (a b : Z) : float_cmp :=
  match (a ?= b)%Z with
  | Lt => FLess
  | Eq => FEqual
  | Gt => FGreater
  end.
Definition float_0_01 : Z := 100%Z.
Definition int_of_product (rate : N) (seconds : Z) : N + exn :=
  inl (Z.to_N (Z.of_N rate * seconds / 10000)).

(** A chunk of silence and a chunk loud enough to pass the gate. *)
Definition silence : list Z := [0; 0; 0; 0]%Z.
Definition speech : list Z := [5000; -5000; 5000; -5000]%Z.

(** A device that delivers the k-th chunk of a script, and silence once
    the script is used up. *)
Definition microphone (script : list (list Z + exn)) (k : nat) (_ : N) : list Z + exn :=
  nth k script (inl silence).

(** A whisper model that answers its k-th call with the k-th entry of a
    script, and with an empty text once the script is used up. *)
Definition transcriber (script : list (WhisperResult + exn))
    (calls : list (WhisperCall Z)) (_ : WhisperCall Z) : WhisperResult + exn :=
  nth (length calls) script (inl (mkWhisperResult [] None)).

(** No SIGINT, and a SIGINT during pass number [k]. *)
Definition no_sigint (_ : nat) : bool := false.
Definition sigint_in (k : nat) (j : nat) : bool := Nat.eqb k j.

(** A session as [__init__] and [start] leave it: three-second chunks at
    16 kHz, the running flag set, nothing recorded yet. *)
Definition session (src tgt : str) : RealtimeTranslator Z :=
  mkRT src tgt 30000%Z 16000 true (mkSTT []) fresh synthesizer 0 0 0.

(** The loop body, one pass and the loop over these stand-ins, for a given
    device, whisper model and signal. *)
Definition body mic whisper : N -> M (RealtimeTranslator Z) CycleEnd :=
  cycle_body np_square np_mean np_sqrt np_compare float_0_01 whisper engine re_match
             lower upper pyttsx3_down gtts_up player_up remove_up console_up mic.

Definition pass mic whisper : N -> M (RealtimeTranslator Z) CycleEnd :=
  cycle np_square np_mean np_sqrt np_compare float_0_01 whisper engine re_match
        lower upper pyttsx3_down gtts_up player_up remove_up console_up mic.

Definition loop mic whisper sigint
  : N -> nat -> RealtimeTranslator Z -> LoopResult * RealtimeTranslator Z :=
  while_running np_square np_mean np_sqrt np_compare float_0_01 whisper engine re_match
                lower upper pyttsx3_down gtts_up player_up remove_up console_up mic sigint.

(** Scripts: a model that fails on the first chunk and hears "Hello" in
    English on the second; one that hears English tagged "EN"; one that
    is interrupted from the keyboard. *)
Definition fails_once : list (WhisperResult + exn) :=
  [ inr (Error (s "RuntimeError") (s "transcription failed"));
    inl (mkWhisperResult (s " Hello") (Some (s "en"))) ].

Definition hears_english : list (WhisperResult + exn) :=
  [ inl (mkWhisperResult (s " Hello") (Some (s "EN"))) ].

Definition interrupted : list (WhisperResult + exn) :=
  [ inr KeyboardInterrupt; inl (mkWhisperResult (s " Hello") (Some (s "en"))) ].

(** IGNORECASE on ASCII: two characters match when they differ by case
    only. *)
Definition ieq (a b : N) : bool := lower_char a =? lower_char b.

(** The pattern of [_call] searched as [re.match] does, on ASCII. *)
Definition prompt_match : str -> option (str * str * str) :=
  Regex.prompt_match is_word ieq.

(** An offline engine that works. *)
Definition pyttsx3_up (_ : list Pyttsx3Call) (_ : Pyttsx3Call) : option exn := None.

(** A model that hears French. *)
Definition hears_french : list (WhisperResult + exn) :=
  [ inl (mkWhisperResult (s " Bonjour") (Some (s "fr"))) ].

(** One pass over these stand-ins with the pattern searched as [re.match]
    does. *)
Definition pass_matching mic whisper : N -> M (RealtimeTranslator Z) CycleEnd :=
  cycle np_square np_mean np_sqrt np_compare float_0_01 whisper engine prompt_match
        lower upper pyttsx3_down gtts_up player_up remove_up console_up mic.

End Stub.

(** ** Running several requests *)

Record Request : Type := mkRequest {
  req_text : str;
  req_src : str;
  req_tgt : str
}.

(** The translator after serving the requests in order, whatever each
    call returned or raised. *)
Fixpoint serve (engine : list Translator.EngineCall -> Translator.EngineCall -> str + exn)
    (reqs : list Request) (self : Translator.MBARTTranslator) : Translator.MBARTTranslator :=
  match reqs with
  | [] => self
  | r :: reqs' =>
      serve engine reqs'
        (snd (Translator.translate engine (req_text r) (req_src r) (req_tgt r) self))
  end.

(** ** Sequences of cache operations *)

(** What a user of [MBARTTranslator] can do with it. *)
Inductive Operation : Type :=
| OpTranslate (text src_lang tgt_lang : str)
| OpClear
| OpSize.

(** The translator after one operation, whatever it returned or raised. *)
Definition perform (engine : list Translator.EngineCall -> Translator.EngineCall -> str + exn)
    (op : Operation) (self : Translator.MBARTTranslator) : Translator.MBARTTranslator :=
  match op with
  | OpTranslate text src_lang tgt_lang =>
      snd (Translator.translate engine text src_lang tgt_lang self)
  | OpClear => snd (Translator.clear_cache self)
  | OpSize => snd (Translator.get_cache_size self)
  end.

Definition perform_all (engine : list Translator.EngineCall -> Translator.EngineCall -> str + exn)
    (ops : list Operation) (self : Translator.MBARTTranslator) : Translator.MBARTTranslator :=
  fold_left (fun t op => perform engine op t) ops self.

(** Every key of the cache has two supported codes and a trimmed text. *)
Definition valid_keys (self : Translator.MBARTTranslator) : Prop :=
  forall src tgt text hit,
    Translator.cache self !! (src, tgt, text) = Some hit ->
    Translator.validate_language src = true /\
    Translator.validate_language tgt = true /\
    strip text = text.

(** The cache holds no more entries than the engine was run. *)
Definition paid_for (self : Translator.MBARTTranslator) : Prop :=
  (size (Translator.cache self) <= length (Translator.engine_calls self))%nat.

(** * Properties *)

(** ** Statements *)

Lemma bind_run {St A B} (m : M St A) (k : A -> M St B) (st : St) :
  bind m k st = match m st with
                | (inl a, st') => k a st'
                | (inr e, st') => (inr e, st')
                end.
Proof. reflexivity. Qed.

Lemma catchable_ret {St A} (a : A) : catchable (@ret St A a).
Proof. intros st e st' H. discriminate. Qed.

Lemma catchable_get {St} : catchable (@get St).
Proof. intros st e st' H. discriminate. Qed.

Lemma catchable_put {St} (x : St) : catchable (put x).
Proof. intros st e st' H. discriminate. Qed.

Lemma catchable_raise {St A} (e : exn) :
  is_Exception e = true -> catchable (@raise St A e).
Proof. intros He st e' st' H. inversion H; subst. exact He. Qed.

Lemma catchable_bind {St A B} (m : M St A) (k : A -> M St B) :
  catchable m -> (forall a, catchable (k a)) -> catchable (bind m k).
Proof.
  intros Hm Hk st e st' H. rewrite bind_run in H.
  destruct (m st) as [[a|e0] st0] eqn:E.
  - exact (Hk a st0 e st' H).
  - inversion H; subst. exact (Hm st e st' E).
Qed.

Lemma catchable_if {St A} (b : bool) (m1 m2 : M St A) :
  catchable m1 -> catchable m2 -> catchable (if b then m1 else m2).
Proof. now destruct b. Qed.


(** ** Strings *)

Lemma lstrip_all_space (t : str) :
  Forall (fun c => isspace c = true) t -> lstrip t = [].
Proof.
  induction 1 as [|c t Hc _ IH]; simpl; [reflexivity|].
  now rewrite Hc.
Qed.

Lemma lstrip_nil_inv (t : str) :
  lstrip t = [] -> Forall (fun c => isspace c = true) t.
Proof.
  induction t as [|c t IH]; simpl; intros H; [constructor|].
  destruct (isspace c) eqn:Hc; [|discriminate].
  constructor; auto.
Qed.

(** What [lstrip] keeps is empty or starts with a character that is not
    whitespace. *)
Lemma lstrip_head (t : str) (c : N) (l : str) :
  lstrip t = c :: l -> isspace c = false.
Proof.
  induction t as [|a t IH]; simpl; [discriminate|].
  destruct (isspace a) eqn:Ha; [exact IH|].
  now intros [= <- _].
Qed.

Lemma lstrip_fixed (c : N) (l : str) :
  isspace c = false -> lstrip (c :: l) = c :: l.
Proof. intros H. simpl. now rewrite H. Qed.

Lemma lstrip_idempotent (t : str) : lstrip (lstrip t) = lstrip t.
Proof.
  destruct (lstrip t) as [|c l] eqn:E; [reflexivity|].
  apply lstrip_fixed. exact (lstrip_head t c l E).
Qed.

Lemma lstrip_snoc (l : str) (c : N) :
  isspace c = false -> lstrip (l ++ [c]) = lstrip l ++ [c].
Proof.
  intros Hc. induction l as [|a l IH]; simpl.
  - now rewrite Hc.
  - destruct (isspace a); [exact IH | reflexivity].
Qed.

Lemma rstrip_cons (c : N) (l : str) :
  isspace c = false -> rstrip (c :: l) = c :: rstrip l.
Proof.
  intros Hc. unfold rstrip. simpl.
  rewrite (lstrip_snoc _ _ Hc), rev_app_distr. reflexivity.
Qed.

Lemma rstrip_idempotent (t : str) : rstrip (rstrip t) = rstrip t.
Proof.
  unfold rstrip. now rewrite rev_involutive, lstrip_idempotent.
Qed.

(** [t.strip().strip() == t.strip()] *)
Lemma strip_idempotent (t : str) : strip (strip t) = strip t.
Proof.
  unfold strip.
  destruct (lstrip t) as [|c l] eqn:E; [reflexivity|].
  pose proof (lstrip_head t c l E) as Hc.
  rewrite (rstrip_cons c l Hc), (lstrip_fixed c _ Hc), <- (rstrip_cons c l Hc).
  apply rstrip_idempotent.
Qed.

Lemma strip_all_space (t : str) :
  Forall (fun c => isspace c = true) t -> strip t = [].
Proof.
  intros H. unfold strip, rstrip. now rewrite (lstrip_all_space t H).
Qed.

Lemma strip_nil_inv (t : str) :
  strip t = [] -> Forall (fun c => isspace c = true) t.
Proof.
  unfold strip. intros H. apply lstrip_nil_inv.
  destruct (lstrip t) as [|c l] eqn:E; [reflexivity|].
  rewrite (rstrip_cons c l (lstrip_head t c l E)) in H. discriminate.
Qed.

Lemma starts_app (a post : str) : starts a (a ++ post) = true.
Proof.
  induction a as [|x a IH]; simpl; [reflexivity|].
  now rewrite N.eqb_refl.
Qed.

Lemma contains_occurs (a b : str) : contains a b -> occurs a b = true.
Proof.
  intros (pre & post & ->).
  induction pre as [|x pre IH]; simpl.
  - destruct (a ++ post) eqn:E; simpl.
    + destruct a; [reflexivity|discriminate].
    + rewrite <- E, starts_app. reflexivity.
  - rewrite IH. apply orb_true_r.
Qed.

(** ** The translator and its cache *)

Section TranslatorFacts.
Import Translator.

Variable engine : list EngineCall -> EngineCall -> str + exn.

Lemma validate_language_code (l : str) :
  validate_language l = true <-> exists code, dict_get LANG_CODE_MAP l = Some code.
Proof.
  unfold validate_language, dict_in.
  destruct (dict_get LANG_CODE_MAP l) as [c|]; split; eauto; try discriminate.
  intros [c Hc]; discriminate.
Qed.

(** The supported set is {en, hi, te, ta, kn}. *)
Lemma validate_language_members (l : str) :
  validate_language l = true <-> l ∈ [s "en"; s "hi"; s "te"; s "ta"; s "kn"].
Proof.
  unfold validate_language, dict_in, LANG_CODE_MAP. simpl.
  rewrite !elem_of_cons, elem_of_nil.
  repeat (destruct (decide _) as [<-|?]; [split; [tauto|reflexivity]|]).
  split; [discriminate|]. intros H. intuition congruence.
Qed.

(** Trimming the text does not change the key. *)
Lemma cache_key_strip (text src tgt : str) :
  cache_key (strip text) src tgt = cache_key text src tgt.
Proof. unfold cache_key. now rewrite strip_idempotent. Qed.

(** A hit: the stored string comes back and nothing changes. *)
Lemma translate_hit (text src tgt hit : str) (self : MBARTTranslator) :
  cache self !! cache_key text src tgt = Some hit ->
  translate engine text src tgt self = (inl hit, self).
Proof.
  intros H. unfold translate. rewrite bind_run. unfold get at 1. now rewrite H.
Qed.

(** A miss with two supported codes: one engine run, logged; its result is
    stored and returned, its exception passes through. *)
Lemma translate_miss (text src tgt sc tc : str) (self : MBARTTranslator) :
  cache self !! cache_key text src tgt = None ->
  dict_get LANG_CODE_MAP src = Some sc ->
  dict_get LANG_CODE_MAP tgt = Some tc ->
  translate engine text src tgt self =
    match engine (engine_calls self) (mkCall sc tc text) with
    | inl r => (inl r, mkTranslator (<[cache_key text src tgt := r]> (cache self))
                                    (engine_calls self ++ [mkCall sc tc text]))
    | inr e => (inr e, mkTranslator (cache self)
                                    (engine_calls self ++ [mkCall sc tc text]))
    end.
Proof.
  intros Hk Hs Ht. unfold translate. rewrite bind_run. unfold get at 1.
  rewrite Hk. unfold dict_in, dict_getitem. rewrite Hs, Ht. cbn [negb].
  unfold generate, answer, bind, get, put, ret, raise, set_cache.
  cbn [cache engine_calls].
  destruct (engine _ _); reflexivity.
Qed.

Lemma translate_bad_source (text src tgt : str) (self : MBARTTranslator) :
  cache self !! cache_key text src tgt = None ->
  validate_language src = false ->
  translate engine text src tgt self =
    (inr (ValueError (s "Unsupported source language: " ++ src)), self).
Proof.
  intros Hk Hs. unfold translate. rewrite bind_run. unfold get at 1. rewrite Hk.
  unfold validate_language in Hs. now rewrite Hs.
Qed.

Lemma translate_bad_target (text src tgt : str) (self : MBARTTranslator) :
  cache self !! cache_key text src tgt = None ->
  validate_language src = true ->
  validate_language tgt = false ->
  translate engine text src tgt self =
    (inr (ValueError (s "Unsupported target language: " ++ tgt)), self).
Proof.
  intros Hk Hs Ht. unfold translate. rewrite bind_run. unfold get at 1. rewrite Hk.
  unfold validate_language in Hs, Ht. now rewrite Hs, Ht.
Qed.

(** No call removes or overwrites an entry: what is stored stays stored. *)
Lemma translate_keeps_entries (text src tgt : str) (self : MBARTTranslator) k v :
  cache self !! k = Some v ->
  cache (snd (translate engine text src tgt self)) !! k = Some v.
Proof.
  intros Hkv.
  destruct (cache self !! cache_key text src tgt) as [hit|] eqn:Hk.
  { now rewrite (translate_hit _ _ _ _ _ Hk). }
  destruct (validate_language src) eqn:Hs.
  2:{ now rewrite translate_bad_source. }
  destruct (validate_language tgt) eqn:Ht.
  2:{ now rewrite translate_bad_target. }
  apply validate_language_code in Hs as [sc Hs].
  apply validate_language_code in Ht as [tc Ht].
  rewrite (translate_miss _ _ _ _ _ _ Hk Hs Ht).
  destruct (engine _ _); simpl; [|assumption].
  rewrite lookup_insert_ne; [assumption|]. congruence.
Qed.

Lemma serve_keeps_entries (reqs : list Request) (self : MBARTTranslator) k v :
  cache self !! k = Some v -> cache (serve engine reqs self) !! k = Some v.
Proof.
  revert self. induction reqs as [|r reqs IH]; intros self H; simpl; [assumption|].
  apply IH. now apply translate_keeps_entries.
Qed.

(** With an engine that raises nothing outside the class Exception,
    neither does [translate]. *)
Lemma translate_catchable (text src tgt : str) :
  (forall calls c, caught (engine calls c)) ->
  catchable (translate engine text src tgt).
Proof.
  intros He st e st' H.
  destruct (cache st !! cache_key text src tgt) as [hit|] eqn:Hk.
  { rewrite (translate_hit _ _ _ _ _ Hk) in H. discriminate. }
  destruct (validate_language src) eqn:Hs.
  2:{ rewrite translate_bad_source in H by assumption. now inversion H. }
  destruct (validate_language tgt) eqn:Ht.
  2:{ rewrite translate_bad_target in H by assumption. now inversion H. }
  apply validate_language_code in Hs as [sc Hs].
  apply validate_language_code in Ht as [tc Ht].
  rewrite (translate_miss _ _ _ _ _ _ Hk Hs Ht) in H.
  destruct (engine (engine_calls st) (mkCall sc tc text)) as [r|e0] eqn:E;
    [discriminate|].
  inversion H; subst. exact (He _ _ _ E).
Qed.

(** C1. Cache idempotence.  For a triple (text, source, target) with both
    languages supported whose key is not stored yet, and an engine that
    answers the run with [r]: the first call runs the engine once, stores
    [r] under (source, target, trimmed text) and returns it; the second
    call returns the same string and leaves the translator as it was, so
    one engine run was made in all; and after any further requests, a call
    with the same key still returns the stored string without a run. *)
Theorem translate_twice_one_engine_run
    (text src tgt sc tc r : str) (self : MBARTTranslator) :
  dict_get LANG_CODE_MAP src = Some sc ->
  dict_get LANG_CODE_MAP tgt = Some tc ->
  cache self !! cache_key text src tgt = None ->
  engine (engine_calls self) (mkCall sc tc text) = inl r ->
  let first := translate engine text src tgt self in
  let second := translate engine text src tgt (snd first) in
  fst first = inl r /\ fst second = inl r /\
  cache (snd first) = <[(src, tgt, strip text) := r]> (cache self) /\
  engine_calls (snd first) = engine_calls self ++ [mkCall sc tc text] /\
  snd second = snd first /\
  length (engine_calls (snd second)) = S (length (engine_calls self)) /\
  forall (between : list Request) (text' : str),
    cache_key text' src tgt = cache_key text src tgt ->
    translate engine text' src tgt (serve engine between (snd first))
    = (inl r, serve engine between (snd first)).
Proof.
  intros Hs Ht Hk Hr first second.
  assert (Hfirst : first = (inl r, mkTranslator (<[cache_key text src tgt := r]> (cache self))
                                    (engine_calls self ++ [mkCall sc tc text]))).
  { unfold first. rewrite (translate_miss _ _ _ _ _ _ Hk Hs Ht). now rewrite Hr. }
  assert (Hstored : cache (snd first) !! cache_key text src tgt = Some r).
  { rewrite Hfirst. simpl. apply lookup_insert_eq. }
  assert (Hsecond : second = (inl r, snd first)).
  { unfold second. now apply translate_hit. }
  rewrite Hsecond. rewrite Hfirst. simpl.
  repeat split; try reflexivity.
  - rewrite length_app. simpl. lia.
  - intros between text' Heq. apply translate_hit. rewrite Heq.
    apply serve_keeps_entries. rewrite Hfirst in Hstored. exact Hstored.
Qed.

(** C3. Unsupported language on a miss.  When the key is not stored and
    one of the two codes is outside {en, hi, te, ta, kn}, [translate]
    raises the ValueError "Unsupported source/target language: <code>"
    naming an unsupported code, and the translator is left as it was: no
    engine run, same cache, same cache size. *)
Theorem translate_unsupported_language
    (text src tgt : str) (self : MBARTTranslator) :
  cache self !! cache_key text src tgt = None ->
  validate_language src = false \/ validate_language tgt = false ->
  exists code msg,
    (code = src \/ code = tgt) /\ validate_language code = false /\
    contains code msg /\
    translate engine text src tgt self = (inr (ValueError msg), self) /\
    engine_calls (snd (translate engine text src tgt self)) = engine_calls self /\
    fst (get_cache_size (snd (translate engine text src tgt self)))
      = fst (get_cache_size self).
Proof.
  intros Hk Hbad.
  destruct (validate_language src) eqn:Hs.
  - destruct Hbad as [Hbad|Ht]; [discriminate|].
    exists tgt, (s "Unsupported target language: " ++ tgt).
    rewrite (translate_bad_target _ _ _ _ Hk Hs Ht).
    repeat split; auto.
    exists (s "Unsupported target language: "), []. now rewrite app_nil_r.
  - exists src, (s "Unsupported source language: " ++ src).
    rewrite (translate_bad_source _ _ _ _ Hk Hs).
    repeat split; auto.
    exists (s "Unsupported source language: "), []. now rewrite app_nil_r.
Qed.

(** C4. Key sensitivity.  For a supported pair and a translator holding
    neither key: " Hello " and "Hello" have the same key, so after
    translating " Hello ", translating "Hello" is a hit (same string back,
    no engine run, one entry added in all); "Hello" and "hello" have
    different keys, so translating one and then the other runs the engine
    twice and leaves two entries. *)
Theorem cache_key_trimmed_and_case_sensitive
    (src tgt sc tc r1 r2 r3 : str) (self : MBARTTranslator) :
  dict_get LANG_CODE_MAP src = Some sc ->
  dict_get LANG_CODE_MAP tgt = Some tc ->
  cache self !! cache_key (s "Hello") src tgt = None ->
  cache self !! cache_key (s "hello") src tgt = None ->
  engine (engine_calls self) (mkCall sc tc (s " Hello ")) = inl r1 ->
  engine (engine_calls self) (mkCall sc tc (s "Hello")) = inl r2 ->
  engine (engine_calls self ++ [mkCall sc tc (s "Hello")]) (mkCall sc tc (s "hello")) = inl r3 ->
  (let padded := snd (translate engine (s " Hello ") src tgt self) in
   cache_key (s " Hello ") src tgt = cache_key (s "Hello") src tgt /\
   translate engine (s "Hello") src tgt padded = (inl r1, padded) /\
   cache padded !! cache_key (s "Hello") src tgt = Some r1 /\
   size (cache padded) = S (size (cache self))) /\
  (let upper_first := snd (translate engine (s "Hello") src tgt self) in
   let both := snd (translate engine (s "hello") src tgt upper_first) in
   cache_key (s "Hello") src tgt <> cache_key (s "hello") src tgt /\
   cache both !! cache_key (s "Hello") src tgt = Some r2 /\
   cache both !! cache_key (s "hello") src tgt = Some r3 /\
   size (cache both) = S (S (size (cache self))) /\
   engine_calls both
     = engine_calls self ++ [mkCall sc tc (s "Hello"); mkCall sc tc (s "hello")]).
Proof.
  intros Hs Ht HH Hh E1 E2 E3.
  assert (Sp : cache_key (s " Hello ") src tgt = cache_key (s "Hello") src tgt)
    by reflexivity.
  assert (Hne : cache_key (s "Hello") src tgt <> cache_key (s "hello") src tgt).
  { intros E. inversion E. }
  split.
  - intros padded.
    assert (Hp : padded = mkTranslator (<[cache_key (s "Hello") src tgt := r1]> (cache self))
                            (engine_calls self ++ [mkCall sc tc (s " Hello ")])).
    { unfold padded.
      rewrite (translate_miss (s " Hello ") src tgt sc tc self), E1, ?Sp; auto. }
    assert (Hl : cache padded !! cache_key (s "Hello") src tgt = Some r1).
    { rewrite Hp. simpl. apply lookup_insert_eq. }
    split; [exact Sp|]. split; [|split; [exact Hl|]].
    + now apply translate_hit.
    + rewrite Hp. simpl. now apply map_size_insert_None.
  - intros upper_first both.
    assert (Hu : upper_first
                 = mkTranslator (<[cache_key (s "Hello") src tgt := r2]> (cache self))
                                (engine_calls self ++ [mkCall sc tc (s "Hello")])).
    { unfold upper_first.
      rewrite (translate_miss (s "Hello") src tgt sc tc self), E2; auto. }
    assert (Hmiss : cache upper_first !! cache_key (s "hello") src tgt = None).
    { rewrite Hu. simpl. rewrite lookup_insert_ne; auto. }
    assert (Hb : both = mkTranslator
                   (<[cache_key (s "hello") src tgt := r3]>
                      (<[cache_key (s "Hello") src tgt := r2]> (cache self)))
                   ((engine_calls self ++ [mkCall sc tc (s "Hello")])
                      ++ [mkCall sc tc (s "hello")])).
    { unfold both.
      rewrite (translate_miss (s "hello") src tgt sc tc upper_first); auto.
      rewrite Hu. simpl. now rewrite E3. }
    rewrite Hb. simpl. repeat split.
    + exact Hne.
    + rewrite lookup_insert_ne; [apply lookup_insert_eq|congruence].
    + apply lookup_insert_eq.
    + rewrite map_size_insert_None.
      * now rewrite map_size_insert_None.
      * rewrite lookup_insert_ne; auto.
    + now rewrite <- app_assoc.
Qed.

(** C6. Lookup precedes validation.  When the key (source, target, trimmed
    text) is stored, [translate] returns the stored string and changes
    nothing, whatever the two codes are: no membership check is made, so
    no error is raised for a code outside the supported set. *)
Theorem cache_hit_skips_validation
    (text src tgt hit : str) (self : MBARTTranslator) :
  cache self !! (src, tgt, strip text) = Some hit ->
  translate engine text src tgt self = (inl hit, self).
Proof. apply translate_hit. Qed.

(** C9. No special case for identity pairs.  For a supported language [l]
    and a text whose key (l, l, trimmed text) is not stored, [translate]
    runs the engine once, from [l]'s locale to the same locale; if the
    engine answers, the answer is stored under the key and returned; only
    an exception of the engine itself can come out. *)
Theorem translate_identity_pair_runs_engine
    (text l : str) (self : MBARTTranslator) :
  validate_language l = true ->
  cache self !! (l, l, strip text) = None ->
  exists code,
    dict_get LANG_CODE_MAP l = Some code /\
    engine_calls (snd (translate engine text l l self))
      = engine_calls self ++ [mkCall code code text] /\
    match engine (engine_calls self) (mkCall code code text) with
    | inl r =>
        fst (translate engine text l l self) = inl r /\
        cache (snd (translate engine text l l self))
          = <[(l, l, strip text) := r]> (cache self)
    | inr e =>
        fst (translate engine text l l self) = inr e /\
        cache (snd (translate engine text l l self)) = cache self
    end.
Proof.
  intros Hl Hk. apply validate_language_code in Hl as [code Hc].
  exists code. split; [exact Hc|].
  rewrite (translate_miss _ _ _ _ _ _ Hk Hc Hc).
  destruct (engine _ _); simpl; auto.
Qed.

(** The guarantee of C1 lasts as long as the cache is not cleared:
    [clear_cache] forgets every entry. *)
Lemma clear_cache_forgets (self : MBARTTranslator) k :
  cache (snd (clear_cache self)) !! k = None.
Proof. unfold clear_cache, bind, get, put, set_cache. simpl. apply lookup_empty. Qed.

End TranslatorFacts.

(** *** The translator on concrete requests *)

Import Translator.
Import Stub(fresh, prefilled).

Lemma translate_twice_one_engine_run_witness :
  let first := translate Stub.engine (s "Hello") (s "en") (s "hi") fresh in
  let second := translate Stub.engine (s "Hello") (s "en") (s "hi") (snd first) in
  fst first = inl (s "namaste") /\ fst second = inl (s "namaste") /\
  length (engine_calls (snd second)) = 1%nat.
Proof.
  destruct (translate_twice_one_engine_run Stub.engine
              (s "Hello") (s "en") (s "hi") (s "en_XX") (s "hi_IN") (s "namaste") fresh)
    as (H1 & H2 & _ & _ & _ & H6 & _).
  - reflexivity.
  - reflexivity.
  - apply lookup_empty.
  - reflexivity.
  - exact (conj H1 (conj H2 H6)).
Defined.

Lemma translate_unsupported_language_witness :
  validate_language (s "de") = false /\
  exists msg,
    contains (s "de") msg /\
    translate Stub.engine (s "Hello") (s "en") (s "de") fresh
    = (inr (ValueError msg), fresh).
Proof.
  split; [reflexivity|].
  destruct (translate_unsupported_language Stub.engine (s "Hello") (s "en") (s "de") fresh)
    as (code & msg & Hcode & Hbad & Hin & Hres & _).
  - apply lookup_empty.
  - right. reflexivity.
  - exists msg. split; [|exact Hres].
    destruct Hcode as [-> | ->]; [discriminate Hbad | exact Hin].
Defined.

Lemma cache_key_trimmed_and_case_sensitive_witness :
  (let padded := snd (translate Stub.engine (s " Hello ") (s "en") (s "hi") fresh) in
   translate Stub.engine (s "Hello") (s "en") (s "hi") padded = (inl (s "namaste"), padded)) /\
  (let both := snd (translate Stub.engine (s "hello") (s "en") (s "hi")
                      (snd (translate Stub.engine (s "Hello") (s "en") (s "hi") fresh))) in
   size (cache both) = 2%nat /\ length (engine_calls both) = 2%nat).
Proof.
  destruct (cache_key_trimmed_and_case_sensitive Stub.engine
              (s "en") (s "hi") (s "en_XX") (s "hi_IN")
              (s "namaste") (s "namaste") (s "namaskar") fresh)
    as [(_ & Hhit & _ & _) (_ & _ & _ & Hsize & Hcalls)].
  - reflexivity.
  - reflexivity.
  - apply lookup_empty.
  - apply lookup_empty.
  - reflexivity.
  - reflexivity.
  - reflexivity.
  - split; [exact Hhit|]. split.
    + rewrite Hsize. reflexivity.
    + rewrite Hcalls. reflexivity.
Defined.

Lemma cache_hit_skips_validation_witness :
  validate_language (s "xx") = false /\ validate_language (s "de") = false /\
  translate Stub.engine (s " Hallo ") (s "xx") (s "de") prefilled
  = (inl (s "hello"), prefilled).
Proof.
  split; [reflexivity|]. split; [reflexivity|].
  apply (cache_hit_skips_validation Stub.engine (s " Hallo ") (s "xx") (s "de")).
  apply lookup_singleton_eq.
Defined.

Lemma translate_identity_pair_runs_engine_witness :
  fst (translate Stub.engine (s "Hello") (s "en") (s "en") fresh) = inl (s "namaste") /\
  engine_calls (snd (translate Stub.engine (s "Hello") (s "en") (s "en") fresh))
  = [mkCall (s "en_XX") (s "en_XX") (s "Hello")].
Proof.
  destruct (translate_identity_pair_runs_engine Stub.engine (s "Hello") (s "en") fresh)
    as (code & Hcode & Hcalls & Hres).
  - reflexivity.
  - apply lookup_empty.
  - assert (Some code = Some (s "en_XX")) as [= ->] by (rewrite <- Hcode; reflexivity).
    split; [exact (proj1 Hres) | exact Hcalls].
Defined.

(** ** The synthesizer *)

Section SynthesizerFacts.
Import TTS.

Variable pyttsx3_run : list Pyttsx3Call -> Pyttsx3Call -> option exn.
Variable gtts_save : list GttsCall -> GttsCall -> option exn.
Variable player : list (option str) -> option str -> option exn.
Variable os_remove : nat -> option exn.
Variable console : str -> str -> option exn.
Variable upper : str -> str.

#[local] Abbreviation speak := (TTS.speak pyttsx3_run gtts_save player os_remove console upper).
#[local] Abbreviation speak_gtts := (_speak_gtts gtts_save player os_remove).

Lemma nonblank_strip (text : str) :
  (exists c, c ∈ text /\ isspace c = false) -> truthy (strip text) = true.
Proof.
  intros (c & Hin & Hc).
  destruct (strip text) eqn:E; [|reflexivity].
  apply strip_nil_inv in E. rewrite Forall_forall in E.
  specialize (E c Hin). congruence.
Qed.

Lemma announcement_contains_text (text language : str) :
  contains text (announcement upper text language).
Proof.
  exists ([10] ++ s "[" ++ upper language ++ s "] "), [10].
  unfold announcement. now rewrite <- !app_assoc.
Qed.

Lemma announcement_contains_code (text language : str) :
  contains (upper language) (announcement upper text language).
Proof.
  exists ([10] ++ s "["), (s "] " ++ text ++ [10]).
  unfold announcement. now rewrite <- !app_assoc.
Qed.

(** A backend tried inside [try: ...; return  except Exception: ...]. *)
Lemma attempt_run {St} (m : M St unit) (st : St) :
  try_except (m ;;; ret true) (fun _ => ret false) st
  = match m st with
    | (inl _, st') => (inl true, st')
    | (inr e, st') => if is_Exception e then (inl false, st') else (inr e, st')
    end.
Proof.
  unfold try_except. rewrite bind_run.
  destruct (m st) as [[u|e] st']; reflexivity.
Qed.

Lemma speak_pyttsx3_run (text : str) (save_path : option str) (self : TextToSpeech) :
  _speak_pyttsx3 pyttsx3_run text save_path self
  = (match pyttsx3_run (pyttsx3_calls self) (pyttsx3_request text save_path) with
     | None => inl tt
     | Some e => inr e
     end,
     set_pyttsx3_calls (pyttsx3_calls self ++ [pyttsx3_request text save_path]) self).
Proof.
  unfold _speak_pyttsx3, outcome, bind, get, put, ret, raise.
  now destruct (pyttsx3_run _ _).
Qed.

(** [_play_audio] returns unless the player raises outside the class
    Exception; it touches nothing but the list of played files. *)
Lemma play_audio_run (path : option str) (self : TextToSpeech) :
  _play_audio player path self
  = (match player (played self) path with
     | None => inl tt
     | Some e => if is_Exception e then inl tt else inr e
     end,
     set_played (played self ++ [path]) self).
Proof.
  unfold _play_audio, try_except, outcome, bind, get, put, ret, raise.
  destruct (player _ _) as [e|]; [|reflexivity].
  now destruct (is_Exception e).
Qed.

(** gTTS raised: [_speak_gtts] raises the same, nothing was played. *)
Lemma speak_gtts_raises (text language : str) (save_path : option str)
    (self : TextToSpeech) (e : exn) :
  gtts_save (gtts_calls self) (gtts_request text language save_path) = Some e ->
  speak_gtts text language save_path self
  = (inr e, set_gtts_calls (gtts_calls self ++ [gtts_request text language save_path]) self).
Proof.
  intros H. unfold _speak_gtts. rewrite bind_run. unfold get at 1.
  rewrite bind_run. unfold put at 1. rewrite bind_run, H. reflexivity.
Qed.

(** Whatever [_speak_gtts] does, it prints nothing, and what it raises is
    what gTTS, the player or [os.remove] raised. *)
Lemma speak_gtts_quiet (text language : str) (save_path : option str)
    (self : TextToSpeech) :
  stdout (snd (speak_gtts text language save_path self)) = stdout self.
Proof.
  unfold _speak_gtts. rewrite bind_run. unfold get at 1.
  rewrite bind_run. unfold put at 1. rewrite bind_run.
  destruct (gtts_save _ _) as [e|]; [reflexivity|].
  unfold outcome, ret.
  destruct (given save_path).
  - rewrite play_audio_run. reflexivity.
  - rewrite bind_run, play_audio_run.
    destruct (player _ _) as [e|]; [destruct (is_Exception e)|]; try reflexivity;
      unfold try_except, outcome, bind, get, put, ret, raise;
      (destruct (os_remove _) as [e'|]; [destruct (is_Exception e')|]); reflexivity.
Qed.

Lemma speak_gtts_catchable (text language : str) (save_path : option str) :
  (forall calls c, contained (gtts_save calls c)) ->
  (forall files f, contained (player files f)) ->
  (forall k, contained (os_remove k)) ->
  catchable (speak_gtts text language save_path).
Proof.
  intros Hg Hp Hr self e st' H.
  unfold _speak_gtts in H. rewrite bind_run in H. unfold get at 1 in H.
  rewrite bind_run in H. unfold put at 1 in H. rewrite bind_run in H.
  destruct (gtts_save _ _) as [e0|] eqn:Eg.
  { inversion H; subst. exact (Hg _ _ _ Eg). }
  unfold outcome, ret in H.
  destruct (given save_path).
  - rewrite play_audio_run in H.
    destruct (player _ _) as [e0|] eqn:Ep; [|discriminate].
    rewrite (Hp _ _ _ Ep) in H. discriminate.
  - rewrite bind_run, play_audio_run in H.
    destruct (player _ _) as [e0|] eqn:Ep.
    + rewrite (Hp _ _ _ Ep) in H.
      unfold try_except, outcome, bind, get, put, ret, raise in H.
      destruct (os_remove _) as [e'|] eqn:Er; [|discriminate].
      rewrite (Hr _ _ Er) in H. discriminate.
    + unfold try_except, outcome, bind, get, put, ret, raise in H.
      destruct (os_remove _) as [e'|] eqn:Er; [|discriminate].
      rewrite (Hr _ _ Er) in H. discriminate.
Qed.

(** [print] returns after the line is written, or raises what the
    console raised with nothing written. *)
Lemma print_run (x : str) (st : TextToSpeech) :
  print console x st
  = match console (stdout st) x with
    | None => (inl tt, set_stdout (stdout st ++ x ++ [10]) st)
    | Some e => (inr e, st)
    end.
Proof.
  unfold print, outcome, bind, get, put, ret, raise.
  now destruct (console _ _).
Qed.

(** The file [_speak_gtts] hands to the player: the caller's path, or the
    temporary file. *)
#[local] Abbreviation audio_file save_path :=
  (if given save_path then save_path else None : option str).

(** [_speak_gtts], step by step. *)
Lemma speak_gtts_run (text language : str) (save_path : option str) (st : TextToSpeech) :
  speak_gtts text language save_path st
  = let c := gtts_request text language save_path in
    let s1 := set_gtts_calls (gtts_calls st ++ [c]) st in
    let s2 := set_played (played st ++ [audio_file save_path]) s1 in
    let s3 := set_removed (S (removed st)) s2 in
    let clean_up :=
      if given save_path then (inl tt, s2)
      else match os_remove (removed st) with
           | None => (inl tt, s3)
           | Some e => if is_Exception e then (inl tt, s3) else (inr e, s3)
           end in
    match gtts_save (gtts_calls st) c with
    | Some e => (inr e, s1)
    | None =>
        match player (played st) (audio_file save_path) with
        | None => clean_up
        | Some e => if is_Exception e then clean_up else (inr e, s2)
        end
    end.
Proof.
  unfold _speak_gtts. rewrite bind_run. unfold get at 1.
  rewrite bind_run. unfold put at 1. rewrite bind_run.
  destruct (gtts_save _ _) as [e|]; [reflexivity|].
  unfold outcome, ret. cbv zeta.
  destruct (given save_path).
  - rewrite play_audio_run. cbn [played set_gtts_calls].
    destruct (player _ _) as [e|]; [destruct (is_Exception e)|]; reflexivity.
  - rewrite bind_run, play_audio_run. cbn [played set_gtts_calls].
    destruct (player _ _) as [e|]; [destruct (is_Exception e)|]; try reflexivity;
      unfold try_except, outcome, bind, get, put, ret, raise; cbn [removed set_played];
      (destruct (os_remove _) as [e'|]; [destruct (is_Exception e')|]); reflexivity.
Qed.

(** The second half of [speak]: gTTS, then the console. *)
#[local] Abbreviation second text language save_path self st :=
  (if use_gtts_fallback self && dict_in language GTTS_LANG_MAP
   then match speak_gtts text language save_path st with
        | (inl _, st') => (inl tt, st')
        | (inr e, st') =>
            if is_Exception e then print console (announcement upper text language) st'
            else (inr e, st')
        end
   else print console (announcement upper text language) st).

(** [speak] on a text that is not blank, step by step. *)
Lemma speak_run (text language : str) (save_path : option str) (self : TextToSpeech) :
  truthy (strip text) = true ->
  speak text language save_path self
  = let s1 := set_pyttsx3_calls (pyttsx3_calls self ++ [pyttsx3_request text save_path]) self in
    if pyttsx3_engine self && bool_decide (language = s "en")
    then match pyttsx3_run (pyttsx3_calls self) (pyttsx3_request text save_path) with
         | None => (inl tt, s1)
         | Some e => if is_Exception e then second text language save_path self s1
                     else (inr e, s1)
         end
    else second text language save_path self self.
Proof.
  intros Hnb. unfold TTS.speak. rewrite Hnb. cbn [negb].
  rewrite bind_run. unfold get. rewrite bind_run. cbv zeta.
  assert (Hsecond : forall st : TextToSpeech,
    (spoken <- (if use_gtts_fallback self && dict_in language GTTS_LANG_MAP
                then try_except (speak_gtts text language save_path ;;; ret true)
                                (fun _ => ret false)
                else ret false) ;;
     if spoken : bool then ret tt else print console (announcement upper text language)) st
    = second text language save_path self st).
  { intros st. rewrite bind_run.
    destruct (use_gtts_fallback self && dict_in language GTTS_LANG_MAP); [|reflexivity].
    rewrite attempt_run.
    destruct (speak_gtts text language save_path st) as [[u|e] st']; [reflexivity|].
    now destruct (is_Exception e). }
  destruct (pyttsx3_engine self && bool_decide (language = s "en")).
  - rewrite attempt_run, speak_pyttsx3_run.
    destruct (pyttsx3_run _ _) as [e|]; [|reflexivity].
    destruct (is_Exception e); [apply Hsecond | reflexivity].
  - apply Hsecond.
Qed.

(** The second half of [speak] when the libraries raise nothing outside
    the class Exception: it returns, or raises what [print] raised. *)
Lemma second_outcome (text language : str) (save_path : option str)
    (self st : TextToSpeech) :
  (forall calls c, contained (gtts_save calls c)) ->
  (forall files f, contained (player files f)) ->
  (forall k, contained (os_remove k)) ->
  fst (second text language save_path self st) = inl tt \/
  exists e, fst (second text language save_path self st) = inr e /\
            console (stdout st) (announcement upper text language) = Some e.
Proof.
  intros Hg Hpl Hr.
  destruct (use_gtts_fallback self && dict_in language GTTS_LANG_MAP).
  - pose proof (speak_gtts_quiet text language save_path st) as Hq.
    destruct (speak_gtts text language save_path st) as [[u|e] st'] eqn:E; [now left|].
    rewrite (speak_gtts_catchable text language save_path Hg Hpl Hr st e st' E).
    cbn [snd] in Hq. rewrite print_run, Hq.
    destruct (console _ _) as [e'|]; [right; eauto | now left].
  - rewrite print_run.
    destruct (console _ _) as [e'|]; [right; eauto | now left].
Qed.

(** With libraries that raise nothing outside the class Exception, [speak]
    returns, or raises what [print] raised on the line of the console
    fallback. *)
Lemma speak_outcome
    (text language : str) (save_path : option str) (self : TextToSpeech) :
  synthesis_contained pyttsx3_run gtts_save player os_remove ->
  fst (speak text language save_path self) = inl tt \/
  exists e, fst (speak text language save_path self) = inr e /\
            console (stdout self) (announcement upper text language) = Some e.
Proof.
  intros (Hp & Hg & Hpl & Hr).
  destruct (truthy (strip text)) eqn:Hnb.
  2:{ left. unfold TTS.speak. now rewrite Hnb. }
  rewrite (speak_run text language save_path self Hnb). cbv zeta.
  destruct (pyttsx3_engine self && bool_decide (language = s "en")).
  - destruct (pyttsx3_run _ _) as [e|] eqn:E; [|now left].
    rewrite (Hp _ _ _ E).
    exact (second_outcome text language save_path self
             (set_pyttsx3_calls (pyttsx3_calls self ++ [pyttsx3_request text save_path]) self)
             Hg Hpl Hr).
  - exact (second_outcome text language save_path self self Hg Hpl Hr).
Qed.

(** With such libraries and a console that takes every line, [speak]
    returns normally on every text. *)
Lemma speak_returns
    (text language : str) (save_path : option str) (self : TextToSpeech) :
  synthesis_contained pyttsx3_run gtts_save player os_remove ->
  (forall out x, console out x = None) ->
  fst (speak text language save_path self) = inl tt.
Proof.
  intros H Hc.
  destruct (speak_outcome text language save_path self H) as [Hret|(e & _ & He)];
    [exact Hret|].
  rewrite Hc in He. discriminate.
Qed.

(** With such libraries and a console that raises nothing outside the
    class Exception, neither does [speak]. *)
Lemma speak_catchable (text language : str) (save_path : option str) :
  synthesis_contained pyttsx3_run gtts_save player os_remove ->
  (forall out x, contained (console out x)) ->
  catchable (speak text language save_path).
Proof.
  intros H Hc self e st' E.
  destruct (speak_outcome text language save_path self H) as [Hret|(e' & He' & Hline)];
    rewrite E in *; cbn [fst] in *; [discriminate|].
  injection He' as <-. exact (Hc _ _ _ Hline).
Qed.

(** Neither engine spoke: the line goes to the console, and [speak]
    returns or raises as [print] does. *)
Lemma speak_fallback
    (text language : str) (save_path : option str) (self : TextToSpeech) :
  truthy (strip text) = true ->
  let primary := pyttsx3_run (pyttsx3_calls self) (pyttsx3_request text save_path) in
  let fallback := gtts_save (gtts_calls self) (gtts_request text language save_path) in
  pyttsx3_engine self && bool_decide (language = s "en") = false \/ failed primary ->
  use_gtts_fallback self && dict_in language GTTS_LANG_MAP = false \/ failed fallback ->
  match console (stdout self) (announcement upper text language) with
  | None =>
      fst (speak text language save_path self) = inl tt /\
      stdout (snd (speak text language save_path self))
      = stdout self ++ announcement upper text language ++ [10]
  | Some e =>
      fst (speak text language save_path self) = inr e /\
      stdout (snd (speak text language save_path self)) = stdout self
  end.
Proof.
  intros Hnb primary fallback Hp Hf.
  rewrite (speak_run text language save_path self Hnb). cbv zeta.
  assert (Hsecond : forall st : TextToSpeech,
    gtts_calls st = gtts_calls self -> stdout st = stdout self ->
    match console (stdout self) (announcement upper text language) with
    | None =>
        fst (second text language save_path self st) = inl tt /\
        stdout (snd (second text language save_path self st))
        = stdout self ++ announcement upper text language ++ [10]
    | Some e =>
        fst (second text language save_path self st) = inr e /\
        stdout (snd (second text language save_path self st)) = stdout self
    end).
  { intros st Hcalls Hout.
    destruct (use_gtts_fallback self && dict_in language GTTS_LANG_MAP).
    - destruct Hf as [Hf|(e & Ee & He)]; [discriminate|].
      subst fallback. rewrite <- Hcalls in Ee.
      rewrite (speak_gtts_raises text language save_path st e Ee), He, print_run.
      cbn [stdout set_gtts_calls]. rewrite Hout.
      destruct (console _ _); cbn; rewrite ?Hout; auto.
    - rewrite print_run, Hout.
      destruct (console _ _); cbn; rewrite ?Hout; auto. }
  destruct (pyttsx3_engine self && bool_decide (language = s "en")).
  - destruct Hp as [Hp|(e & Ee & He)]; [discriminate|].
    subst primary. rewrite Ee, He.
    apply (Hsecond (set_pyttsx3_calls _ self)); reflexivity.
  - apply (Hsecond self); reflexivity.
Qed.

(** A player that fails does not bring the console fallback: once gTTS
    has saved the audio, [speak] returns without printing, whatever the
    player did short of raising outside the class Exception. *)
Lemma speak_player_failure_is_silent
    (text language : str) (save_path : option str) (self : TextToSpeech) :
  truthy (strip text) = true ->
  pyttsx3_engine self && bool_decide (language = s "en") = false ->
  use_gtts_fallback self && dict_in language GTTS_LANG_MAP = true ->
  gtts_save (gtts_calls self) (gtts_request text language save_path) = None ->
  (forall files f, contained (player files f)) ->
  (forall k, contained (os_remove k)) ->
  fst (speak text language save_path self) = inl tt /\
  stdout (snd (speak text language save_path self)) = stdout self.
Proof.
  intros Hnb H1 H2 Hg Hpl Hr.
  assert (Hok : exists st', speak_gtts text language save_path self = (inl tt, st')).
  { unfold _speak_gtts.
    rewrite bind_run. unfold get at 1. rewrite bind_run. unfold put at 1.
    rewrite bind_run, Hg. unfold outcome, ret.
    destruct (given save_path).
    + rewrite play_audio_run.
      destruct (player _ _) as [e0|] eqn:Ep; [rewrite (Hpl _ _ _ Ep)|]; eauto.
    + rewrite bind_run, play_audio_run.
      destruct (player _ _) as [e0|] eqn:Ep; [rewrite (Hpl _ _ _ Ep)|];
        unfold try_except, outcome, bind, get, put, ret, raise;
        (destruct (os_remove _) as [e'|] eqn:Er; [rewrite (Hr _ _ Er)|]);
        eauto. }
  destruct Hok as [st' Hok].
  assert (E : speak text language save_path self = (inl tt, st')).
  { unfold TTS.speak. rewrite Hnb. cbn [negb].
    rewrite bind_run. unfold get. cbv beta iota. rewrite H1, H2.
    rewrite bind_run. unfold ret at 1. rewrite bind_run, attempt_run, Hok.
    reflexivity. }
  rewrite E. split; [reflexivity|].
  pose proof (speak_gtts_quiet text language save_path self) as Hq.
  now rewrite Hok in Hq.
Qed.

(** C10. Blank text.  For a text that is empty or made of whitespace only,
    [speak] returns at once: the synthesizer is left exactly as it was, so
    neither backend ran and nothing was printed. *)
Theorem speak_blank_text_is_silent
    (text language : str) (save_path : option str) (self : TextToSpeech) :
  Forall (fun c => isspace c = true) text ->
  speak text language save_path self = (inl tt, self) /\
  pyttsx3_calls (snd (speak text language save_path self)) = pyttsx3_calls self /\
  gtts_calls (snd (speak text language save_path self)) = gtts_calls self /\
  played (snd (speak text language save_path self)) = played self /\
  stdout (snd (speak text language save_path self)) = stdout self.
Proof.
  intros Hblank.
  assert (E : speak text language save_path self = (inl tt, self)).
  { unfold TTS.speak. now rewrite (strip_all_space text Hblank). }
  rewrite E. auto.
Qed.

(** C7, as the code has it.  [print] stands outside every [try] of
    [speak].  With libraries that raise nothing outside the class
    Exception, [speak] returns normally on every text for which [print]
    takes the line of the console fallback, and the only exception that
    can leave [speak] is the one [print] raised on that line.  For a text
    with at least one character that is not whitespace: if the offline
    engine is unavailable or fails and gTTS is unavailable or fails, the
    line "[CODE] text" between two newlines goes to [print], where CODE is
    the language code in upper case; when [print] takes it [speak] returns
    normally with the line printed, and when [print] raises [speak] raises
    the same; the line contains the text and the upper-cased code. *)
Theorem speak_falls_back_to_console
    (text language : str) (save_path : option str) (self : TextToSpeech) :
  let primary := pyttsx3_run (pyttsx3_calls self) (pyttsx3_request text save_path) in
  let fallback := gtts_save (gtts_calls self) (gtts_request text language save_path) in
  let line := console (stdout self) (announcement upper text language) in
  (synthesis_contained pyttsx3_run gtts_save player os_remove ->
   (line = None -> fst (speak text language save_path self) = inl tt) /\
   (forall e, fst (speak text language save_path self) = inr e -> line = Some e)) /\
  ((exists c, c ∈ text /\ isspace c = false) ->
   pyttsx3_engine self && bool_decide (language = s "en") = false \/ failed primary ->
   use_gtts_fallback self && dict_in language GTTS_LANG_MAP = false \/ failed fallback ->
   match line with
   | None =>
       fst (speak text language save_path self) = inl tt /\
       stdout (snd (speak text language save_path self))
       = stdout self ++ announcement upper text language ++ [10]
   | Some e =>
       fst (speak text language save_path self) = inr e /\
       stdout (snd (speak text language save_path self)) = stdout self
   end /\
   contains (upper language) (announcement upper text language) /\
   contains text (announcement upper text language)).
Proof.
  intros primary fallback line.
  split.
  - intros Hlibs.
    destruct (speak_outcome text language save_path self Hlibs) as [Hret|(e & He & Hline)].
    + split; [auto|]. intros e He. rewrite Hret in He. discriminate.
    + fold line in Hline. split.
      * intros Hnone. rewrite Hnone in Hline. discriminate.
      * intros e' He'. rewrite He in He'. now injection He' as <-.
  - intros Hnb Hp Hf. apply nonblank_strip in Hnb.
    split; [exact (speak_fallback text language save_path self Hnb Hp Hf)|].
    auto using announcement_contains_code, announcement_contains_text.
Qed.

End SynthesizerFacts.

(** *** The synthesizer on concrete texts *)

Import TTS.
Import Stub(synthesizer).

(** C7 as stated fails in four places.  A text of one space is not empty,
    yet with both backends failing [speak] returns without printing
    anything.  An interrupt raised while gTTS runs is not an instance of
    Exception and leaves [speak].  For the code "hi" the printed line
    carries "HI": the code as given does not occur in it.  And on a
    console that cannot encode the text, with both backends failing,
    the exception of [print] leaves [speak]. *)
Lemma speak_console_fallback_counterexample :
  (s " " <> [] /\
   failed (Stub.pyttsx3_down [] (pyttsx3_request (s " ") None)) /\
   failed (Stub.gtts_down [] (gtts_request (s " ") (s "en") None)) /\
   Stub.speak Stub.gtts_down Stub.player_up (s " ") (s "en") None synthesizer
   = (inl tt, synthesizer)) /\
  fst (Stub.speak Stub.gtts_interrupted Stub.player_up (s "x") (s "hi") None synthesizer)
  = inr KeyboardInterrupt /\
  (stdout (snd (Stub.speak Stub.gtts_down Stub.player_up (s "x") (s "hi") None synthesizer))
   = [10] ++ s "[HI] x" ++ [10; 10] /\
   ~ contains (s "hi") ([10] ++ s "[HI] x" ++ [10; 10])) /\
  (Stub.devanagari <> [] /\
   failed (Stub.gtts_down [] (gtts_request Stub.devanagari (s "hi") None)) /\
   TTS.speak Stub.pyttsx3_down Stub.gtts_down Stub.player_up Stub.remove_up
     Stub.console_ascii Stub.upper Stub.devanagari (s "hi") None synthesizer
   = (inr (Error (s "UnicodeEncodeError") (s "'ascii' codec can't encode characters")),
      mkTTS true true [] [gtts_request Stub.devanagari (s "hi") None] [] 0 [])).
Proof.
  repeat split.
  - discriminate.
  - eexists; split; reflexivity.
  - eexists; split; reflexivity.
  - intros H. apply contains_occurs in H. discriminate H.
  - discriminate.
  - eexists; split; reflexivity.
Qed.

(** The synthesizer with and without the offline engine. *)
Example synthesizer_init :
  TTS.__init__ true None = inl synthesizer /\
  TTS.__init__ true (Some (Error (s "RuntimeError") (s "no driver")))
  = inl Stub.synthesizer_without_engine /\
  TTS.__init__ false (Some (Error (s "RuntimeError") (s "no driver")))
  = inr (Error (s "RuntimeError") (s "no driver")).
Proof. repeat split. Qed.

(** With gTTS working and no player installed, nothing is heard and
    nothing is printed. *)
Example speak_without_player :
  Stub.speak Stub.gtts_up Stub.player_down (s "x") (s "hi") None synthesizer
  = (inl tt, mkTTS true true [] [gtts_request (s "x") (s "hi") None] [None] 1 []).
Proof. reflexivity. Qed.

Lemma speak_blank_text_is_silent_witness :
  Stub.speak Stub.gtts_down Stub.player_up (s "  ") (s "hi") None synthesizer
  = (inl tt, synthesizer).
Proof.
  apply (speak_blank_text_is_silent Stub.pyttsx3_down Stub.gtts_down Stub.player_up
           Stub.remove_up Stub.console_up Stub.upper (s "  ") (s "hi") None synthesizer).
  repeat constructor.
Defined.

(** The failing stand-ins raise instances of Exception only. *)
Lemma stub_failures_contained :
  synthesis_contained Stub.pyttsx3_down Stub.gtts_down Stub.player_up Stub.remove_up.
Proof.
  repeat split; intros; intros e H; try discriminate H;
    injection H as <-; reflexivity.
Qed.

Lemma speak_falls_back_to_console_witness :
  fst (Stub.speak Stub.gtts_down Stub.player_up (s "x") (s "hi") None synthesizer)
  = inl tt /\
  stdout (snd (Stub.speak Stub.gtts_down Stub.player_up (s "x") (s "hi") None synthesizer))
  = [10] ++ s "[HI] x" ++ [10; 10] /\
  fst (Stub.speak Stub.gtts_down Stub.player_up (s "Hello") (s "en") None synthesizer)
  = inl tt /\
  fst (TTS.speak Stub.pyttsx3_down Stub.gtts_down Stub.player_up Stub.remove_up
         Stub.console_ascii Stub.upper Stub.devanagari (s "hi") None synthesizer)
  = inr (Error (s "UnicodeEncodeError") (s "'ascii' codec can't encode characters")).
Proof.
  destruct (speak_falls_back_to_console Stub.pyttsx3_down Stub.gtts_down Stub.player_up
              Stub.remove_up Stub.console_up Stub.upper (s "x") (s "hi") None synthesizer)
    as [_ Hprint].
  destruct Hprint as ((Hret & Hout) & _).
  - exists 120. split; [|reflexivity]. apply list_elem_of_here.
  - left. reflexivity.
  - right. eexists; split; reflexivity.
  - split; [exact Hret|]. split; [exact Hout|]. split.
    + apply (proj1 (speak_falls_back_to_console Stub.pyttsx3_down Stub.gtts_down
                      Stub.player_up Stub.remove_up Stub.console_up Stub.upper
                      (s "Hello") (s "en") None synthesizer)
               stub_failures_contained).
      reflexivity.
    + destruct (speak_falls_back_to_console Stub.pyttsx3_down Stub.gtts_down
                  Stub.player_up Stub.remove_up Stub.console_ascii Stub.upper
                  Stub.devanagari (s "hi") None synthesizer) as [_ Hline].
      destruct Hline as ((Hraise & _) & _).
      * exists 2344. split; [|reflexivity]. apply list_elem_of_here.
      * left. reflexivity.
      * right. eexists; split; reflexivity.
      * exact Hraise.
Defined.

(** ** The orchestrator *)

Section LoopFacts.
Import Translator LLM STT TTS Realtime.

Variable float : Type.
Variable np_square : list float -> list float.
Variable np_mean : list float -> float.
Variable np_sqrt : float -> float.
Variable np_compare : float -> float -> float_cmp.
Variable float_0_01 : float.
Variable whisper : list (WhisperCall float) -> WhisperCall float -> WhisperResult + exn.
Variable engine : list EngineCall -> EngineCall -> str + exn.
Variable re_match : str -> option (str * str * str).
Variable lower upper : str -> str.
Variable pyttsx3_run : list Pyttsx3Call -> Pyttsx3Call -> option exn.
Variable gtts_save : list GttsCall -> GttsCall -> option exn.
Variable player : list (option str) -> option str -> option exn.
Variable os_remove : nat -> option exn.
Variable console : str -> str -> option exn.
Variable sd_rec : nat -> N -> list float + exn.
Variable sigint_during : nat -> bool.

#[local] Abbreviation has_speech :=
  (_has_speech np_square np_mean np_sqrt np_compare).
#[local] Abbreviation body :=
  (cycle_body np_square np_mean np_sqrt np_compare float_0_01 whisper engine re_match
     lower upper pyttsx3_run gtts_save player os_remove console sd_rec).
#[local] Abbreviation pass :=
  (cycle np_square np_mean np_sqrt np_compare float_0_01 whisper engine re_match
     lower upper pyttsx3_run gtts_save player os_remove console sd_rec).
#[local] Abbreviation loop :=
  (while_running np_square np_mean np_sqrt np_compare float_0_01 whisper engine re_match
     lower upper pyttsx3_run gtts_save player os_remove console sd_rec sigint_during).
#[local] Abbreviation say :=
  (speak pyttsx3_run gtts_save player os_remove console upper).
#[local] Abbreviation fit :=
  (healthy np_square np_mean np_sqrt np_compare float_0_01 whisper engine re_match
     lower pyttsx3_run gtts_save player os_remove console sd_rec).

Lemma record_audio_run (n : N) (self : RealtimeTranslator float) :
  _record_audio sd_rec n self = (sd_rec (recordings self) n, recorded self).
Proof.
  unfold _record_audio, try_except, answer, bind, get, put, ret, raise, recorded.
  destruct (sd_rec (recordings self) n) as [a|e]; [reflexivity|].
  now destruct (is_Exception e).
Qed.

(** The transcriber logs the call whatever the model does. *)
Lemma transcribe_logs (audio : list float) (language : option str) (rate : N)
    (t : WhisperSTT float) :
  snd (transcribe whisper audio language rate t)
  = mkSTT (whisper_calls t ++ [mkWhisperCall audio language rate]).
Proof.
  unfold transcribe, answer, bind, get, put, ret, raise.
  now destruct (whisper _ _).
Qed.

(** What the transcriber answers is what the model raised, or the model's
    text trimmed. *)
Lemma transcribe_answer (audio : list float) (language : option str) (rate : N)
    (t : WhisperSTT float) :
  match fst (transcribe whisper audio language rate t) with
  | inl tr => exists r, whisper (whisper_calls t) (mkWhisperCall audio language rate) = inl r
                        /\ tr_text tr = strip (r_text r)
  | inr e => whisper (whisper_calls t) (mkWhisperCall audio language rate) = inr e
  end.
Proof.
  unfold transcribe, answer, bind, get, put, ret, raise.
  destruct (whisper _ _) as [r|e]; simpl; eauto.
Qed.

Lemma on_stt_transcribe_run (audio : list float) (self : RealtimeTranslator float) :
  on_stt (transcribe whisper audio (hint self) (sample_rate self)) (recorded self)
  = (heard whisper audio self, transcribed (stt_call audio self) self).
Proof.
  unfold on_stt, heard, transcribed.
  change (stt (recorded self)) with (stt self).
  pose proof (transcribe_logs audio (hint self) (sample_rate self) (stt self)) as Hl.
  destruct (transcribe whisper audio (hint self) (sample_rate self) (stt self)) as [r t].
  simpl in Hl. subst t. reflexivity.
Qed.

(** The device raised: the pass ends there. *)
Lemma body_device_error (n : N) (self : RealtimeTranslator float) (e : exn) :
  sd_rec (recordings self) n = inr e ->
  body n self = (inr e, recorded self).
Proof.
  intros H. unfold cycle_body. now rewrite bind_run, record_audio_run, H.
Qed.

(** The gate said no: the pass ends with the chunk recorded and nothing
    else done. *)
Lemma body_no_speech (n : N) (self : RealtimeTranslator float) (audio : list float) :
  sd_rec (recordings self) n = inl audio ->
  has_speech audio float_0_01 = false ->
  body n self = (inl NoSpeech, recorded self).
Proof.
  intros H Hg. unfold cycle_body. now rewrite bind_run, record_audio_run, H, Hg.
Qed.

(** The gate said yes: the transcriber is called once, and the pass goes
    on or ends as the transcript decides. *)
Lemma body_transcribe (n : N) (self : RealtimeTranslator float) (audio : list float) :
  sd_rec (recordings self) n = inl audio ->
  has_speech audio float_0_01 = true ->
  body n self =
    match heard whisper audio self with
    | inr e => (inr e, transcribed (stt_call audio self) self)
    | inl tr =>
        if negb (truthy (strip (tr_text tr)))
        then (inl EmptyTranscription, transcribed (stt_call audio self) self)
        else if bool_decide (resolved lower (tr_language tr) self = tgt_lang self)
        then (inl SameLanguage, transcribed (stt_call audio self) self)
        else
          (translation <-
             on_llm (invoke engine re_match lower
                       (prompt_of (resolved lower (tr_language tr) self) (tr_text tr) self)) ;;
           on_tts (say translation (tgt_lang self) None) ;;;
           cache_size <- on_llm get_cache_size ;;
           ret Spoke) (transcribed (stt_call audio self) self)
    end.
Proof.
  intros H Hg. unfold cycle_body.
  rewrite bind_run, record_audio_run, H, Hg. cbn [negb].
  rewrite bind_run. unfold get at 1. rewrite bind_run.
  change (src_lang (recorded self)) with (src_lang self).
  change (sample_rate (recorded self)) with (sample_rate self).
  change (if bool_decide (src_lang self = s "auto") then None else Some (src_lang self))
    with (hint self).
  rewrite on_stt_transcribe_run.
  destruct (heard whisper audio self) as [tr|e]; [|reflexivity].
  destruct (negb (truthy (strip (tr_text tr)))); [reflexivity|].
  change (lower (take 2 _)) with (resolved lower (tr_language tr) self).
  change (tgt_lang (recorded self)) with (tgt_lang self).
  destruct (bool_decide (resolved lower (tr_language tr) self = tgt_lang self));
    reflexivity.
Qed.

(** One pass: what the [try] block returned, or the [except] clause after
    an instance of Exception, or the exception itself otherwise. *)
Lemma pass_run (n : N) (self : RealtimeTranslator float) :
  pass n self =
    match body n self with
    | (inl a, st) => (inl a, st)
    | (inr e, st) =>
        if is_Exception e then (inl (Recovered e), slept st) else (inr e, st)
    end.
Proof.
  unfold cycle, try_except.
  destruct (body n self) as [[a|e] st]; [reflexivity|].
  destruct (is_Exception e); reflexivity.
Qed.

Lemma loop_step (n : N) (fuel : nat) (self : RealtimeTranslator float) :
  running self = true ->
  loop n (S fuel) self =
    match pass n self with
    | (inl _, st) => loop n fuel (end_of_cycle sigint_during st)
    | (inr e, st) => (Raised e, st)
    end.
Proof. intros H. simpl. now rewrite H. Qed.

Lemma loop_stopped (n : N) (fuel : nat) (self : RealtimeTranslator float) :
  running self = false -> loop n fuel self = (Returned, self).
Proof. intros H. destruct fuel; simpl; now rewrite H. Qed.

(** C8. The speech gate.  The decision of [_has_speech] is the comparison
    "energy > 0.01" of the energy sqrt(mean(audio ** 2)); an energy below
    the threshold makes it false; and in a pass where it is false the rest
    of the pass is skipped: the pass ends with the chunk recorded, no
    transcriber call, the translator and the synthesizer untouched, and
    the loop goes on to its next test of the running flag. *)
Theorem speech_gate_short_circuit
    (n : N) (fuel : nat) (self : RealtimeTranslator float) (audio : list float) :
  let energy := np_sqrt (np_mean (np_square audio)) in
  (has_speech audio float_0_01 = true <-> np_compare energy float_0_01 = FGreater) /\
  (np_compare energy float_0_01 = FLess -> has_speech audio float_0_01 = false) /\
  (sd_rec (recordings self) n = inl audio ->
   has_speech audio float_0_01 = false ->
   pass n self = (inl NoSpeech, recorded self) /\
   stt (recorded self) = stt self /\
   translator_llm (recorded self) = translator_llm self /\
   tts (recorded self) = tts self /\
   (running self = true ->
    loop n (S fuel) self = loop n fuel (end_of_cycle sigint_during (recorded self)))).
Proof.
  intros energy. unfold _has_speech. fold energy.
  split; [|split].
  - destruct (np_compare energy float_0_01); split; congruence.
  - now intros ->.
  - intros Hrec Hgate.
    assert (Hpass : pass n self = (inl NoSpeech, recorded self)).
    { rewrite pass_run, (body_no_speech n self audio Hrec); [reflexivity|].
      exact Hgate. }
    repeat split; try exact Hpass.
    intros Hrun. now rewrite (loop_step n fuel self Hrun), Hpass.
Qed.

(** C5. Identity-pair skip.  In a pass whose transcript resolves to the
    target language, the pass ends before the translation step: once the
    chunk is recorded and transcribed nothing else happens, so the
    translator (its cache and its engine) and the synthesizer are as they
    were, nothing was raised, and the loop goes on to its next test of the
    running flag.  (A blank transcript ends the pass one step earlier,
    with the same effect.) *)
Theorem same_language_skips_translation
    (n : N) (fuel : nat) (self : RealtimeTranslator float)
    (audio : list float) (tr : Transcript) :
  sd_rec (recordings self) n = inl audio ->
  has_speech audio float_0_01 = true ->
  heard whisper audio self = inl tr ->
  resolved lower (tr_language tr) self = tgt_lang self ->
  let after := transcribed (stt_call audio self) self in
  pass n self
  = (inl (if truthy (strip (tr_text tr)) then SameLanguage else EmptyTranscription),
     after) /\
  translator_llm after = translator_llm self /\
  tts after = tts self /\
  sleeps after = sleeps self /\
  (running self = true ->
   loop n (S fuel) self = loop n fuel (end_of_cycle sigint_during after)).
Proof.
  intros Hrec Hgate Hstt Hsame after.
  assert (Hpass : pass n self
    = (inl (if truthy (strip (tr_text tr)) then SameLanguage else EmptyTranscription),
       after)).
  { rewrite pass_run, (body_transcribe n self audio Hrec Hgate), Hstt.
    destruct (truthy (strip (tr_text tr))); cbn [negb]; [|reflexivity].
    now rewrite (bool_decide_eq_true_2 _ Hsame). }
  repeat split; try exact Hpass.
  intros Hrun. rewrite (loop_step n fuel self Hrun), Hpass. reflexivity.
Qed.

(** The wrapper with a prompt that matches and two supported codes: the
    call reaches [translate] with the trimmed text. *)
Lemma call_run (prompt g1 g2 g3 : str) (t : MBARTTranslator) :
  re_match (strip prompt) = Some (g1, g2, g3) ->
  list_in (lower g1) supported = true ->
  list_in (lower g2) supported = true ->
  invoke engine re_match lower prompt t
  = translate engine (strip g3) (lower g1) (lower g2) t.
Proof.
  intros Hm H1 H2. unfold invoke, _call. rewrite Hm, H1, H2. cbn [negb].
  rewrite bind_run.
  destruct (translate engine (strip g3) (lower g1) (lower g2) t) as [[r|e] t'];
    reflexivity.
Qed.

(** The wrapper checks the two codes before it calls [translate]: with a
    code outside its list it raises even when the key is stored. *)
Lemma call_validates_before_lookup (prompt g1 g2 g3 : str) (t : MBARTTranslator) :
  re_match (strip prompt) = Some (g1, g2, g3) ->
  list_in (lower g1) supported = false \/ list_in (lower g2) supported = false ->
  exists msg, invoke engine re_match lower prompt t = (inr (ValueError msg), t).
Proof.
  intros Hm Hbad. unfold invoke, _call. rewrite Hm.
  destruct (list_in (lower g1) supported) eqn:H1; cbn [negb]; [|eauto].
  destruct Hbad as [Hbad|H2]; [discriminate|]. rewrite H2. cbn [negb]. eauto.
Qed.

Lemma call_catchable (prompt : str) :
  (forall calls c, caught (engine calls c)) ->
  catchable (invoke engine re_match lower prompt).
Proof.
  intros He. unfold invoke, _call.
  destruct (re_match (strip prompt)) as [[[g1 g2] g3]|];
    [|apply catchable_raise; reflexivity].
  repeat apply catchable_if; try (apply catchable_raise; reflexivity).
  apply catchable_bind; [now apply translate_catchable|].
  intros r. apply catchable_ret.
Qed.

Lemma on_llm_catchable {A} (m : M MBARTTranslator A) :
  catchable m -> catchable (on_llm (float:=float) m).
Proof.
  intros Hm st e st' H. unfold on_llm in H.
  destruct (m (translator_llm st)) as [r t] eqn:E.
  inversion H; subst. exact (Hm _ _ _ E).
Qed.

Lemma on_stt_transcribe_catchable (audio : list float) (language : option str) (rate : N) :
  (forall calls c, caught (whisper calls c)) ->
  catchable (on_stt (transcribe whisper audio language rate)).
Proof.
  intros Hw st e st' H. unfold on_stt in H.
  pose proof (transcribe_answer audio language rate (stt st)) as Ha.
  destruct (transcribe whisper audio language rate (stt st)) as [r t].
  inversion H; subst. simpl in Ha. exact (Hw _ _ _ Ha).
Qed.

Lemma on_tts_speak_catchable (text language : str) (save_path : option str) :
  synthesis_contained pyttsx3_run gtts_save player os_remove ->
  (forall out x, contained (console out x)) ->
  catchable (on_tts (float:=float) (say text language save_path)).
Proof.
  intros Hs Hc st e st' H. unfold on_tts in H.
  pose proof (speak_catchable pyttsx3_run gtts_save player os_remove console upper
                text language save_path Hs Hc (tts st)) as Hcatch.
  destruct (say text language save_path (tts st)) as [r t].
  inversion H; subst. exact (Hcatch e t eq_refl).
Qed.

(** With collaborators that raise nothing outside the class Exception,
    neither does the [try] block. *)
Lemma body_catchable (n : N) :
  collaborators_contained whisper engine pyttsx3_run gtts_save player os_remove console sd_rec ->
  catchable (body n).
Proof.
  intros (Hd & Hw & He & Hs & Hc). unfold cycle_body.
  apply catchable_bind.
  { intros st e st' H. rewrite record_audio_run in H. inversion H; subst.
    eapply Hd; eauto. }
  intros audio. apply catchable_if; [apply catchable_ret|].
  apply catchable_bind; [apply catchable_get|]. intros self.
  apply catchable_bind; [now apply on_stt_transcribe_catchable|].
  intros tr. apply catchable_if; [apply catchable_ret|].
  apply catchable_if; [apply catchable_ret|].
  apply catchable_bind; [apply on_llm_catchable, call_catchable, He|].
  intros translation.
  apply catchable_bind; [now apply on_tts_speak_catchable|]. intros _.
  apply catchable_bind; [|intros; apply catchable_ret].
  apply on_llm_catchable. unfold get_cache_size.
  apply catchable_bind; [apply catchable_get|intros; apply catchable_ret].
Qed.

(** A pass with healthy collaborators runs to the end of the [try] block:
    the translation is spoken in the target language. *)
Lemma body_speaks (n : N) (self : RealtimeTranslator float) (translation : str) :
  fit n self translation ->
  exists audio t',
    body n self
    = (inl Spoke,
       set_tts (snd (say translation (tgt_lang self) None (tts self)))
         (set_translator_llm t' (transcribed (stt_call audio self) self))).
Proof.
  intros (audio & tr & g1 & g2 & g3 & Hrec & Hgate & Hstt & Htext & Hne & Hm & H1 & H2
          & Htr & Hs & Hc).
  exists audio, (snd (translate engine (strip g3) (lower g1) (lower g2) (translator_llm self))).
  rewrite (body_transcribe n self audio Hrec Hgate), Hstt, Htext. cbn [negb].
  rewrite (bool_decide_eq_false_2 _ Hne).
  rewrite bind_run. unfold on_llm at 1.
  change (translator_llm (transcribed _ self)) with (translator_llm self).
  rewrite (call_run _ g1 g2 g3 _ Hm H1 H2).
  destruct (translate engine (strip g3) (lower g1) (lower g2) (translator_llm self))
    as [r t'] eqn:Et.
  simpl in Htr. subst r. cbn [snd].
  rewrite bind_run. unfold on_tts at 1.
  change (tts (set_translator_llm t' _)) with (tts self).
  change (tgt_lang (transcribed _ self)) with (tgt_lang self).
  pose proof (speak_returns pyttsx3_run gtts_save player os_remove console upper
                translation (tgt_lang self) None (tts self) Hs Hc) as Hret.
  destruct (say translation (tgt_lang self) None (tts self)) as [r t2].
  simpl in Hret. subst r. reflexivity.
Qed.

(** With collaborators that raise nothing outside the class Exception,
    no exception leaves the loop, however many passes it makes. *)
Lemma loop_never_raises (n : N) (fuel : nat) (self : RealtimeTranslator float) :
  collaborators_contained whisper engine pyttsx3_run gtts_save player os_remove console sd_rec ->
  forall e, fst (loop n fuel self) <> Raised e.
Proof.
  intros Hc. revert self.
  induction fuel as [|fuel IH]; intros self e.
  - simpl. destruct (running self); discriminate.
  - destruct (running self) eqn:Hrun.
    2:{ rewrite loop_stopped by assumption. discriminate. }
    rewrite (loop_step n fuel self Hrun), pass_run.
    destruct (body n self) as [[a|e0] st] eqn:Eb.
    + apply IH.
    + rewrite (body_catchable n Hc self e0 st Eb). apply IH.
Qed.

(** C2, as the code has it.  While the running flag is set: an instance of
    Exception raised anywhere in the [try] block of a pass is caught by
    the [except] clause of that pass, the loop sleeps once and goes on to
    its next test of the running flag; if the flag is still set then and
    the collaborators are healthy, the next pass runs to its end and the
    translation is spoken; and when no collaborator raises anything
    outside the class Exception, no exception leaves the loop.  An
    exception that is not an instance of Exception is not caught: it
    leaves the pass and the loop at once, without a pause and without
    another pass. *)
Theorem cycle_isolation
    (n : N) (fuel : nat) (self : RealtimeTranslator float) :
  (forall (e : exn) (st : RealtimeTranslator float),
     running self = true ->
     body n self = (inr e, st) ->
     is_Exception e = true ->
     let next := end_of_cycle sigint_during (slept st) in
     pass n self = (inl (Recovered e), slept st) /\
     sleeps (slept st) = S (sleeps st) /\
     loop n (S fuel) self = loop n fuel next /\
     forall translation : str,
       running next = true ->
       fit n next translation ->
       exists done : RealtimeTranslator float,
         pass n next = (inl Spoke, done) /\
         tts done = snd (say translation (tgt_lang next) None (tts next)) /\
         loop n (S (S fuel)) self = loop n fuel (end_of_cycle sigint_during done)) /\
  (collaborators_contained whisper engine pyttsx3_run gtts_save player os_remove console sd_rec ->
   forall e, fst (loop n fuel self) <> Raised e) /\
  (forall (e : exn) (st : RealtimeTranslator float),
     running self = true ->
     body n self = (inr e, st) ->
     is_Exception e = false ->
     pass n self = (inr e, st) /\
     loop n (S fuel) self = (Raised e, st)).
Proof.
  split; [|split; [apply loop_never_raises|]].
  - intros e st Hrun Hbody He next.
    assert (Hpass : pass n self = (inl (Recovered e), slept st)).
    { now rewrite pass_run, Hbody, He. }
    assert (Hloop : forall k, loop n (S k) self = loop n k next).
    { intros k. now rewrite (loop_step n k self Hrun), Hpass. }
    repeat split; auto.
    intros translation Hnext Hhealthy.
    destruct (body_speaks n next translation Hhealthy) as (audio & t' & Hb).
    eexists. split; [|split].
    + rewrite pass_run, Hb. reflexivity.
    + reflexivity.
    + rewrite Hloop, (loop_step n fuel next Hnext), pass_run, Hb. reflexivity.
  - intros e st Hrun Hbody He.
    assert (Hpass : pass n self = (inr e, st)).
    { now rewrite pass_run, Hbody, He. }
    split; [exact Hpass|].
    now rewrite (loop_step n fuel self Hrun), Hpass.
Qed.

End LoopFacts.

(** *** The orchestrator on concrete sessions *)

Import STT Realtime.

(** The stand-in matcher on the prompt the loop builds. *)
Example stub_re_match_prompt :
  Stub.re_match (s "TRANSLATE from en to hi: Hello, how are you?")
  = Some (s "en", s "hi", s "Hello, how are you?").
Proof. reflexivity. Qed.

(** The stand-ins for the synthesis libraries raise nothing outside the
    class Exception. *)
Lemma stub_synthesis_contained :
  TTS.synthesis_contained Stub.pyttsx3_down Stub.gtts_up Stub.player_up Stub.remove_up.
Proof.
  repeat split; intros; intros e H; try discriminate H.
  injection H as <-. reflexivity.
Qed.

(** A session as the constructor leaves it, before [start] sets the
    running flag; an unsupported target is refused. *)
Example session_init :
  __init__ (s "auto") (s "hi") 30000%Z 16000 (mkSTT []) Stub.fresh Stub.synthesizer
  = inl (set_running false (Stub.session (s "auto") (s "hi"))) /\
  __init__ (s "en") (s "de") 30000%Z 16000 (mkSTT []) Stub.fresh Stub.synthesizer
  = inr (ValueError (s "Unsupported target language: de")).
Proof. split; reflexivity. Qed.

(** A device that always delivers a chunk and a model that fails once
    with an instance of Exception stay within [except Exception]. *)
Lemma stub_collaborators_contained :
  collaborators_contained (Stub.transcriber Stub.fails_once) Stub.engine
    Stub.pyttsx3_down Stub.gtts_up Stub.player_up Stub.remove_up Stub.console_up
    (Stub.microphone [inl Stub.speech; inl Stub.speech]).
Proof.
  split; [|split; [|split; [|split]]].
  - intros k m e H. unfold Stub.microphone in H.
    destruct k as [|[|[|k]]]; discriminate H.
  - intros calls c e H. unfold Stub.transcriber in H.
    destruct calls as [|c1 [|c2 [|c3 calls]]]; simpl in H; try discriminate H.
    injection H as <-. reflexivity.
  - intros calls c e H. unfold Stub.engine in H.
    repeat (destruct (bool_decide _) in H; [discriminate H|]).
    injection H as <-. reflexivity.
  - exact stub_synthesis_contained.
  - intros out x e H. discriminate H.
Qed.

(** C2 as stated fails on what is raised outside the class Exception.
    The transcriber is interrupted from the keyboard in the first pass
    while the running flag is set: the exception leaves the loop, no sleep
    is made and the second pass never begins, although the flag is still
    set.  A keyboard interrupt ends in [start]. *)
Lemma interrupt_leaves_run_loop_counterexample :
  let self := Stub.session (s "en") (s "hi") in
  let mic := Stub.microphone [inl Stub.speech; inl Stub.speech] in
  let whisper := Stub.transcriber Stub.interrupted in
  let out := Stub.loop mic whisper Stub.no_sigint 48000 2 self in
  running self = true /\
  fst out = Raised KeyboardInterrupt /\
  running (snd out) = true /\
  recordings (snd out) = 1%nat /\
  sleeps (snd out) = 0%nat /\
  fst (start Stub.np_square Stub.np_mean Stub.np_sqrt Stub.np_compare Stub.float_0_01
         Stub.int_of_product whisper Stub.engine Stub.re_match Stub.lower Stub.upper
         Stub.pyttsx3_down Stub.gtts_up Stub.player_up Stub.remove_up Stub.console_up mic
         Stub.no_sigint Stub.signal_up 2 self) = Returned.
Proof. vm_compute. repeat split. Qed.

Lemma cycle_isolation_witness :
  let self := Stub.session (s "en") (s "hi") in
  let mic := Stub.microphone [inl Stub.speech; inl Stub.speech] in
  let whisper := Stub.transcriber Stub.fails_once in
  exists broken done,
    Stub.pass mic whisper 48000 self
    = (inl (Recovered (Error (s "RuntimeError") (s "transcription failed"))), broken) /\
    sleeps broken = 1%nat /\
    Stub.pass mic whisper 48000 (end_of_cycle Stub.no_sigint broken) = (inl Spoke, done) /\
    TTS.gtts_calls (tts done) = [TTS.mkGttsCall (s "namaste") (s "hi") None] /\
    size (Translator.cache (translator_llm done)) = 1%nat /\
    (forall e, fst (Stub.loop mic whisper Stub.no_sigint 48000 2 self) <> Raised e) /\
    Stub.loop mic (Stub.transcriber Stub.interrupted) Stub.no_sigint 48000 3 self
    = (Raised KeyboardInterrupt, transcribed (stt_call Stub.speech self) self).
Proof.
  intros self mic whisper.
  destruct (cycle_isolation Z Stub.np_square Stub.np_mean Stub.np_sqrt Stub.np_compare
              Stub.float_0_01 whisper Stub.engine Stub.re_match Stub.lower Stub.upper
              Stub.pyttsx3_down Stub.gtts_up Stub.player_up Stub.remove_up Stub.console_up mic
              Stub.no_sigint 48000 2%nat self)
    as (Hcatch & Hnever & _).
  destruct (Hcatch (Error (s "RuntimeError") (s "transcription failed"))
              (transcribed (stt_call Stub.speech self) self))
    as (Hpass & Hsleep & _ & Hnext).
  - reflexivity.
  - reflexivity.
  - reflexivity.
  - destruct (Hnext (s "namaste")) as (done & Hdone & Htts & _).
    + reflexivity.
    + exists Stub.speech, (mkTranscript (s "Hello") (s "en")), (s "en"), (s "hi"), (s "Hello").
      repeat split; try reflexivity.
      * vm_compute. discriminate.
      * apply stub_synthesis_contained.
      * apply stub_synthesis_contained.
      * apply stub_synthesis_contained.
      * apply stub_synthesis_contained.
    + exists (slept (transcribed (stt_call Stub.speech self) self)), done.
      split; [exact Hpass|]. split; [reflexivity|]. split; [exact Hdone|].
      split; [rewrite Htts; reflexivity|]. split.
      * change (Stub.pass mic whisper 48000
                  (end_of_cycle Stub.no_sigint
                     (slept (transcribed (stt_call Stub.speech self) self)))
                = (inl Spoke, done)) in Hdone.
        apply (f_equal snd) in Hdone. simpl in Hdone. rewrite <- Hdone.
        vm_compute. reflexivity.
      * split; [exact (Hnever stub_collaborators_contained)|].
        destruct (cycle_isolation Z Stub.np_square Stub.np_mean Stub.np_sqrt
                    Stub.np_compare Stub.float_0_01 (Stub.transcriber Stub.interrupted)
                    Stub.engine Stub.re_match Stub.lower Stub.upper Stub.pyttsx3_down
                    Stub.gtts_up Stub.player_up Stub.remove_up Stub.console_up mic
                    Stub.no_sigint 48000 2%nat self)
          as (_ & _ & Hleave).
        destruct (Hleave KeyboardInterrupt (transcribed (stt_call Stub.speech self) self))
          as [_ Hloop]; [reflexivity | reflexivity | reflexivity | exact Hloop].
Defined.

Lemma same_language_skips_translation_witness :
  let self := Stub.session (s "auto") (s "en") in
  let mic := Stub.microphone [inl Stub.speech] in
  let whisper := Stub.transcriber Stub.hears_english in
  resolved Stub.lower (s "EN") self = s "en" /\
  Stub.pass mic whisper 48000 self
  = (inl SameLanguage, transcribed (stt_call Stub.speech self) self) /\
  translator_llm (transcribed (stt_call Stub.speech self) self) = Stub.fresh.
Proof.
  intros self mic whisper.
  destruct (same_language_skips_translation Z Stub.np_square Stub.np_mean Stub.np_sqrt
              Stub.np_compare Stub.float_0_01 whisper Stub.engine Stub.re_match
              Stub.lower Stub.upper Stub.pyttsx3_down Stub.gtts_up Stub.player_up
              Stub.remove_up Stub.console_up mic Stub.no_sigint
              48000 0%nat self Stub.speech (mkTranscript (s "Hello") (s "EN")))
    as (Hpass & Hllm & _).
  - reflexivity.
  - reflexivity.
  - reflexivity.
  - reflexivity.
  - split; [reflexivity|]. split; [exact Hpass | exact Hllm].
Defined.

Lemma speech_gate_short_circuit_witness :
  let self := Stub.session (s "auto") (s "en") in
  let mic := Stub.microphone [inl Stub.silence] in
  let whisper := Stub.transcriber Stub.hears_english in
  _has_speech Stub.np_square Stub.np_mean Stub.np_sqrt Stub.np_compare
    Stub.silence Stub.float_0_01 = false /\
  Stub.pass mic whisper 48000 self = (inl NoSpeech, recorded self) /\
  whisper_calls (stt (recorded self)) = [].
Proof.
  intros self mic whisper.
  destruct (speech_gate_short_circuit Z Stub.np_square Stub.np_mean Stub.np_sqrt
              Stub.np_compare Stub.float_0_01 whisper Stub.engine Stub.re_match
              Stub.lower Stub.upper Stub.pyttsx3_down Stub.gtts_up Stub.player_up
              Stub.remove_up Stub.console_up mic Stub.no_sigint 48000 0%nat self Stub.silence)
    as (_ & Hbelow & Hskip).
  destruct Hskip as (Hpass & Hstt & _).
  - reflexivity.
  - apply Hbelow. reflexivity.
  - split; [apply Hbelow; reflexivity|]. split; [exact Hpass|].
    rewrite Hstt. reflexivity.
Defined.

(** * Further properties of the code *)

(** ** translator.py: the cache as a whole *)

Section CacheFacts.
Import Translator.

Variable engine : list EngineCall -> EngineCall -> str + exn.

(** What one call of [translate] does to the object. *)
Lemma translate_effect (text src tgt : str) (self : MBARTTranslator) :
  let out := translate engine text src tgt self in
  cache self ⊆ cache (snd out) /\
  (length (engine_calls (snd out)) <= S (length (engine_calls self)))%nat /\
  (cache (snd out) = cache self \/
   exists r, fst out = inl r /\
             cache self !! cache_key text src tgt = None /\
             cache (snd out) = <[cache_key text src tgt := r]> (cache self) /\
             size (cache (snd out)) = S (size (cache self)) /\
             length (engine_calls (snd out)) = S (length (engine_calls self))).
Proof.
  intros out. subst out.
  destruct (cache self !! cache_key text src tgt) as [hit|] eqn:Hk.
  { rewrite (translate_hit _ _ _ _ _ _ Hk). simpl. auto with lia. }
  destruct (validate_language src) eqn:Hs.
  2:{ rewrite translate_bad_source by assumption. simpl. auto with lia. }
  destruct (validate_language tgt) eqn:Ht.
  2:{ rewrite translate_bad_target by assumption. simpl. auto with lia. }
  apply validate_language_code in Hs as [sc Hs].
  apply validate_language_code in Ht as [tc Ht].
  rewrite (translate_miss _ _ _ _ _ _ _ Hk Hs Ht).
  destruct (engine _ _) as [r|e]; simpl; rewrite length_app; simpl.
  - split; [now apply insert_subseteq|]. split; [lia|]. right. exists r.
    repeat split; auto; [now apply map_size_insert_None | lia].
  - split; [reflexivity|]. split; [lia|]. now left.
Qed.

(** X1. One call of [translate] never removes or changes an entry and runs
    the engine at most once.  The cache grows exactly when a miss was
    answered by the engine, that is, when the key is not stored, both
    codes are supported and the engine returns a string: then that string
    is returned and stored under the call's key, the cache has one entry
    more and the engine one run more.  In every other case (a hit, an
    unsupported code, an engine that raises) the cache is as it was. *)
Theorem translate_cache_grows (text src tgt : str) (self : MBARTTranslator) :
  let out := translate engine text src tgt self in
  let key := cache_key text src tgt in
  let answered (r : str) :=
    exists sc tc,
      cache self !! key = None /\
      dict_get LANG_CODE_MAP src = Some sc /\
      dict_get LANG_CODE_MAP tgt = Some tc /\
      engine (engine_calls self) (mkCall sc tc text) = inl r in
  cache self ⊆ cache (snd out) /\
  (length (engine_calls (snd out)) <= S (length (engine_calls self)))%nat /\
  ((exists r, answered r /\
              fst out = inl r /\
              cache (snd out) = <[key := r]> (cache self) /\
              size (cache (snd out)) = S (size (cache self)) /\
              length (engine_calls (snd out)) = S (length (engine_calls self))) \/
   ((forall r, ~ answered r) /\ cache (snd out) = cache self)).
Proof.
  cbv zeta.
  destruct (cache self !! cache_key text src tgt) as [hit|] eqn:Hk.
  { rewrite (translate_hit _ _ _ _ _ _ Hk). cbn [fst snd].
    split; [reflexivity|]. split; [lia|]. right.
    split; [|reflexivity]. intros r (sc & tc & Hnone & _). discriminate. }
  destruct (validate_language src) eqn:Hs.
  2:{ rewrite translate_bad_source by assumption. cbn [fst snd].
      split; [reflexivity|]. split; [lia|]. right.
      split; [|reflexivity]. intros r (sc & tc & _ & Hsc & _).
      assert (validate_language src = true) by (apply validate_language_code; eauto).
      congruence. }
  destruct (validate_language tgt) eqn:Ht.
  2:{ rewrite translate_bad_target by assumption. cbn [fst snd].
      split; [reflexivity|]. split; [lia|]. right.
      split; [|reflexivity]. intros r (sc & tc & _ & _ & Htc & _).
      assert (validate_language tgt = true) by (apply validate_language_code; eauto).
      congruence. }
  apply validate_language_code in Hs as [sc Hs].
  apply validate_language_code in Ht as [tc Ht].
  rewrite (translate_miss _ _ _ _ _ _ _ Hk Hs Ht).
  destruct (engine (engine_calls self) (mkCall sc tc text)) as [r|e] eqn:He;
    cbn [fst snd cache engine_calls]; rewrite length_app; cbn [length].
  - split; [now apply insert_subseteq|]. split; [lia|]. left. exists r.
    split; [exists sc, tc; auto|]. split; [reflexivity|]. split; [reflexivity|].
    split; [now apply map_size_insert_None | lia].
  - split; [reflexivity|]. split; [lia|]. right.
    split; [|reflexivity]. intros r (sc' & tc' & _ & Hsc & Htc & Hans).
    rewrite Hs in Hsc. rewrite Ht in Htc.
    injection Hsc as <-. injection Htc as <-. congruence.
Qed.

Lemma translate_valid_keys (text src tgt : str) (self : MBARTTranslator) :
  valid_keys self -> valid_keys (snd (translate engine text src tgt self)).
Proof.
  intros Hv.
  destruct (translate_effect text src tgt self) as (_ & _ & [Heq|Hnew]).
  - unfold valid_keys. now rewrite Heq.
  - destruct Hnew as (r & Hr & Hk & Hc & _).
    assert (Hcodes : validate_language src = true /\ validate_language tgt = true).
    { destruct (validate_language src) eqn:Hs.
      - destruct (validate_language tgt) eqn:Ht; [auto|].
        rewrite translate_bad_target in Hr by assumption. discriminate.
      - rewrite translate_bad_source in Hr by assumption. discriminate. }
    intros src' tgt' text' hit. rewrite Hc. unfold cache_key.
    intros [[[= <- <- <-] _]|[_ Hold]]%lookup_insert_Some.
    + destruct Hcodes. auto using strip_idempotent.
    + exact (Hv _ _ _ _ Hold).
Qed.

Lemma translate_paid_for (text src tgt : str) (self : MBARTTranslator) :
  paid_for self -> paid_for (snd (translate engine text src tgt self)).
Proof.
  unfold paid_for. intros Hp.
  destruct (translate_effect text src tgt self) as (Hsub & _ & [Heq|Hnew]).
  - rewrite Heq.
    destruct (cache self !! cache_key text src tgt) as [hit|] eqn:Hk.
    { now rewrite (translate_hit _ _ _ _ _ _ Hk). }
    destruct (validate_language src) eqn:Hs.
    2:{ now rewrite translate_bad_source. }
    destruct (validate_language tgt) eqn:Ht.
    2:{ now rewrite translate_bad_target. }
    apply validate_language_code in Hs as [sc Hs].
    apply validate_language_code in Ht as [tc Ht].
    rewrite (translate_miss _ _ _ _ _ _ _ Hk Hs Ht).
    destruct (engine _ _); simpl; rewrite length_app; simpl; lia.
  - destruct Hnew as (r & _ & _ & _ & Hsize & Hlen). lia.
Qed.

(** X2. Starting from the empty cache of a new translator, after any sequence
    of [translate], [clear_cache] and [get_cache_size] calls, with any
    engine: every key in the cache has two supported codes and a trimmed
    text, and the cache holds no more entries than the engine was run. *)
Theorem cache_invariants (ops : list Operation) :
  valid_keys (perform_all engine ops Stub.fresh) /\
  paid_for (perform_all engine ops Stub.fresh).
Proof.
  assert (Hgen : forall t, valid_keys t /\ paid_for t ->
                           valid_keys (perform_all engine ops t) /\
                           paid_for (perform_all engine ops t)).
  { induction ops as [|op ops IH]; intros t Ht; [exact Ht|].
    apply IH. destruct Ht as [Hv Hp]. destruct op as [text src tgt| |]; simpl.
    - split; [now apply translate_valid_keys | now apply translate_paid_for].
    - split.
      + intros src tgt text hit H. simpl in H. now rewrite lookup_empty in H.
      + unfold paid_for. simpl. rewrite map_size_empty. lia.
    - split; assumption. }
  apply Hgen. split.
  - intros src tgt text hit H. simpl in H. now rewrite lookup_empty in H.
  - unfold paid_for. simpl. rewrite map_size_empty. lia.
Qed.

(** X3. A run of the engine that raises is not remembered: the exception
    comes out of [translate], the cache is as before, and the next call
    with the same arguments runs the engine again. *)
Theorem failed_translation_is_retried
    (text src tgt sc tc : str) (e : exn) (self : MBARTTranslator) :
  dict_get LANG_CODE_MAP src = Some sc ->
  dict_get LANG_CODE_MAP tgt = Some tc ->
  cache self !! cache_key text src tgt = None ->
  engine (engine_calls self) (mkCall sc tc text) = inr e ->
  let first := translate engine text src tgt self in
  let second := translate engine text src tgt (snd first) in
  fst first = inr e /\
  cache (snd first) = cache self /\
  engine_calls (snd second)
  = engine_calls self ++ [mkCall sc tc text; mkCall sc tc text] /\
  fst second
  = match engine (engine_calls self ++ [mkCall sc tc text]) (mkCall sc tc text) with
    | inl r => inl r
    | inr e' => inr e'
    end.
Proof.
  intros Hs Ht Hk He first second.
  assert (Hfirst : first = (inr e, mkTranslator (cache self)
                                     (engine_calls self ++ [mkCall sc tc text]))).
  { unfold first. now rewrite (translate_miss _ _ _ _ _ _ _ Hk Hs Ht), He. }
  unfold second. rewrite Hfirst. simpl.
  rewrite (translate_miss engine text src tgt sc tc
             (mkTranslator (cache self) (engine_calls self ++ [mkCall sc tc text]))
             Hk Hs Ht).
  simpl.
  destruct (engine (engine_calls self ++ _) _); simpl; rewrite <- app_assoc;
    repeat split.
Qed.

(** X4. [clear_cache] empties the cache and keeps the engine: the size is 0
    afterwards, and a request that was a hit before is a miss again, so
    the engine is run for it once more. *)
Theorem clear_cache_forces_new_run
    (text src tgt sc tc : str) (self : MBARTTranslator) :
  dict_get LANG_CODE_MAP src = Some sc ->
  dict_get LANG_CODE_MAP tgt = Some tc ->
  let cleared := snd (clear_cache self) in
  fst (clear_cache self) = inl tt /\
  fst (get_cache_size cleared) = inl 0%nat /\
  engine_calls cleared = engine_calls self /\
  engine_calls (snd (translate engine text src tgt cleared))
  = engine_calls self ++ [mkCall sc tc text].
Proof.
  intros Hs Ht cleared.
  assert (Hc : cleared = mkTranslator ∅ (engine_calls self)) by reflexivity.
  split; [reflexivity|]. split; [reflexivity|]. split; [reflexivity|].
  rewrite Hc, (translate_miss engine text src tgt sc tc _ (lookup_empty _) Hs Ht).
  simpl. now destruct (engine _ _).
Qed.

(** X5. [validate_language] accepts exactly the codes [get_supported_languages]
    lists, and these are en, hi, te, ta, kn in this order. *)
Theorem validate_language_iff_listed (l : str) :
  (validate_language l = true <-> l ∈ get_supported_languages) /\
  get_supported_languages = [s "en"; s "hi"; s "te"; s "ta"; s "kn"].
Proof.
  split; [|reflexivity].
  change get_supported_languages with [s "en"; s "hi"; s "te"; s "ta"; s "kn"].
  apply validate_language_members.
Qed.

End CacheFacts.

Import Translator.

Lemma failed_translation_is_retried_witness :
  let first := translate Stub.engine (s "Bonjour") (s "en") (s "hi") Stub.fresh in
  fst first = inr (Error (s "RuntimeError") (s "out of memory")) /\
  cache (snd first) = ∅ /\
  length (engine_calls (snd (translate Stub.engine (s "Bonjour") (s "en") (s "hi")
                               (snd first)))) = 2%nat.
Proof.
  destruct (failed_translation_is_retried Stub.engine (s "Bonjour") (s "en") (s "hi")
              (s "en_XX") (s "hi_IN") (Error (s "RuntimeError") (s "out of memory"))
              Stub.fresh)
    as (H1 & H2 & H3 & _).
  - reflexivity.
  - reflexivity.
  - apply lookup_empty.
  - reflexivity.
  - split; [exact H1|]. split; [exact H2|]. rewrite H3. reflexivity.
Defined.

Lemma clear_cache_forces_new_run_witness :
  let cleared := snd (clear_cache Stub.prefilled) in
  fst (get_cache_size cleared) = inl 0%nat /\
  engine_calls (snd (translate Stub.engine (s "Hello") (s "en") (s "hi") cleared))
  = [mkCall (s "en_XX") (s "hi_IN") (s "Hello")].
Proof.
  destruct (clear_cache_forces_new_run Stub.engine (s "Hello") (s "en") (s "hi")
              (s "en_XX") (s "hi_IN") Stub.prefilled)
    as (_ & H2 & _ & H4).
  - reflexivity.
  - reflexivity.
  - split; [exact H2 | exact H4].
Defined.

(** ** langchain_llm.py: the prompt and its pattern *)

Lemma lstrip_app_keeps (u v : str) :
  lstrip u <> [] -> lstrip (u ++ v) = lstrip u ++ v.
Proof.
  induction u as [|a u IH]; simpl; [congruence|].
  destruct (isspace a); auto.
Qed.

Lemma lstrip_app_space (sp u : str) :
  Forall (fun c => isspace c = true) sp -> lstrip (sp ++ u) = lstrip u.
Proof.
  induction 1 as [|c sp Hc _ IH]; simpl; [reflexivity|].
  now rewrite Hc.
Qed.

(** [lstrip] removes a run of whitespace from the front and nothing else. *)
Lemma lstrip_split (t : str) :
  exists sp, Forall (fun c => isspace c = true) sp /\ t = sp ++ lstrip t.
Proof.
  induction t as [|c t (sp & Hsp & IH)]; simpl.
  - exists []. split; [constructor | reflexivity].
  - destruct (isspace c) eqn:Hc.
    + exists (c :: sp). split; [now constructor|]. simpl. now rewrite <- IH.
    + exists []. split; [constructor | reflexivity].
Qed.

Lemma rstrip_app_keeps (x y : str) :
  rstrip y <> [] -> rstrip (x ++ y) = x ++ rstrip y.
Proof.
  unfold rstrip. intros H.
  rewrite rev_app_distr, lstrip_app_keeps, rev_app_distr, rev_involutive; [reflexivity|].
  intros E. apply H. now rewrite E.
Qed.

(** Trimming the two ends in either order gives the same text. *)
Lemma lstrip_rstrip (t : str) : lstrip (rstrip t) = rstrip (lstrip t).
Proof.
  destruct (lstrip t) as [|c l] eqn:E.
  - pose proof (lstrip_nil_inv t E) as Hall.
    unfold rstrip at 1. rewrite (lstrip_all_space (rev t)); [reflexivity|].
    now apply Forall_rev.
  - destruct (lstrip_split t) as (sp & Hsp & Ht). rewrite E in Ht.
    pose proof (lstrip_head t c l E) as Hc.
    rewrite Ht at 1.
    rewrite rstrip_app_keeps by (rewrite (rstrip_cons c l Hc); discriminate).
    rewrite (lstrip_app_space _ _ Hsp), (rstrip_cons c l Hc).
    apply lstrip_fixed, Hc.
Qed.

Lemma strip_nonblank (t : str) : truthy (strip t) = true -> rstrip t <> [].
Proof.
  intros H E. unfold rstrip in E.
  assert (Hl : lstrip (rev t) = []).
  { destruct (lstrip (rev t)); [reflexivity|].
    simpl in E. now destruct (rev l) in E. }
  assert (Hall : Forall (fun c => isspace c = true) t).
  { rewrite <- (rev_involutive t). apply Forall_rev, lstrip_nil_inv, Hl. }
  now rewrite (strip_all_space t Hall) in H.
Qed.

Section PatternFacts.

Import Regex.

Variable is_word : N -> bool.
Variable ieq : N -> N -> bool.

#[local] Abbreviation lit_match := (Regex.lit_match ieq).
#[local] Abbreviation run := (Regex.run is_word).
#[local] Abbreviation match_items := (Regex.match_items is_word ieq).
#[local] Abbreviation prompt_match := (Regex.prompt_match is_word ieq).

(** Under IGNORECASE a character still matches itself; a blank and a
    colon are not word characters. *)
Hypothesis ieq_refl : forall c, ieq c c = true.
Hypothesis blank_not_word : is_word 32 = false.
Hypothesis colon_not_word : is_word 58 = false.

Lemma lit_match_app (l t : str) : lit_match l (l ++ t) = Some t.
Proof.
  induction l as [|a l IH]; simpl; [reflexivity|].
  now rewrite ieq_refl.
Qed.

Lemma run_app (k : cls) (a rest : str) :
  Forall (fun c => in_cls is_word k c = true) a -> run k rest = O ->
  run k (a ++ rest) = length a.
Proof.
  intros Ha Hrest. induction Ha as [|c a Hc _ IH]; simpl; [exact Hrest|].
  now rewrite Hc, IH.
Qed.

Lemma descend_first {A} (try : nat -> option A) (min n : nat) (r : A) :
  (min <= n)%nat -> try n = Some r -> descend try min n = Some r.
Proof.
  intros Hle Htry. destruct n as [|n]; simpl.
  - destruct min; [|lia]. simpl. now rewrite Htry.
  - destruct (Nat.ltb_spec (S n) min) as [Hlt|_]; [lia|]. now rewrite Htry.
Qed.

Lemma match_lit (l : str) (p : list item) (t : str) :
  match_items (Lit l :: p) (l ++ t) = match_items p t.
Proof. simpl. now rewrite lit_match_app. Qed.

(** A repetition that can take a whole run and leave a rest the
    remaining items match does so, and gives nothing back. *)
Lemma match_rep (min : nat) (k : cls) (grouped : bool) (p : list item)
    (a rest : str) (groups : list str) :
  Forall (fun c => in_cls is_word k c = true) a -> run k rest = O ->
  (min <= length a)%nat ->
  match_items p rest = Some groups ->
  match_items (Rep min k grouped :: p) (a ++ rest)
  = Some (if grouped then a :: groups else groups).
Proof.
  intros Ha Hrest Hmin Hp. cbn [Regex.match_items].
  rewrite (run_app k a rest Ha Hrest).
  apply descend_first; [exact Hmin|].
  rewrite drop_app_length, take_app_length, Hp. reflexivity.
Qed.

Lemma run_no_space (u : str) : run Space (lstrip u) = O.
Proof.
  destruct (lstrip u) as [|c l] eqn:E; [reflexivity|].
  simpl. now rewrite (lstrip_head u c l E).
Qed.

Lemma all_any (t : str) : Forall (fun c => in_cls is_word Any c = true) t.
Proof. apply Forall_forall. reflexivity. Qed.

(** The groups of a prompt of the shape the loop builds: two words and a
    text that is not blank. *)
Lemma prompt_groups (a b text : str) :
  a <> [] -> Forall (fun c => is_word c = true) a ->
  b <> [] -> Forall (fun c => is_word c = true) b ->
  truthy (strip text) = true ->
  prompt_match (strip (s "TRANSLATE from " ++ a ++ s " to " ++ b ++ s ": " ++ text))
  = Some (a, b, strip text).
Proof.
  intros Ha Hwa Hb Hwb Htext.
  pose proof (strip_nonblank text Htext) as Hr.
  assert (Hstrip : strip (s "TRANSLATE from " ++ a ++ s " to " ++ b ++ s ": " ++ text)
                   = s "TRANSLATE from " ++ a ++ s " to " ++ b ++ s ":" ++ 32 :: rstrip text).
  { unfold strip.
    change (s "TRANSLATE from " ++ a ++ s " to " ++ b ++ s ": " ++ text)
      with (84 :: (s "RANSLATE from " ++ a ++ s " to " ++ b ++ s ": " ++ text)).
    rewrite lstrip_fixed by reflexivity.
    change (84 :: (s "RANSLATE from " ++ a ++ s " to " ++ b ++ s ": " ++ text))
      with (s "TRANSLATE from " ++ a ++ s " to " ++ b ++ s ": " ++ text).
    rewrite !(app_assoc _ _ text), (rstrip_app_keeps _ text Hr), <- !app_assoc.
    reflexivity. }
  rewrite Hstrip. unfold Regex.prompt_match, pattern.
  destruct (lstrip_split (32 :: rstrip text)) as (sp & Hsp & Hsplit).
  assert (Hrest : lstrip (32 :: rstrip text) = strip text).
  { change (lstrip (32 :: rstrip text)) with (lstrip (rstrip text)).
    apply lstrip_rstrip. }
  rewrite Hrest in Hsplit.
  assert (Hlen : (1 <= length (strip text))%nat).
  { destruct (strip text); [discriminate | simpl; lia]. }
  assert (Hfull : match_items
            [ Lit (s "TRANSLATE from "); Rep 1 Word true; Lit (s " to "); Rep 1 Word true;
              Lit (s ":"); Rep 0 Space false; Rep 1 Any true ]
            (s "TRANSLATE from " ++ a ++ s " to " ++ b ++ s ":" ++ 32 :: rstrip text)
          = Some [a; b; strip text]).
  { rewrite match_lit.
    apply (match_rep 1 Word true _ a _ [b; strip text]); auto.
    { change (run Word (32 :: (s "to " ++ b ++ s ":" ++ 32 :: rstrip text)) = O).
      cbn [Regex.run in_cls]. now rewrite blank_not_word. }
    { destruct a; [congruence | simpl; lia]. }
    rewrite match_lit.
    apply (match_rep 1 Word true _ b _ [strip text]); auto.
    { change (run Word (58 :: 32 :: rstrip text) = O).
      cbn [Regex.run in_cls]. now rewrite colon_not_word. }
    { destruct b; [congruence | simpl; lia]. }
    rewrite match_lit, Hsplit.
    apply (match_rep 0 Space false _ sp _ [strip text]); auto.
    { unfold strip. rewrite <- lstrip_rstrip. apply run_no_space. }
    { lia. }
    rewrite <- (app_nil_r (strip text)) at 1.
    apply (match_rep 1 Any true [] (strip text) [] []); auto using all_any. }
  now rewrite Hfull.
Qed.

(** *** What any match looks like *)

Lemma descend_sound {A} (try : nat -> option A) (min n : nat) (r : A) :
  descend try min n = Some r ->
  exists m, (min <= m <= n)%nat /\ try m = Some r.
Proof.
  induction n as [|n IH]; simpl.
  - destruct (Nat.ltb_spec 0 min); [discriminate|].
    destruct (try O) eqn:E; [|discriminate].
    intros [= <-]. exists O. split; [lia | exact E].
  - destruct (Nat.ltb_spec (S n) min); [discriminate|].
    destruct (try (S n)) eqn:E.
    + intros [= <-]. exists (S n). split; [lia | exact E].
    + intros Hd. destruct (IH Hd) as (m & Hm & Htry).
      exists m. split; [lia | exact Htry].
Qed.

Lemma run_take (k : cls) (t : str) (m : nat) :
  (m <= run k t)%nat ->
  Forall (fun c => in_cls is_word k c = true) (take m t) /\ length (take m t) = m.
Proof.
  revert m. induction t as [|c t IH]; intros m; simpl.
  - intros Hm. assert (m = O) as -> by lia. split; [constructor | reflexivity].
  - destruct m as [|m]; [split; [constructor | reflexivity]|].
    destruct (in_cls is_word k c) eqn:Hc; [|lia].
    intros Hm. destruct (IH m) as [Hall Hlen]; [lia|].
    simpl. split; [now constructor | now rewrite Hlen].
Qed.

Lemma lit_match_suffix (l t t' : str) :
  lit_match l t = Some t' -> exists pre, t = pre ++ t'.
Proof.
  revert t. induction l as [|a l IH]; intros t; simpl.
  - intros [= <-]. now exists [].
  - destruct t as [|b t]; [discriminate|].
    destruct (ieq a b); [|discriminate].
    intros H. destruct (IH t H) as [pre ->]. now exists (b :: pre).
Qed.

Lemma match_lit_inv (l : str) (p : list item) (t : str) (groups : list str) :
  match_items (Lit l :: p) t = Some groups ->
  exists pre t', t = pre ++ t' /\ match_items p t' = Some groups.
Proof.
  simpl. destruct (Regex.lit_match ieq l t) as [t'|] eqn:E; [|discriminate].
  intros H. destruct (lit_match_suffix l t t' E) as [pre Hpre]. eauto.
Qed.

Lemma match_rep_inv (min : nat) (k : cls) (grouped : bool) (p : list item)
    (t : str) (groups : list str) :
  match_items (Rep min k grouped :: p) t = Some groups ->
  exists m rest,
    (min <= m)%nat /\ length (take m t) = m /\
    Forall (fun c => in_cls is_word k c = true) (take m t) /\
    match_items p (drop m t) = Some rest /\
    groups = if grouped then take m t :: rest else rest.
Proof.
  cbn [Regex.match_items]. intros H.
  apply descend_sound in H as (m & Hm & Htry).
  destruct (Regex.match_items is_word ieq p (drop m t)) as [rest|] eqn:E; [|discriminate].
  injection Htry as <-.
  destruct (run_take k t m) as [Hall Hlen]; [lia|].
  exists m, rest. repeat split; auto. lia.
Qed.

Lemma run_any (t : str) : run Any t = length t.
Proof. induction t as [|c t IH]; simpl; [reflexivity | now rewrite IH]. Qed.

(** The last group takes all that is left, and at least one character
    must be left. *)
Lemma match_last (t : str) (groups : list str) :
  match_items [Rep 1 Any true] t = Some groups -> groups = [t] /\ t <> [].
Proof.
  cbn [Regex.match_items]. rewrite run_any.
  destruct t as [|c t]; [discriminate|].
  rewrite (descend_first _ 1 (length (c :: t)) [c :: t]).
  - intros [= <-]. split; [reflexivity | discriminate].
  - simpl. lia.
  - cbn [Regex.match_items]. now rewrite take_ge by lia.
Qed.

(** Whatever text the pattern matches: the first two groups are words
    of at least one character, and the third is what is left of the text
    up to its end, at least one character. *)
Lemma prompt_match_shape (t g1 g2 g3 : str) :
  prompt_match t = Some (g1, g2, g3) ->
  g1 <> [] /\ Forall (fun c => is_word c = true) g1 /\
  g2 <> [] /\ Forall (fun c => is_word c = true) g2 /\
  g3 <> [] /\ exists pre, t = pre ++ g3.
Proof.
  unfold Regex.prompt_match, pattern.
  destruct (Regex.match_items _ _ _ t) as [groups|] eqn:E; [|discriminate].
  apply match_lit_inv in E as (p0 & t1 & -> & E).
  apply match_rep_inv in E as (m1 & r1 & Hm1 & Hl1 & Hw1 & E & ->).
  apply match_lit_inv in E as (p1 & t2 & Ht2 & E).
  apply match_rep_inv in E as (m2 & r2 & Hm2 & Hl2 & Hw2 & E & ->).
  apply match_lit_inv in E as (p2 & t3 & Ht3 & E).
  apply match_rep_inv in E as (m3 & r3 & _ & _ & _ & E & ->).
  apply match_last in E as [-> Hne].
  intros [= <- <- <-].
  repeat split; auto.
  - intros E1. rewrite E1 in Hl1. simpl in Hl1. lia.
  - intros E2. rewrite E2 in Hl2. simpl in Hl2. lia.
  - exists (p0 ++ take m1 t1 ++ p1 ++ take m2 t2 ++ p2 ++ take m3 t3).
    rewrite <- !app_assoc.
    rewrite (take_drop m3 t3), <- Ht3, (take_drop m2 t2), <- Ht2, (take_drop m1 t1).
    reflexivity.
Qed.

(** The end of a trimmed text is not blank. *)
Lemma strip_suffix_nonblank (p pre g : str) :
  strip p = pre ++ g -> g <> [] -> strip g <> [].
Proof.
  intros Hp Hg Hs.
  pose proof (strip_nil_inv g Hs) as Hall.
  assert (Hrev : lstrip (rev (strip p)) = rev (strip p)).
  { unfold strip, rstrip. rewrite rev_involutive. apply lstrip_idempotent. }
  rewrite Hp, rev_app_distr in Hrev.
  destruct (rev g) as [|c l] eqn:Eg.
  - apply Hg. rewrite <- (rev_involutive g), Eg. reflexivity.
  - assert (Hc : isspace c = true).
    { apply Forall_rev in Hall. rewrite Eg in Hall. now inversion Hall. }
    simpl in Hrev. rewrite Hc in Hrev.
    pose proof (lstrip_split (l ++ rev pre)) as (sp & _ & Hsplit).
    rewrite Hrev in Hsplit.
    apply (f_equal (@length N)) in Hsplit.
    rewrite !length_app in Hsplit. simpl in Hsplit. rewrite !length_app in Hsplit. lia.
Qed.

End PatternFacts.

(** ** langchain_llm.py: the wrapper around the translator *)

Section WrapperFacts.
Import Translator LLM.

Variable engine : list EngineCall -> EngineCall -> str + exn.
Variable lower : str -> str.

(** The wrapper and the translator accept the same codes. *)
Lemma supported_is_validate_language (l : str) :
  list_in l supported = validate_language l.
Proof.
  unfold list_in, supported.
  destruct (validate_language l) eqn:E.
  - apply bool_decide_eq_true_2. now apply validate_language_members.
  - apply bool_decide_eq_false_2. intros H.
    apply validate_language_members in H. congruence.
Qed.

Section AnyMatcher.

Variable re_match : str -> option (str * str * str).

(** The three ways a call of the wrapper goes: the prompt does not match,
    a code is not in the list, or the call is the translator's. *)
Lemma call_effect (prompt : str) (t : MBARTTranslator) :
  (re_match (strip prompt) = None /\
   _call engine re_match lower prompt t
   = (inr (ValueError
        (s "Invalid prompt format. Expected: 'TRANSLATE from <src> to <tgt>: <text>'"
           ++ [10] ++ s "Got: " ++ prompt)), t)) \/
  (exists g1 g2 g3,
     re_match (strip prompt) = Some (g1, g2, g3) /\
     ((list_in (lower g1) supported = false /\
       _call engine re_match lower prompt t
       = (inr (ValueError (s "Unsupported source language: " ++ lower g1
                             ++ s ". Supported: " ++ supported_repr)), t)) \/
      (list_in (lower g1) supported = true /\
       list_in (lower g2) supported = false /\
       _call engine re_match lower prompt t
       = (inr (ValueError (s "Unsupported target language: " ++ lower g2
                             ++ s ". Supported: " ++ supported_repr)), t)) \/
      (list_in (lower g1) supported = true /\
       list_in (lower g2) supported = true /\
       _call engine re_match lower prompt t
       = translate engine (strip g3) (lower g1) (lower g2) t))).
Proof.
  unfold _call.
  destruct (re_match (strip prompt)) as [[[g1 g2] g3]|] eqn:Hm; [right | left; auto].
  exists g1, g2, g3. split; [reflexivity|].
  destruct (list_in (lower g1) supported) eqn:H1; cbn [negb]; [|left; auto].
  destruct (list_in (lower g2) supported) eqn:H2; cbn [negb]; right; [right | left; auto].
  repeat split. rewrite bind_run.
  now destruct (translate engine (strip g3) (lower g1) (lower g2) t) as [[r|e] t'].
Qed.

(** X6. The translator's own two messages for an unsupported code never
    come out of the wrapper: when a call fails before the engine is run,
    the error is one of the wrapper's three, and the two about a code
    list the supported codes. *)
Theorem wrapper_errors_are_its_own (prompt : str) (t : MBARTTranslator) (e : exn) :
  fst (_call engine re_match lower prompt t) = inr e ->
  engine_calls (snd (_call engine re_match lower prompt t)) = engine_calls t ->
  snd (_call engine re_match lower prompt t) = t /\
  (e = ValueError
         (s "Invalid prompt format. Expected: 'TRANSLATE from <src> to <tgt>: <text>'"
            ++ [10] ++ s "Got: " ++ prompt) \/
   exists g1 g2 g3,
     re_match (strip prompt) = Some (g1, g2, g3) /\
     (e = ValueError (s "Unsupported source language: " ++ lower g1
                        ++ s ". Supported: " ++ supported_repr) \/
      e = ValueError (s "Unsupported target language: " ++ lower g2
                        ++ s ". Supported: " ++ supported_repr))).
Proof.
  destruct (call_effect prompt t)
    as [[_ ->]|(g1 & g2 & g3 & Hm & [[_ ->]|[(_ & _ & ->)|(H1 & H2 & ->)]])]; simpl.
  - intros [= <-] _. auto.
  - intros [= <-] _. split; [reflexivity|]. right. exists g1, g2, g3. auto.
  - intros [= <-] _. split; [reflexivity|]. right. exists g1, g2, g3. auto.
  - rewrite supported_is_validate_language in H1, H2.
    apply validate_language_code in H1 as [sc Hs].
    apply validate_language_code in H2 as [tc Ht].
    destruct (cache t !! cache_key (strip g3) (lower g1) (lower g2)) as [hit|] eqn:Hk.
    { rewrite (translate_hit engine _ _ _ _ _ Hk). discriminate. }
    rewrite (translate_miss engine _ _ _ _ _ _ Hk Hs Ht).
    destruct (engine _ _); simpl; [discriminate|].
    intros _ Hlen. apply (f_equal (@length _)) in Hlen.
    rewrite length_app in Hlen. simpl in Hlen. lia.
Qed.

(** X7. The wrapper checks the two codes before the translator looks the key
    up.  [translate] itself serves a stored entry without a look at the
    codes; the same request sent through the wrapper is refused, and the
    translator is left alone. *)
Theorem wrapper_refuses_stored_entry
    (prompt g1 g2 g3 hit : str) (t : MBARTTranslator) :
  re_match (strip prompt) = Some (g1, g2, g3) ->
  cache t !! cache_key g3 (lower g1) (lower g2) = Some hit ->
  list_in (lower g1) supported = false \/ list_in (lower g2) supported = false ->
  translate engine g3 (lower g1) (lower g2) t = (inl hit, t) /\
  exists msg, _call engine re_match lower prompt t = (inr (ValueError msg), t).
Proof.
  intros Hm Hk Hbad. split; [now apply translate_hit|].
  destruct (call_effect prompt t)
    as [[Hn _]|(h1 & h2 & h3 & Hm' & [[_ ->]|[(_ & _ & ->)|(H1 & H2 & _)]])]; eauto.
  - congruence.
  - rewrite Hm in Hm'. injection Hm' as <- <- <-.
    destruct Hbad; congruence.
Qed.

End AnyMatcher.

Section WithPattern.

Variable is_word : N -> bool.
Variable ieq : N -> N -> bool.

#[local] Abbreviation prompt_match := (Regex.prompt_match is_word ieq).

(** X8. The prompt of the loop and the pattern of the wrapper fit: for two
    codes made of word characters and a text that is not blank, the
    prompt "TRANSLATE from <a> to <b>: <text>" matches, its groups are the
    two codes and the trimmed text, and with both codes in the list the
    call is [translate] on that text and the two codes in lower case. *)
Theorem loop_prompt_round_trip (a b text : str) (t : MBARTTranslator) :
  (forall c, ieq c c = true) -> is_word 32 = false -> is_word 58 = false ->
  a <> [] -> Forall (fun c => is_word c = true) a ->
  b <> [] -> Forall (fun c => is_word c = true) b ->
  truthy (strip text) = true ->
  let prompt := s "TRANSLATE from " ++ a ++ s " to " ++ b ++ s ": " ++ text in
  prompt_match (strip prompt) = Some (a, b, strip text) /\
  (list_in (lower a) supported = true -> list_in (lower b) supported = true ->
   _call engine prompt_match lower prompt t
   = translate engine (strip text) (lower a) (lower b) t).
Proof.
  intros Hrefl H32 H58 Ha Hwa Hb Hwb Htext prompt.
  pose proof (prompt_groups is_word ieq Hrefl H32 H58 a b text Ha Hwa Hb Hwb Htext) as Hm.
  split; [exact Hm|]. intros H1 H2.
  destruct (call_effect prompt_match prompt t)
    as [[Hn _]|(g1 & g2 & g3 & Hm' & Hcase)].
  { subst prompt. congruence. }
  subst prompt. rewrite Hm in Hm'. injection Hm' as <- <- <-.
  destruct Hcase as [[H _]|[(_ & H & _)|(_ & _ & ->)]]; try congruence.
  now rewrite strip_idempotent.
Qed.

(** X9. Whatever the prompt is, the wrapper runs the engine at most once, and
    only on a text that is trimmed and not empty, under two codes of the
    supported set. *)
Theorem wrapper_requests_are_clean (prompt : str) (t : MBARTTranslator) :
  let out := _call engine prompt_match lower prompt t in
  engine_calls (snd out) = engine_calls t \/
  exists src tgt c,
    engine_calls (snd out) = engine_calls t ++ [c] /\
    call_text c <> [] /\ strip (call_text c) = call_text c /\
    src ∈ get_supported_languages /\ tgt ∈ get_supported_languages /\
    dict_get LANG_CODE_MAP src = Some (call_src_code c) /\
    dict_get LANG_CODE_MAP tgt = Some (call_tgt_code c).
Proof.
  intros out. subst out.
  destruct (call_effect prompt_match prompt t)
    as [[_ ->]|(g1 & g2 & g3 & Hm & [[_ ->]|[(_ & _ & ->)|(H1 & H2 & ->)]])];
    try (now left).
  destruct (prompt_match_shape is_word ieq _ _ _ _ Hm) as (_ & _ & _ & _ & Hg3 & pre & Hpre).
  pose proof (strip_suffix_nonblank prompt pre g3 Hpre Hg3) as Hne.
  rewrite supported_is_validate_language in H1, H2.
  pose proof (proj1 (validate_language_members _) H1) as Hin1.
  pose proof (proj1 (validate_language_members _) H2) as Hin2.
  apply validate_language_code in H1 as [sc Hs].
  apply validate_language_code in H2 as [tc Ht].
  destruct (cache t !! cache_key (strip g3) (lower g1) (lower g2)) as [hit|] eqn:Hk.
  { rewrite (translate_hit engine _ _ _ _ _ Hk). now left. }
  rewrite (translate_miss engine _ _ _ _ _ _ Hk Hs Ht).
  right. exists (lower g1), (lower g2), (mkCall sc tc (strip g3)).
  split; [now destruct (engine _ _)|].
  cbn [call_text call_src_code call_tgt_code].
  split; [exact Hne|]. split; [apply strip_idempotent|].
  split; [exact Hin1|]. split; [exact Hin2|]. split; [exact Hs | exact Ht].
Qed.

End WithPattern.

End WrapperFacts.

(** A French sentence sent to a fresh translator: the wrapper's message,
    with the list of codes. *)
Lemma wrapper_errors_are_its_own_witness :
  fst (LLM._call Stub.engine Stub.prompt_match Stub.lower
         (s "TRANSLATE from fr to hi: Bonjour") Stub.fresh)
  = inr (ValueError
           (s "Unsupported source language: fr. Supported: ['en', 'hi', 'te', 'ta', 'kn']")) /\
  snd (LLM._call Stub.engine Stub.prompt_match Stub.lower
         (s "TRANSLATE from fr to hi: Bonjour") Stub.fresh) = Stub.fresh.
Proof.
  split; [reflexivity|].
  apply (wrapper_errors_are_its_own Stub.engine Stub.lower Stub.prompt_match
           (s "TRANSLATE from fr to hi: Bonjour") Stub.fresh
           (ValueError
              (s "Unsupported source language: fr. Supported: ['en', 'hi', 'te', 'ta', 'kn']")));
    reflexivity.
Defined.

(** The entry stored by hand under the codes "xx" and "de": [translate]
    serves it, the wrapper refuses the same request. *)
Lemma wrapper_refuses_stored_entry_witness :
  Translator.translate Stub.engine (s "Hallo") (s "xx") (s "de") Stub.prefilled
  = (inl (s "hello"), Stub.prefilled) /\
  exists msg,
    LLM._call Stub.engine Stub.prompt_match Stub.lower
      (s "TRANSLATE from XX to de: Hallo") Stub.prefilled
    = (inr (ValueError msg), Stub.prefilled).
Proof.
  apply (wrapper_refuses_stored_entry Stub.engine Stub.lower Stub.prompt_match
           (s "TRANSLATE from XX to de: Hallo") (s "XX") (s "de") (s "Hallo") (s "hello")
           Stub.prefilled).
  - reflexivity.
  - apply lookup_singleton_eq.
  - left. reflexivity.
Defined.

(** The prompt the loop builds for " Hello " from English to Hindi. *)
Lemma loop_prompt_round_trip_witness :
  Stub.prompt_match (strip (s "TRANSLATE from en to hi:  Hello "))
  = Some (s "en", s "hi", s "Hello") /\
  LLM._call Stub.engine Stub.prompt_match Stub.lower
    (s "TRANSLATE from en to hi:  Hello ") Stub.fresh
  = Translator.translate Stub.engine (s "Hello") (s "en") (s "hi") Stub.fresh.
Proof.
  destruct (loop_prompt_round_trip Stub.engine Stub.lower Stub.is_word Stub.ieq
              (s "en") (s "hi") (s " Hello ") Stub.fresh) as [Hm Hcall].
  - intros c. apply N.eqb_refl.
  - reflexivity.
  - reflexivity.
  - discriminate.
  - repeat constructor.
  - discriminate.
  - repeat constructor.
  - reflexivity.
  - split; [exact Hm|]. apply Hcall; reflexivity.
Defined.

(** ** tts.py: the chain as a whole *)

Section ChainFacts.
Import TTS.

Variable pyttsx3_run : list Pyttsx3Call -> Pyttsx3Call -> option exn.
Variable gtts_save : list GttsCall -> GttsCall -> option exn.
Variable player : list (option str) -> option str -> option exn.
Variable os_remove : nat -> option exn.
Variable console : str -> str -> option exn.
Variable upper : str -> str.

#[local] Abbreviation speak := (TTS.speak pyttsx3_run gtts_save player os_remove console upper).
#[local] Abbreviation speak_gtts := (_speak_gtts gtts_save player os_remove).

(** gTTS names its languages as the package does. *)
Lemma gtts_language (language : str) :
  dict_in language GTTS_LANG_MAP = true ->
  dict_get GTTS_LANG_MAP language = Some language.
Proof.
  unfold dict_in, GTTS_LANG_MAP. simpl.
  repeat (destruct (decide _) as [<-|?]; [reflexivity|]).
  discriminate.
Qed.

Ltac chain_cases :=
  repeat match goal with
         | |- context [match ?x with _ => _ end] =>
             match type of x with
             | option exn => let e := fresh "e" in destruct x as [e|] eqn:?
             | bool => destruct x eqn:?
             end
         end.

(** What one call of [speak] may change. *)
Lemma speak_effect (text language : str) (save_path : option str) (self : TextToSpeech) :
  let after := snd (speak text language save_path self) in
  use_gtts_fallback after = use_gtts_fallback self /\
  pyttsx3_engine after = pyttsx3_engine self /\
  (pyttsx3_calls after = pyttsx3_calls self \/
   pyttsx3_calls after = pyttsx3_calls self ++ [pyttsx3_request text save_path]) /\
  (gtts_calls after = gtts_calls self \/
   gtts_calls after
   = gtts_calls self ++ [mkGttsCall text language (if given save_path then save_path else None)]) /\
  (played after = played self \/
   played after = played self ++ [if given save_path then save_path else None]) /\
  (removed after = removed self \/
   removed after = S (removed self) /\ given save_path = false) /\
  (stdout after = stdout self \/
   stdout after = stdout self ++ announcement upper text language ++ [10]).
Proof.
  intros after. subst after.
  destruct (truthy (strip text)) eqn:Hnb.
  2:{ unfold TTS.speak. rewrite Hnb. cbn [negb ret snd]. tauto. }
  rewrite (speak_run pyttsx3_run gtts_save player os_remove console upper text language save_path self Hnb). cbv zeta.
  destruct (use_gtts_fallback self && dict_in language GTTS_LANG_MAP) eqn:H2.
  - apply andb_true_iff in H2 as [_ H2].
    rewrite !speak_gtts_run. cbv zeta. unfold gtts_request.
    rewrite (gtts_language language H2). cbn [default option_map from_option].
    chain_cases; rewrite ?print_run; chain_cases;
      cbn [snd fst use_gtts_fallback pyttsx3_engine pyttsx3_calls gtts_calls played
           removed stdout set_pyttsx3_calls set_gtts_calls set_played set_removed
           set_stdout];
      intuition auto.
  - chain_cases; rewrite ?print_run; chain_cases;
      cbn [snd fst use_gtts_fallback pyttsx3_engine pyttsx3_calls gtts_calls played
           removed stdout set_pyttsx3_calls set_gtts_calls set_played set_removed
           set_stdout];
      intuition auto.
Qed.

(** X10. One call of [speak], whatever the text and whatever the libraries do,
    asks each engine at most once, plays at most one file, removes at
    most one temporary file and prints at most the one line of the console
    fallback; the two settings of the object stay as they are.  The
    request to gTTS carries the text and the language of the call, and a
    temporary file is removed only when the caller gave no path. *)
Theorem speak_budget (text language : str) (save_path : option str) (self : TextToSpeech) :
  let after := snd (speak text language save_path self) in
  use_gtts_fallback after = use_gtts_fallback self /\
  pyttsx3_engine after = pyttsx3_engine self /\
  (pyttsx3_calls after = pyttsx3_calls self \/
   pyttsx3_calls after = pyttsx3_calls self ++ [pyttsx3_request text save_path]) /\
  (gtts_calls after = gtts_calls self \/
   gtts_calls after
   = gtts_calls self ++ [mkGttsCall text language (if given save_path then save_path else None)]) /\
  (played after = played self \/
   played after = played self ++ [if given save_path then save_path else None]) /\
  (removed after = removed self \/
   removed after = S (removed self) /\ given save_path = false) /\
  (stdout after = stdout self \/
   stdout after = stdout self ++ announcement upper text language ++ [10]).
Proof. exact (speak_effect text language save_path self). Qed.

(** Who is asked, and when the console is used. *)
Lemma speak_route (text language : str) (save_path : option str) (self : TextToSpeech) :
  let after := snd (speak text language save_path self) in
  (pyttsx3_calls after <> pyttsx3_calls self ->
   pyttsx3_engine self = true /\ language = s "en") /\
  (gtts_calls after <> gtts_calls self ->
   use_gtts_fallback self = true /\ dict_in language GTTS_LANG_MAP = true) /\
  (stdout after <> stdout self ->
   truthy (strip text) = true /\
   (pyttsx3_calls after = pyttsx3_calls self \/
    failed (pyttsx3_run (pyttsx3_calls self) (pyttsx3_request text save_path))) /\
   (gtts_calls after = gtts_calls self \/
    exists e, is_Exception e = true /\
              fst (speak_gtts text language save_path
                     (set_pyttsx3_calls (pyttsx3_calls after) self)) = inr e)).
Proof.
  intros after. subst after.
  destruct (truthy (strip text)) eqn:Hnb.
  2:{ unfold TTS.speak. rewrite Hnb. cbn [negb ret snd]. tauto. }
  rewrite (speak_run pyttsx3_run gtts_save player os_remove console upper text language save_path self Hnb). cbv zeta.
  destruct (pyttsx3_engine self && bool_decide (language = s "en")) eqn:H1.
  - pose proof H1 as H1'. apply andb_true_iff in H1' as [He Hl].
    apply bool_decide_eq_true_1 in Hl.
    destruct (pyttsx3_run _ _) as [e|] eqn:Hp.
    2:{ cbn [snd pyttsx3_calls gtts_calls stdout set_pyttsx3_calls]. tauto. }
    destruct (is_Exception e) eqn:Hexc.
    2:{ cbn [snd pyttsx3_calls gtts_calls stdout set_pyttsx3_calls]. tauto. }
    destruct (use_gtts_fallback self && dict_in language GTTS_LANG_MAP) eqn:H2.
    + apply andb_true_iff in H2 as [Hu Hin].
      destruct (speak_gtts text language save_path _) as [[u|e'] st'] eqn:Hg.
      * pose proof (speak_gtts_quiet gtts_save player os_remove text language save_path
                      (set_pyttsx3_calls
                         (pyttsx3_calls self ++ [pyttsx3_request text save_path]) self)) as Hq.
        rewrite Hg in Hq. cbn [snd] in *. cbn [stdout set_pyttsx3_calls] in Hq.
        repeat split; auto; congruence.
      * assert (Hcalls : pyttsx3_calls st'
                         = pyttsx3_calls self ++ [pyttsx3_request text save_path]).
        { rewrite speak_gtts_run in Hg. cbv zeta in Hg.
          revert Hg. chain_cases; intros Hg; apply (f_equal snd) in Hg; cbn [snd] in Hg;
            subst st'; reflexivity. }
        destruct (is_Exception e') eqn:Hexc'.
        -- pose proof (speak_gtts_quiet gtts_save player os_remove text language save_path
                      (set_pyttsx3_calls
                         (pyttsx3_calls self ++ [pyttsx3_request text save_path]) self)) as Hq.
           rewrite Hg in Hq. cbn [snd stdout set_pyttsx3_calls] in Hq.
           rewrite print_run.
           destruct (console _ _) as [ec|];
             cbn [snd pyttsx3_calls gtts_calls stdout set_stdout].
           { repeat split; auto; congruence. }
           repeat split; auto.
           ++ right. exists e. auto.
           ++ right. exists e'. rewrite Hcalls, Hg. auto.
        -- cbn [snd].
           pose proof (speak_gtts_quiet gtts_save player os_remove text language save_path
                      (set_pyttsx3_calls
                         (pyttsx3_calls self ++ [pyttsx3_request text save_path]) self)) as Hq.
           rewrite Hg in Hq. cbn [snd stdout set_pyttsx3_calls] in Hq.
           repeat split; auto; congruence.
    + rewrite print_run.
      destruct (console _ _) as [ec|];
        cbn [snd pyttsx3_calls gtts_calls stdout set_stdout set_pyttsx3_calls].
      { repeat split; auto; congruence. }
      repeat split; auto; try congruence.
      right. exists e. auto.
  - destruct (use_gtts_fallback self && dict_in language GTTS_LANG_MAP) eqn:H2.
    + apply andb_true_iff in H2 as [Hu Hin].
      destruct (speak_gtts text language save_path self) as [[u|e'] st'] eqn:Hg.
      * pose proof (speak_gtts_quiet gtts_save player os_remove text language save_path self)
          as Hq.
        assert (Hcalls : pyttsx3_calls st' = pyttsx3_calls self).
        { rewrite speak_gtts_run in Hg. cbv zeta in Hg.
          revert Hg. chain_cases; intros Hg; apply (f_equal snd) in Hg; cbn [snd] in Hg;
            subst st'; reflexivity. }
        rewrite Hg in Hq. cbn [snd] in *.
        repeat split; auto; congruence.
      * assert (Hcalls : pyttsx3_calls st' = pyttsx3_calls self).
        { rewrite speak_gtts_run in Hg. cbv zeta in Hg.
          revert Hg. chain_cases; intros Hg; apply (f_equal snd) in Hg; cbn [snd] in Hg;
            subst st'; reflexivity. }
        pose proof (speak_gtts_quiet gtts_save player os_remove text language save_path self)
          as Hq.
        rewrite Hg in Hq. cbn [snd] in Hq.
        destruct (is_Exception e') eqn:Hexc'.
        -- rewrite print_run.
           destruct (console _ _) as [ec|];
             cbn [snd pyttsx3_calls gtts_calls stdout set_stdout].
           { repeat split; auto; congruence. }
           repeat split; auto; try congruence.
           right. exists e'. rewrite Hcalls.
           replace (set_pyttsx3_calls (pyttsx3_calls self) self) with self
             by now destruct self.
           rewrite Hg. auto.
        -- cbn [snd]. repeat split; auto; congruence.
    + rewrite print_run.
      destruct (console _ _) as [ec|];
        cbn [snd pyttsx3_calls gtts_calls stdout set_stdout];
        repeat split; auto; congruence.
Qed.

(** X11. Which engine [speak] turns to: the offline engine only for "en" and
    only when the object has one; gTTS only when the fallback is allowed
    and the language is in its map; the console only after neither of
    them spoke.  In particular no language other than "en" reaches the
    offline engine. *)
Theorem speak_routing (text language : str) (save_path : option str) (self : TextToSpeech) :
  let after := snd (speak text language save_path self) in
  (pyttsx3_calls after <> pyttsx3_calls self ->
   pyttsx3_engine self = true /\ language = s "en") /\
  (gtts_calls after <> gtts_calls self ->
   use_gtts_fallback self = true /\ dict_in language GTTS_LANG_MAP = true) /\
  (stdout after <> stdout self ->
   truthy (strip text) = true /\
   (pyttsx3_calls after = pyttsx3_calls self \/
    failed (pyttsx3_run (pyttsx3_calls self) (pyttsx3_request text save_path))) /\
   (gtts_calls after = gtts_calls self \/
    exists e, is_Exception e = true /\
              fst (speak_gtts text language save_path
                     (set_pyttsx3_calls (pyttsx3_calls after) self)) = inr e)).
Proof. exact (speak_route text language save_path self). Qed.

(** X12. The offline engine spoke: [speak] returns there.  gTTS is not asked,
    no file is played or removed and nothing is printed. *)
Theorem speak_primary_success_ends_chain
    (text language : str) (save_path : option str) (self : TextToSpeech) :
  truthy (strip text) = true ->
  pyttsx3_engine self = true -> language = s "en" ->
  pyttsx3_run (pyttsx3_calls self) (pyttsx3_request text save_path) = None ->
  speak text language save_path self
  = (inl tt, set_pyttsx3_calls (pyttsx3_calls self ++ [pyttsx3_request text save_path]) self).
Proof.
  intros Hnb He -> Hp. rewrite (speak_run pyttsx3_run gtts_save player os_remove console upper text _ save_path self Hnb). cbv zeta.
  rewrite He, Hp. reflexivity.
Qed.


(** X14. A synthesizer built with [use_gtts_fallback=False] has an offline
    engine and nothing else: for a text in a language other than "en" no
    engine is asked, whatever the libraries would have done, and the line
    of the console fallback goes to [print]; [speak] returns with the
    line printed when [print] takes it, and raises what [print] raised
    when it does not. *)
Theorem offline_synthesizer_prints_other_languages
    (pyttsx3_init : option exn) (self : TextToSpeech) (text language : str)
    (save_path : option str) :
  __init__ false pyttsx3_init = inl self ->
  truthy (strip text) = true ->
  language <> s "en" ->
  pyttsx3_init = None /\
  speak text language save_path self
  = match console [] (announcement upper text language) with
    | None => (inl tt, set_stdout (announcement upper text language ++ [10]) self)
    | Some e => (inr e, self)
    end.
Proof.
  intros Hinit Hnb Hl.
  assert (Hself : pyttsx3_init = None /\ self = mkTTS false true [] [] [] 0 []).
  { unfold __init__ in Hinit. destruct pyttsx3_init as [e|].
    - destruct (is_Exception e); discriminate.
    - now injection Hinit as <-. }
  destruct Hself as [-> ->]. split; [reflexivity|].
  rewrite (speak_run pyttsx3_run gtts_save player os_remove console upper
             text language save_path _ Hnb). cbv zeta.
  cbn [use_gtts_fallback pyttsx3_engine andb].
  rewrite (bool_decide_eq_false_2 _ Hl), print_run. reflexivity.
Qed.

End ChainFacts.

(** "Hello" in English with both engines down: each was asked once, and
    the line went to the console. *)
Lemma speak_routing_witness :
  (TTS.pyttsx3_engine Stub.synthesizer = true /\ s "en" = s "en") /\
  (TTS.use_gtts_fallback Stub.synthesizer = true /\
   dict_in (s "en") TTS.GTTS_LANG_MAP = true) /\
  truthy (strip (s "Hello")) = true.
Proof.
  destruct (speak_routing Stub.pyttsx3_down Stub.gtts_down Stub.player_up Stub.remove_up Stub.console_up
              Stub.upper (s "Hello") (s "en") None Stub.synthesizer)
    as (Hfirst & Hsecond & Hconsole).
  split; [apply Hfirst; discriminate|].
  split; [apply Hsecond; discriminate|].
  apply Hconsole. discriminate.
Defined.

(** "Hello" in English with the offline engine at work. *)
Lemma speak_primary_success_ends_chain_witness :
  TTS.speak Stub.pyttsx3_up Stub.gtts_down Stub.player_down Stub.remove_up Stub.console_up Stub.upper
    (s "Hello") (s "en") None Stub.synthesizer
  = (inl tt, TTS.mkTTS true true [TTS.Say (s "Hello")] [] [] 0 []).
Proof.
  apply (speak_primary_success_ends_chain Stub.pyttsx3_up Stub.gtts_down Stub.player_down
           Stub.remove_up Stub.console_up Stub.upper (s "Hello") (s "en") None Stub.synthesizer);
    reflexivity.
Defined.


(** The synthesizer of [TextToSpeech(use_gtts_fallback=False)] asked for
    Hindi: on a console that takes the line, and on one that cannot
    encode it. *)
Lemma offline_synthesizer_prints_other_languages_witness :
  TTS.speak Stub.pyttsx3_up Stub.gtts_up Stub.player_up Stub.remove_up Stub.console_up
    Stub.upper (s "namaste") (s "hi") None (TTS.mkTTS false true [] [] [] 0 [])
  = (inl tt, TTS.mkTTS false true [] [] [] 0 ([10] ++ s "[HI] namaste" ++ [10; 10])) /\
  TTS.speak Stub.pyttsx3_up Stub.gtts_up Stub.player_up Stub.remove_up Stub.console_ascii
    Stub.upper Stub.devanagari (s "hi") None (TTS.mkTTS false true [] [] [] 0 [])
  = (inr (Error (s "UnicodeEncodeError") (s "'ascii' codec can't encode characters")),
     TTS.mkTTS false true [] [] [] 0 []).
Proof.
  split.
  - destruct (offline_synthesizer_prints_other_languages Stub.pyttsx3_up Stub.gtts_up
                Stub.player_up Stub.remove_up Stub.console_up Stub.upper None
                (TTS.mkTTS false true [] [] [] 0 []) (s "namaste") (s "hi") None)
      as [_ Hrun]; [reflexivity | reflexivity | discriminate | exact Hrun].
  - destruct (offline_synthesizer_prints_other_languages Stub.pyttsx3_up Stub.gtts_up
                Stub.player_up Stub.remove_up Stub.console_ascii Stub.upper None
                (TTS.mkTTS false true [] [] [] 0 []) Stub.devanagari (s "hi") None)
      as [_ Hrun]; [reflexivity | reflexivity | discriminate | exact Hrun].
Defined.

(** ** realtime.py: what a pass and a session may do *)

Section SessionFacts.
Import Translator LLM STT TTS Realtime.

Variable float : Type.
Variable np_square : list float -> list float.
Variable np_mean : list float -> float.
Variable np_sqrt : float -> float.
Variable np_compare : float -> float -> float_cmp.
Variable float_0_01 : float.
Variable int_of_product : N -> float -> N + exn.
Variable whisper : list (WhisperCall float) -> WhisperCall float -> WhisperResult + exn.
Variable engine : list EngineCall -> EngineCall -> str + exn.
Variable re_match : str -> option (str * str * str).
Variable lower upper : str -> str.
Variable pyttsx3_run : list Pyttsx3Call -> Pyttsx3Call -> option exn.
Variable gtts_save : list GttsCall -> GttsCall -> option exn.
Variable player : list (option str) -> option str -> option exn.
Variable os_remove : nat -> option exn.
Variable console : str -> str -> option exn.
Variable sd_rec : nat -> N -> list float + exn.
Variable sigint_during : nat -> bool.
Variable signal_signal : option exn.

#[local] Abbreviation has_speech :=
  (_has_speech np_square np_mean np_sqrt np_compare).
#[local] Abbreviation body :=
  (cycle_body np_square np_mean np_sqrt np_compare float_0_01 whisper engine re_match
     lower upper pyttsx3_run gtts_save player os_remove console sd_rec).
#[local] Abbreviation pass :=
  (cycle np_square np_mean np_sqrt np_compare float_0_01 whisper engine re_match
     lower upper pyttsx3_run gtts_save player os_remove console sd_rec).
#[local] Abbreviation loop :=
  (while_running np_square np_mean np_sqrt np_compare float_0_01 whisper engine re_match
     lower upper pyttsx3_run gtts_save player os_remove console sd_rec sigint_during).
#[local] Abbreviation run_loop :=
  (_run_loop np_square np_mean np_sqrt np_compare float_0_01 int_of_product whisper engine
     re_match lower upper pyttsx3_run gtts_save player os_remove console sd_rec sigint_during).
#[local] Abbreviation start_session :=
  (start np_square np_mean np_sqrt np_compare float_0_01 int_of_product whisper engine
     re_match lower upper pyttsx3_run gtts_save player os_remove console sd_rec sigint_during
     signal_signal).
#[local] Abbreviation say :=
  (speak pyttsx3_run gtts_save player os_remove console upper).
#[local] Abbreviation ask :=
  (invoke engine re_match lower).

(** The last three statements of the [try] block: translate, speak, read
    the cache size.  They touch the translator and the synthesizer and
    nothing else, and the synthesizer only after the translator
    returned. *)
Lemma translate_and_speak_effect (prompt language : str) (st : RealtimeTranslator float) :
  let out := (translation <- on_llm (ask prompt) ;;
              on_tts (say translation language None) ;;;
              cache_size <- on_llm get_cache_size ;;
              ret Spoke) st in
  (forall a, fst out = inl a -> a = Spoke) /\
  src_lang (snd out) = src_lang st /\ tgt_lang (snd out) = tgt_lang st /\
  chunk_seconds (snd out) = chunk_seconds st /\ sample_rate (snd out) = sample_rate st /\
  running (snd out) = running st /\ stt (snd out) = stt st /\
  recordings (snd out) = recordings st /\ sleeps (snd out) = sleeps st /\
  cycles (snd out) = cycles st /\
  translator_llm (snd out) = snd (ask prompt (translator_llm st)) /\
  (tts (snd out) = tts st \/
   exists translation,
     fst (ask prompt (translator_llm st)) = inl translation /\
     tts (snd out) = snd (say translation language None (tts st))).
Proof.
  cbv zeta. unfold bind, on_llm, on_tts, get_cache_size, get, ret.
  destruct (ask prompt (translator_llm st)) as [[translation|e] t1]; cbn [fst snd].
  2:{ cbn. split; [discriminate|]. repeat split; auto. }
  change (tts (set_translator_llm t1 st)) with (tts st).
  destruct (say translation language None (tts st)) as [[u|e] t2] eqn:Es; cbn [fst snd].
  2:{ cbn. split; [discriminate|]. repeat split; auto.
      right. exists translation. now rewrite Es. }
  cbn. split; [now intros a [= <-]|]. repeat split; auto.
  right. exists translation. now rewrite Es.
Qed.

(** A call of the wrapper is a call of [translate], or leaves the
    translator alone. *)
Lemma ask_effect (prompt : str) (t : MBARTTranslator) :
  snd (ask prompt t) = t \/
  exists text src tgt, snd (ask prompt t) = snd (translate engine text src tgt t).
Proof.
  unfold invoke.
  destruct (call_effect engine lower re_match prompt t)
    as [[_ ->]|(g1 & g2 & g3 & _ & [[_ ->]|[(_ & _ & ->)|(_ & _ & ->)]])]; eauto.
Qed.

(** What the [try] block may change. *)
Lemma body_effect (n : N) (self : RealtimeTranslator float) :
  let after := snd (body n self) in
  (forall e, fst (body n self) <> inl (Recovered e)) /\
  (src_lang after = src_lang self /\ tgt_lang after = tgt_lang self /\
   chunk_seconds after = chunk_seconds self /\ sample_rate after = sample_rate self /\
   running after = running self /\ cycles after = cycles self) /\
  recordings after = S (recordings self) /\
  sleeps after = sleeps self /\
  (stt after = stt self \/
   exists audio, sd_rec (recordings self) n = inl audio /\
                 has_speech audio float_0_01 = true /\
                 stt after = mkSTT (whisper_calls (stt self) ++ [stt_call audio self])) /\
  (translator_llm after = translator_llm self \/
   exists prompt, translator_llm after = snd (ask prompt (translator_llm self))) /\
  (tts after = tts self \/
   exists translation,
     tts after = snd (say translation (tgt_lang self) None (tts self))).
Proof.
  cbv zeta.
  destruct (sd_rec (recordings self) n) as [audio|e] eqn:Hrec.
  2:{ rewrite (body_device_error _ _ _ _ _ _ _ _ _ _ _ _ _ _ _ _ _ n self e Hrec).
      cbn. split; [discriminate|]. repeat split; eauto. }
  destruct (has_speech audio float_0_01) eqn:Hgate.
  2:{ rewrite (body_no_speech _ _ _ _ _ _ _ _ _ _ _ _ _ _ _ _ _ n self audio Hrec Hgate).
      cbn. split; [discriminate|]. repeat split; eauto. }
  rewrite (body_transcribe _ _ _ _ _ _ _ _ _ _ _ _ _ _ _ _ _ n self audio Hrec Hgate).
  destruct (heard whisper audio self) as [tr|e].
  2:{ cbn. split; [discriminate|]. repeat split; eauto 6. }
  destruct (negb (truthy (strip (tr_text tr)))).
  { cbn. split; [discriminate|]. repeat split; eauto 6. }
  destruct (bool_decide (resolved lower (tr_language tr) self = tgt_lang self)).
  { cbn. split; [discriminate|]. repeat split; eauto 6. }
  pose proof (translate_and_speak_effect
                (prompt_of (resolved lower (tr_language tr) self) (tr_text tr) self)
                (tgt_lang self) (transcribed (stt_call audio self) self)) as Heff.
  cbv zeta in Heff.
  destruct Heff as (H0 & H1 & H2 & H3 & H4 & H5 & H6 & H7 & H8 & H9 & H10 & H11).
  rewrite H1, H2, H3, H4, H5, H6, H7, H8, H9, H10.
  split.
  { intros e He. specialize (H0 _ He). discriminate. }
  split; [cbn; repeat split; reflexivity|].
  split; [reflexivity|]. split; [reflexivity|].
  split; [right; exists audio; auto|].
  split; [right; eexists; reflexivity|].
  destruct H11 as [->|(translation & _ & ->)]; [left; reflexivity|].
  right. exists translation. reflexivity.
Qed.

(** What one pass may change: the [except] clause adds the pause and
    nothing else. *)
Lemma pass_effect (n : N) (self : RealtimeTranslator float) :
  let after := snd (pass n self) in
  (src_lang after = src_lang self /\ tgt_lang after = tgt_lang self /\
   chunk_seconds after = chunk_seconds self /\ sample_rate after = sample_rate self /\
   running after = running self /\ cycles after = cycles self) /\
  recordings after = S (recordings self) /\
  (sleeps after = sleeps self /\ (forall e, fst (pass n self) <> inl (Recovered e)) \/
   sleeps after = S (sleeps self) /\ exists e, fst (pass n self) = inl (Recovered e)) /\
  (stt after = stt self \/
   exists audio, sd_rec (recordings self) n = inl audio /\
                 has_speech audio float_0_01 = true /\
                 stt after = mkSTT (whisper_calls (stt self) ++ [stt_call audio self])) /\
  (translator_llm after = translator_llm self \/
   exists prompt, translator_llm after = snd (ask prompt (translator_llm self))) /\
  (tts after = tts self \/
   exists translation,
     tts after = snd (say translation (tgt_lang self) None (tts self))).
Proof.
  cbv zeta. rewrite pass_run.
  pose proof (body_effect n self) as Hb. cbv zeta in Hb.
  destruct (body n self) as [[a|e] st]; cbn [fst snd] in *;
    destruct Hb as (Hnot & Hc & Hr & Hz & Hs & Ht & Hy).
  - split; [exact Hc|]. split; [exact Hr|].
    split; [left; split; [exact Hz|]|exact (conj Hs (conj Ht Hy))].
    intros e He. exact (Hnot e He).
  - destruct (is_Exception e); cbn [fst snd].
    + split; [exact Hc|]. split; [exact Hr|].
      split; [right; cbn; rewrite Hz; eauto|exact (conj Hs (conj Ht Hy))].
    + split; [exact Hc|]. split; [exact Hr|].
      split; [left; split; [exact Hz | discriminate]|exact (conj Hs (conj Ht Hy))].
Qed.

(** An exception that leaves a pass is not an instance of Exception. *)
Lemma pass_raises (n : N) (self st : RealtimeTranslator float) (e : exn) :
  pass n self = (inr e, st) -> is_Exception e = false.
Proof.
  rewrite pass_run. destruct (body n self) as [[a|e0] st0]; [discriminate|].
  destruct (is_Exception e0) eqn:He; [discriminate|]. now intros [= <- _].
Qed.

(** One call of the wrapper runs the engine at most once and never
    removes an entry. *)
Lemma ask_cost (prompt : str) (t : MBARTTranslator) :
  cache t ⊆ cache (snd (ask prompt t)) /\
  (size (cache (snd (ask prompt t))) <= S (size (cache t)))%nat /\
  (length (engine_calls t) <= length (engine_calls (snd (ask prompt t)))
   <= S (length (engine_calls t)))%nat.
Proof.
  destruct (ask_effect prompt t) as [->|(text & src & tgt & ->)].
  { split; [reflexivity|]. lia. }
  destruct (translate_effect engine text src tgt t) as (Hsub & Hlen & [Heq|Hnew]).
  - split; [exact Hsub|]. rewrite Heq. split; [lia|]. split; [|exact Hlen].
    destruct (cache t !! cache_key text src tgt) as [hit|] eqn:Hk.
    { now rewrite (translate_hit engine _ _ _ _ _ Hk). }
    destruct (validate_language src) eqn:Hs.
    2:{ now rewrite translate_bad_source. }
    destruct (validate_language tgt) eqn:Ht.
    2:{ now rewrite translate_bad_target. }
    apply validate_language_code in Hs as [sc Hs].
    apply validate_language_code in Ht as [tc Ht].
    rewrite (translate_miss engine _ _ _ _ _ _ Hk Hs Ht).
    destruct (engine _ _); simpl; rewrite length_app; lia.
  - destruct Hnew as (r & _ & _ & _ & Hsize & Hcalls).
    split; [exact Hsub|]. lia.
Qed.

Lemma end_of_cycle_fields (st : RealtimeTranslator float) :
  let next := end_of_cycle sigint_during st in
  src_lang next = src_lang st /\ tgt_lang next = tgt_lang st /\
  chunk_seconds next = chunk_seconds st /\ sample_rate next = sample_rate st /\
  stt next = stt st /\ translator_llm next = translator_llm st /\ tts next = tts st /\
  recordings next = recordings st /\ sleeps next = sleeps st /\
  cycles next = S (cycles st) /\
  running next = (if sigint_during (cycles st) then false else running st).
Proof.
  unfold end_of_cycle. destruct (sigint_during (cycles st)); cbn; repeat split.
Qed.

(** What one pass costs. *)
Lemma pass_cost (n : N) (self : RealtimeTranslator float) :
  let after := snd (pass n self) in
  (src_lang after = src_lang self /\ tgt_lang after = tgt_lang self /\
   chunk_seconds after = chunk_seconds self /\ sample_rate after = sample_rate self /\
   running after = running self) /\
  recordings after = S (recordings self) /\
  (sleeps after = sleeps self /\ (forall e, fst (pass n self) <> inl (Recovered e)) \/
   sleeps after = S (sleeps self) /\ exists e, fst (pass n self) = inl (Recovered e)) /\
  (length (whisper_calls (stt after)) <= S (length (whisper_calls (stt self))))%nat /\
  (length (engine_calls (translator_llm after))
   <= S (length (engine_calls (translator_llm self))))%nat /\
  cache (translator_llm self) ⊆ cache (translator_llm after) /\
  (size (cache (translator_llm after)) <= S (size (cache (translator_llm self))))%nat /\
  (length (pyttsx3_calls (tts after)) <= S (length (pyttsx3_calls (tts self))))%nat /\
  (length (gtts_calls (tts after)) <= S (length (gtts_calls (tts self))))%nat /\
  (length (played (tts after)) <= S (length (played (tts self))))%nat.
Proof.
  cbv zeta.
  destruct (pass_effect n self) as ((H1 & H2 & H3 & H4 & H5 & _) & Hr & Hz & Hs & Ht & Hy).
  split; [auto 6|]. split; [exact Hr|]. split; [exact Hz|].
  split.
  { destruct Hs as [->|(audio & _ & _ & ->)]; [lia|].
    cbn. rewrite length_app. simpl. lia. }
  assert (Hllm : cache (translator_llm self) ⊆ cache (translator_llm (snd (pass n self))) /\
                 (size (cache (translator_llm (snd (pass n self))))
                  <= S (size (cache (translator_llm self))))%nat /\
                 (length (engine_calls (translator_llm (snd (pass n self))))
                  <= S (length (engine_calls (translator_llm self))))%nat).
  { destruct Ht as [->|(prompt & ->)].
    - split; [reflexivity|]. lia.
    - destruct (ask_cost prompt (translator_llm self)) as (Hsub & Hsize & Hcalls).
      split; [exact Hsub|]. lia. }
  destruct Hllm as (Hsub & Hsize & Hcalls).
  split; [exact Hcalls|]. split; [exact Hsub|]. split; [exact Hsize|].
  destruct Hy as [->|(translation & ->)]; [lia|].
  destruct (speak_effect pyttsx3_run gtts_save player os_remove console upper
              translation (tgt_lang self) None (tts self))
    as (_ & _ & [->| ->] & [->| ->] & [->| ->] & _);
    rewrite ?length_app; simpl; lia.
Qed.


(** What the passes of a session add up to. *)
Lemma loop_books (n : N) (fuel : nat) (self : RealtimeTranslator float) :
  let out := loop n fuel self in
  let after := snd out in
  let passes := (cycles after - cycles self)%nat in
  let started := match fst out with Raised _ => S passes | _ => passes end in
  (src_lang after = src_lang self /\ tgt_lang after = tgt_lang self /\
   chunk_seconds after = chunk_seconds self /\ sample_rate after = sample_rate self) /\
  (cycles self <= cycles after)%nat /\ (passes <= fuel)%nat /\
  recordings after = (recordings self + started)%nat /\
  (sleeps self <= sleeps after <= sleeps self + passes)%nat /\
  (length (whisper_calls (stt after))
   <= length (whisper_calls (stt self)) + started)%nat /\
  (length (engine_calls (translator_llm after))
   <= length (engine_calls (translator_llm self)) + started)%nat /\
  cache (translator_llm self) ⊆ cache (translator_llm after) /\
  match fst out with
  | Returned => running after = false
  | StillRunning => running after = true /\ passes = fuel
  | Raised e => is_Exception e = false
  end.
Proof.
  cbv zeta. revert self. induction fuel as [|fuel IH]; intros self.
  { simpl. destruct (running self) eqn:Hrun; cbn [fst snd];
      rewrite Nat.sub_diag, Nat.add_0_r; repeat split; auto; lia. }
  destruct (running self) eqn:Hrun.
  2:{ rewrite (loop_stopped _ _ _ _ _ _ _ _ _ _ _ _ _ _ _ _ _ _ n (S fuel) self Hrun).
      cbn [fst snd]. rewrite Nat.sub_diag, Nat.add_0_r. repeat split; auto; lia. }
  rewrite (loop_step _ _ _ _ _ _ _ _ _ _ _ _ _ _ _ _ _ _ n fuel self Hrun).
  pose proof (pass_cost n self) as Hp. cbv zeta in Hp.
  pose proof (pass_effect n self) as He. cbv zeta in He.
  destruct (pass n self) as [[a|e] st] eqn:Epass; cbn [fst snd] in *.
  - destruct Hp as ((H1 & H2 & H3 & H4 & _) & Hr & Hz & Hw & Hc & Hsub & _).
    destruct He as ((_ & _ & _ & _ & _ & Hk) & _).
    destruct (end_of_cycle_fields st)
      as (E1 & E2 & E3 & E4 & E5 & E6 & E7 & E8 & E9 & E10 & _).
    specialize (IH (end_of_cycle sigint_during st)).
    destruct IH as ((I1 & I2 & I3 & I4) & Ik & Ifuel & Ir & Iz & Iw & Ic & Isub & Iend).
    rewrite E1, E2, E3, E4, E5, E6, E8, E9, E10 in *.
    set (after := snd (loop n fuel (end_of_cycle sigint_during st))) in *.
    assert (Hpasses : (cycles after - cycles self = S (cycles after - S (cycles st)))%nat)
      by lia.
    split; [repeat split; congruence|].
    split; [lia|]. split; [lia|].
    split.
    { rewrite Ir. destruct (fst (loop n fuel (end_of_cycle sigint_during st))); lia. }
    split; [destruct Hz as [[Hz _]|[Hz _]]; lia|].
    split.
    { destruct (fst (loop n fuel (end_of_cycle sigint_during st))); lia. }
    split.
    { destruct (fst (loop n fuel (end_of_cycle sigint_during st))); lia. }
    split; [etransitivity; eassumption|].
    destruct (fst (loop n fuel (end_of_cycle sigint_during st))); auto.
    destruct Iend as [Hflag Hcount]. split; [exact Hflag | lia].
  - destruct Hp as ((H1 & H2 & H3 & H4 & _) & Hr & Hz & Hw & Hc & Hsub & _).
    destruct He as ((_ & _ & _ & _ & _ & Hk) & _).
    rewrite Hk, Nat.sub_diag.
    split; [auto|]. split; [lia|]. split; [lia|]. split; [lia|].
    split; [destruct Hz as [[Hz _]|[_ [e0 He0]]]; [lia | discriminate]|].
    split; [lia|]. split; [lia|]. split; [exact Hsub|].
    exact (pass_raises n self st e Epass).
Qed.


(** X18. Without a signal the loop does not end by itself: as long as no
    interrupt arrives it goes on from pass to pass, and the only other way
    out is an exception that is not an instance of Exception. *)
Theorem loop_runs_until_interrupted (n : N) (fuel : nat) (self : RealtimeTranslator float) :
  running self = true ->
  (forall k, sigint_during k = false) ->
  fst (loop n fuel self) <> Returned.
Proof.
  intros Hrun Hquiet. revert self Hrun.
  induction fuel as [|fuel IH]; intros self Hrun.
  { simpl. rewrite Hrun. discriminate. }
  rewrite (loop_step _ _ _ _ _ _ _ _ _ _ _ _ _ _ _ _ _ _ n fuel self Hrun).
  pose proof (pass_effect n self) as He. cbv zeta in He.
  destruct (pass n self) as [[a|e] st]; cbn [fst snd] in *; [|discriminate].
  apply IH.
  destruct (end_of_cycle_fields st) as (_ & _ & _ & _ & _ & _ & _ & _ & _ & _ & ->).
  rewrite Hquiet. destruct He as ((_ & _ & _ & _ & -> & _) & _). exact Hrun.
Qed.

(** X20. [start] sets the flag and installs the handler before its [try]:
    what [signal.signal] raises leaves [start] at once, with the flag set
    and [stop] not called.  Once the handler is installed [stop] runs
    whatever happened, so the flag is cleared when [start] is over: a
    keyboard interrupt and every instance of Exception that left
    [_run_loop] end there, anything else goes on to the caller after
    [stop], and apart from the flag the session is as [_run_loop] left it.
    The chunk length is computed in [_run_loop] before the loop: what
    [int] raises there leaves [_run_loop] before any pass, and it is the
    only instance of Exception that can leave [_run_loop]. *)
Theorem start_always_stops (fuel : nat) (self : RealtimeTranslator float) :
  let out := start_session fuel self in
  let inner := run_loop fuel (set_running true self) in
  match signal_signal with
  | Some e => out = (Raised e, set_running true self)
  | None =>
      match fst out with
      | StillRunning => fst inner = StillRunning /\ snd out = snd inner
      | Returned =>
          (fst inner = Returned \/ fst inner = Raised KeyboardInterrupt \/
           exists e, int_of_product (sample_rate self) (chunk_seconds self) = inr e /\
                     fst inner = Raised e /\ is_Exception e = true) /\
          snd out = stop (snd inner) /\ running (snd out) = false
      | Raised e =>
          fst inner = Raised e /\ is_Exception e = false /\ e <> KeyboardInterrupt /\
          snd out = stop (snd inner) /\ running (snd out) = false
      end
  end /\
  match int_of_product (sample_rate self) (chunk_seconds self) with
  | inr e => inner = (Raised e, set_running true self)
  | inl chunk_samples => inner = loop chunk_samples fuel (set_running true self)
  end.
Proof.
  cbv zeta. split.
  - unfold start. destruct signal_signal as [e0|]; [reflexivity|].
    unfold _run_loop. cbn [sample_rate chunk_seconds set_running].
    destruct (int_of_product (sample_rate self) (chunk_seconds self)) as [m|e] eqn:Eint.
    + pose proof (loop_books m fuel (set_running true self)) as Hacc.
      cbv zeta in Hacc. destruct Hacc as (_ & _ & _ & _ & _ & _ & _ & _ & Hend).
      destruct (loop m fuel (set_running true self)) as [[|e|] st]; cbn [fst snd] in *.
      * auto.
      * destruct e; cbn [is_Exception] in *; try discriminate; cbn [fst snd].
        -- auto.
        -- repeat split; auto; discriminate.
      * auto.
    + destruct e; cbn [is_Exception fst snd]; repeat split; eauto 6; discriminate.
  - unfold _run_loop. cbn [sample_rate chunk_seconds set_running].
    now destruct (int_of_product _ _).
Qed.

(** One pass keeps the two invariants of the cache. *)
Lemma pass_keeps_cache_invariants (n : N) (self : RealtimeTranslator float) :
  valid_keys (translator_llm self) -> paid_for (translator_llm self) ->
  valid_keys (translator_llm (snd (pass n self))) /\
  paid_for (translator_llm (snd (pass n self))).
Proof.
  intros Hv Hp.
  destruct (pass_effect n self) as (_ & _ & _ & _ & [->|(prompt & ->)] & _); [auto|].
  destruct (ask_effect prompt (translator_llm self)) as [->|(text & src & tgt & ->)];
    [auto|].
  split; [now apply translate_valid_keys | now apply translate_paid_for].
Qed.

(** X21. A session keeps its cache clean.  If, when the loop starts, every key
    of the cache has two supported codes and a trimmed text, and the cache
    holds no more entries than the engine was run, then the same is true
    whenever the loop is left or observed, whatever the collaborators did
    in between; a session that starts with an empty cache is one. *)
Theorem session_keeps_cache_invariants
    (n : N) (fuel : nat) (self : RealtimeTranslator float) :
  valid_keys (translator_llm self) -> paid_for (translator_llm self) ->
  valid_keys (translator_llm (snd (loop n fuel self))) /\
  paid_for (translator_llm (snd (loop n fuel self))).
Proof.
  revert self. induction fuel as [|fuel IH]; intros self Hv Hp.
  { simpl. destruct (running self); auto. }
  destruct (running self) eqn:Hrun.
  2:{ rewrite (loop_stopped _ _ _ _ _ _ _ _ _ _ _ _ _ _ _ _ _ _ n (S fuel) self Hrun). auto. }
  rewrite (loop_step _ _ _ _ _ _ _ _ _ _ _ _ _ _ _ _ _ _ n fuel self Hrun).
  destruct (pass_keeps_cache_invariants n self Hv Hp) as [Hv' Hp'].
  destruct (pass n self) as [[a|e] st]; cbn [fst snd] in *; [|auto].
  apply IH;
    destruct (end_of_cycle_fields st) as (_ & _ & _ & _ & _ & -> & _); assumption.
Qed.


End SessionFacts.

(** ** realtime.py and langchain_llm.py together *)

Section SessionPrompts.
Import Translator LLM STT TTS Realtime.

Variable float : Type.
Variable np_square : list float -> list float.
Variable np_mean : list float -> float.
Variable np_sqrt : float -> float.
Variable np_compare : float -> float -> float_cmp.
Variable float_0_01 : float.
Variable whisper : list (WhisperCall float) -> WhisperCall float -> WhisperResult + exn.
Variable engine : list EngineCall -> EngineCall -> str + exn.
Variable is_word : N -> bool.
Variable ieq : N -> N -> bool.
Variable lower upper : str -> str.
Variable pyttsx3_run : list Pyttsx3Call -> Pyttsx3Call -> option exn.
Variable gtts_save : list GttsCall -> GttsCall -> option exn.
Variable player : list (option str) -> option str -> option exn.
Variable os_remove : nat -> option exn.
Variable console : str -> str -> option exn.
Variable sd_rec : nat -> N -> list float + exn.

#[local] Abbreviation prompt_match := (Regex.prompt_match is_word ieq).
#[local] Abbreviation has_speech :=
  (_has_speech np_square np_mean np_sqrt np_compare).
#[local] Abbreviation body :=
  (cycle_body np_square np_mean np_sqrt np_compare float_0_01 whisper engine prompt_match
     lower upper pyttsx3_run gtts_save player os_remove console sd_rec).
#[local] Abbreviation pass :=
  (cycle np_square np_mean np_sqrt np_compare float_0_01 whisper engine prompt_match
     lower upper pyttsx3_run gtts_save player os_remove console sd_rec).
#[local] Abbreviation say :=
  (speak pyttsx3_run gtts_save player os_remove console upper).

(** X23. Speech in a language outside the supported set.  With the source
    detected by the transcriber, a chunk whose language code is none of
    the five is refused by the wrapper: the pass ends in the [except]
    clause with the wrapper's error, after one transcription and before
    any translation or synthesis, and the session pauses once. *)
Theorem unsupported_speech_is_skipped
    (n : N) (self : RealtimeTranslator float) (audio : list float) (tr : Transcript) :
  (forall c, ieq c c = true) -> is_word 32 = false -> is_word 58 = false ->
  sd_rec (recordings self) n = inl audio ->
  has_speech audio float_0_01 = true ->
  heard whisper audio self = inl tr ->
  truthy (strip (tr_text tr)) = true ->
  let code := resolved lower (tr_language tr) self in
  code <> [] -> Forall (fun c => is_word c = true) code ->
  tgt_lang self <> [] -> Forall (fun c => is_word c = true) (tgt_lang self) ->
  code <> tgt_lang self ->
  list_in (lower code) supported = false ->
  pass n self
  = (inl (Recovered (ValueError (s "Unsupported source language: " ++ lower code
                                   ++ s ". Supported: " ++ supported_repr))),
     slept (transcribed (stt_call audio self) self)).
Proof.
  intros Hrefl H32 H58 Hrec Hgate Hheard Htext code Hcode Hwcode Htgt Hwtgt Hne Hbad.
  pose proof (prompt_groups is_word ieq Hrefl H32 H58 code (tgt_lang self) (tr_text tr)
                Hcode Hwcode Htgt Hwtgt Htext) as Hm.
  rewrite pass_run.
  rewrite (body_transcribe _ _ _ _ _ _ _ _ _ _ _ _ _ _ _ _ _ n self audio Hrec Hgate).
  rewrite Hheard, Htext. cbn [negb].
  fold code. rewrite (bool_decide_eq_false_2 _ Hne).
  rewrite bind_run. unfold on_llm at 1, invoke, _call, prompt_of.
  change (tgt_lang (transcribed (stt_call audio self) self)) with (tgt_lang self).
  rewrite Hm, Hbad. cbn [negb raise is_Exception].
  reflexivity.
Qed.

(** What [__init__] lets through. *)
Lemma init_inv (src tgt : str) (chunk : float) (rate : N) (stt0 : WhisperSTT float)
    (llm0 : MBARTTranslator) (tts0 : TextToSpeech) (self : RealtimeTranslator float) :
  __init__ src tgt chunk rate stt0 llm0 tts0 = inl self ->
  self = mkRT src tgt chunk rate false stt0 llm0 tts0 0 0 0 /\
  (src = s "auto" \/ list_in src supported = true) /\
  list_in tgt supported = true.
Proof.
  unfold __init__. fold supported.
  destruct (bool_decide (src = s "auto")) eqn:Ha; cbn [negb andb].
  - apply bool_decide_eq_true_1 in Ha.
    destruct (list_in tgt supported); cbn [negb]; [|discriminate].
    intros [= <-]. auto.
  - destruct (list_in src supported); cbn [negb]; [|discriminate].
    destruct (list_in tgt supported); cbn [negb]; [|discriminate].
    intros [= <-]. auto.
Qed.

(** Every supported code has two characters. *)
Lemma supported_take (l : str) : list_in l supported = true -> take 2 l = l.
Proof.
  unfold list_in. intros H. apply bool_decide_eq_true_1 in H.
  unfold supported in H. rewrite !elem_of_cons, elem_of_nil in H.
  destruct H as [->|[->|[->|[->|[->|[]]]]]]; reflexivity.
Qed.

(** X24. A session with a fixed source language.  Built by [__init__] with a
    source other than "auto" and different from the target, a session
    whose chunk carries speech and a transcript that is not blank hands
    the translator exactly the trimmed transcript under the two codes of
    the session: the prompt always matches the pattern and neither check
    of the wrapper fires, whatever language the transcriber reports. *)
Theorem fixed_source_requests_reach_translator
    (src tgt : str) (chunk : float) (rate : N) (stt0 : WhisperSTT float)
    (llm0 : MBARTTranslator) (tts0 : TextToSpeech) (self : RealtimeTranslator float)
    (n : N) (audio : list float) (tr : Transcript) :
  (forall c, ieq c c = true) -> is_word 32 = false -> is_word 58 = false ->
  (forall l, l ∈ supported -> lower l = l /\ Forall (fun c => is_word c = true) l) ->
  __init__ src tgt chunk rate stt0 llm0 tts0 = inl self ->
  src <> s "auto" -> src <> tgt ->
  sd_rec (recordings self) n = inl audio ->
  has_speech audio float_0_01 = true ->
  heard whisper audio self = inl tr ->
  truthy (strip (tr_text tr)) = true ->
  resolved lower (tr_language tr) self = src /\
  invoke engine prompt_match lower (prompt_of src (tr_text tr) self) llm0
  = translate engine (strip (tr_text tr)) src tgt llm0 /\
  translator_llm (snd (pass n self))
  = snd (translate engine (strip (tr_text tr)) src tgt llm0).
Proof.
  intros Hrefl H32 H58 Hcodes Hinit Hfixed Hne Hrec Hgate Hheard Htext.
  destruct (init_inv _ _ _ _ _ _ _ _ Hinit) as (Hself & [Hsrc|Hsrc] & Htgt);
    [congruence|].
  pose proof Hsrc as Hsrc'. pose proof Htgt as Htgt'.
  unfold list_in in Hsrc', Htgt'.
  apply bool_decide_eq_true_1 in Hsrc'. apply bool_decide_eq_true_1 in Htgt'.
  destruct (Hcodes src Hsrc') as [Hls Hws].
  destruct (Hcodes tgt Htgt') as [Hlt Hwt].
  assert (Hres : resolved lower (tr_language tr) self = src).
  { unfold resolved. rewrite Hself. cbn [src_lang].
    rewrite (bool_decide_eq_false_2 _ Hfixed), (supported_take src Hsrc). exact Hls. }
  assert (Htl : tgt_lang self = tgt) by now rewrite Hself.
  assert (Hllm : translator_llm self = llm0) by now rewrite Hself.
  assert (Hsrc_ne : src <> []).
  { intros ->. revert Hsrc'. unfold supported.
    rewrite !elem_of_cons, elem_of_nil. intuition discriminate. }
  assert (Htgt_ne : tgt <> []).
  { intros ->. revert Htgt'. unfold supported.
    rewrite !elem_of_cons, elem_of_nil. intuition discriminate. }
  assert (Hask : forall t, invoke engine prompt_match lower (prompt_of src (tr_text tr) self) t
                           = translate engine (strip (tr_text tr)) src tgt t).
  { intros t. unfold prompt_of. rewrite Htl.
    pose proof (prompt_groups is_word ieq Hrefl H32 H58 src tgt (tr_text tr)
                  Hsrc_ne Hws Htgt_ne Hwt Htext) as Hm.
    rewrite <- Hls in Hsrc. rewrite <- Hlt in Htgt.
    rewrite (call_run engine prompt_match lower _ src tgt (strip (tr_text tr)) t Hm Hsrc Htgt).
    now rewrite Hls, Hlt, strip_idempotent. }
  split; [exact Hres|]. split; [apply Hask|].
  rewrite pass_run.
  rewrite (body_transcribe _ _ _ _ _ _ _ _ _ _ _ _ _ _ _ _ _ n self audio Hrec Hgate).
  rewrite Hheard, Htext. cbn [negb]. rewrite Hres, Htl.
  rewrite (bool_decide_eq_false_2 _ Hne).
  pose proof (translate_and_speak_effect float engine prompt_match lower upper
                pyttsx3_run gtts_save player os_remove console
                (prompt_of src (tr_text tr) self) tgt
                (transcribed (stt_call audio self) self)) as Heff.
  cbv zeta in Heff.
  destruct Heff as (_ & _ & _ & _ & _ & _ & _ & _ & _ & _ & Ht & _).
  change (translator_llm (transcribed (stt_call audio self) self))
    with (translator_llm self) in Ht.
  rewrite Hllm, Hask in Ht.
  destruct ((translation <- on_llm _ ;; _) (transcribed (stt_call audio self) self))
    as [[a|e] st]; cbn [fst snd] in *; [exact Ht|].
  destruct (is_Exception e); cbn [snd]; exact Ht.
Qed.

End SessionPrompts.

(** ** Sessions on concrete chunks *)

Import Realtime.

(** Three chunks of silence and no signal: the loop is still running. *)
Lemma loop_runs_until_interrupted_witness :
  fst (Stub.loop (Stub.microphone []) (Stub.transcriber []) Stub.no_sigint 48000 3
         (Stub.session (s "en") (s "hi"))) = StillRunning /\
  fst (Stub.loop (Stub.microphone []) (Stub.transcriber []) Stub.no_sigint 48000 3
         (Stub.session (s "en") (s "hi"))) <> Returned.
Proof.
  split; [reflexivity|].
  apply (loop_runs_until_interrupted Z Stub.np_square Stub.np_mean Stub.np_sqrt
           Stub.np_compare Stub.float_0_01 (Stub.transcriber []) Stub.engine Stub.re_match
           Stub.lower Stub.upper Stub.pyttsx3_down Stub.gtts_up Stub.player_up
           Stub.remove_up Stub.console_up (Stub.microphone []) Stub.no_sigint 48000 3
           (Stub.session (s "en") (s "hi"))).
  - reflexivity.
  - reflexivity.
Defined.

(** French speech in a session that detects the source: refused by the
    wrapper, nothing translated, nothing spoken, one pause. *)
Lemma unsupported_speech_is_skipped_witness :
  let self := Stub.session (s "auto") (s "hi") in
  let mic := Stub.microphone [inl Stub.speech] in
  let whisper := Stub.transcriber Stub.hears_french in
  Stub.pass_matching mic whisper 48000 self
  = (inl (Recovered (ValueError
       (s "Unsupported source language: fr. Supported: ['en', 'hi', 'te', 'ta', 'kn']"))),
     slept (transcribed (stt_call Stub.speech self) self)) /\
  translator_llm (slept (transcribed (stt_call Stub.speech self) self)) = Stub.fresh /\
  tts (slept (transcribed (stt_call Stub.speech self) self)) = Stub.synthesizer.
Proof.
  intros self mic whisper.
  split; [|split; reflexivity].
  apply (unsupported_speech_is_skipped Z Stub.np_square Stub.np_mean Stub.np_sqrt
           Stub.np_compare Stub.float_0_01 whisper Stub.engine Stub.is_word Stub.ieq
           Stub.lower Stub.upper Stub.pyttsx3_down Stub.gtts_up Stub.player_up
           Stub.remove_up Stub.console_up mic 48000 self Stub.speech
           (STT.mkTranscript (s "Bonjour") (s "fr"))).
  - intros c. apply N.eqb_refl.
  - reflexivity.
  - reflexivity.
  - reflexivity.
  - reflexivity.
  - reflexivity.
  - reflexivity.
  - discriminate.
  - repeat constructor.
  - discriminate.
  - repeat constructor.
  - discriminate.
  - reflexivity.
Defined.

(** The session of [RealtimeTranslator("en", "hi")] hearing "Hello". *)
Lemma fixed_source_requests_reach_translator_witness :
  let self := mkRT (s "en") (s "hi") 30000%Z 16000 false (STT.mkSTT []) Stub.fresh
                   Stub.synthesizer 0 0 0 in
  let mic := Stub.microphone [inl Stub.speech] in
  let whisper := Stub.transcriber Stub.hears_english in
  translator_llm (snd (Stub.pass_matching mic whisper 48000 self))
  = snd (Translator.translate Stub.engine (s "Hello") (s "en") (s "hi") Stub.fresh).
Proof.
  intros self mic whisper.
  destruct (fixed_source_requests_reach_translator Z Stub.np_square Stub.np_mean
              Stub.np_sqrt Stub.np_compare Stub.float_0_01 whisper Stub.engine
              Stub.is_word Stub.ieq Stub.lower Stub.upper Stub.pyttsx3_down Stub.gtts_up
              Stub.player_up Stub.remove_up Stub.console_up mic
              (s "en") (s "hi") 30000%Z 16000 (STT.mkSTT []) Stub.fresh Stub.synthesizer
              self 48000 Stub.speech (STT.mkTranscript (s "Hello") (s "EN")))
    as (_ & _ & Hllm).
  - intros c. apply N.eqb_refl.
  - reflexivity.
  - reflexivity.
  - intros l Hl. unfold LLM.supported in Hl.
    rewrite !elem_of_cons, elem_of_nil in Hl.
    destruct Hl as [->|[->|[->|[->|[->|[]]]]]]; (split; [reflexivity | repeat constructor]).
  - reflexivity.
  - discriminate.
  - discriminate.
  - reflexivity.
  - reflexivity.
  - reflexivity.
  - reflexivity.
  - exact Hllm.
Defined.

(** Two chunks of "Hello" in a session that starts with an empty cache. *)
Lemma session_keeps_cache_invariants_witness :
  let self := Stub.session (s "en") (s "hi") in
  let mic := Stub.microphone [inl Stub.speech; inl Stub.speech] in
  let whisper := Stub.transcriber (Stub.hears_english ++ Stub.hears_english) in
  valid_keys (translator_llm (snd (Stub.loop mic whisper Stub.no_sigint 48000 2 self))) /\
  paid_for (translator_llm (snd (Stub.loop mic whisper Stub.no_sigint 48000 2 self))).
Proof.
  intros self mic whisper.
  apply (session_keeps_cache_invariants Z Stub.np_square Stub.np_mean Stub.np_sqrt
           Stub.np_compare Stub.float_0_01 whisper Stub.engine Stub.re_match
           Stub.lower Stub.upper Stub.pyttsx3_down Stub.gtts_up Stub.player_up
           Stub.remove_up Stub.console_up mic Stub.no_sigint 48000 2 self).
  - intros src tgt text hit H.
    change ((∅ : gmap (str * str * str) str) !! (src, tgt, text) = Some hit) in H.
    rewrite lookup_empty in H. discriminate H.
  - unfold paid_for. change (size (∅ : gmap (str * str * str) str) <= 0)%nat.
    rewrite map_size_empty. lia.
Defined.

